(** * NJ Ski Haus conditions API: a shallow embedding and its properties

    The development follows the repository file by file:

    - [JS]         the fragment of JavaScript the sources rely on (values,
                   coercions, [parseFloat], [parseInt], string methods,
                   exceptions, settled promises);
    - [SnoCountry] [src/lib/scrapers.js], the aggregator-feed pipeline;
    - [PerResort]  [src/njskihaus-api/lib/scrapers.js], one scraper per resort;
    - [Storage]    the persistence gateway ([storage.js], second part of
                   [src/lib/scrapers.js]);
    - [Scrape]     the [/api/scrape] trigger handler (second part of
                   [src/lib/test-scrapers.js]);
    - [Gateway]    [storage.js] again, with the store it reads and writes;
    - [Conditions] [src/njskihaus-api/api/conditions.js], the query handler;
    - [Request]    the requests the per-resort fetch helpers build;
    - [TestScrapers] and [RunScrape], the two command-line runners
                   ([src/lib/test-scrapers.js], and [run-scrape.js], third
                   part of [src/lib/scrapers.js]).

    Conventions of the embedding.

    - A JavaScript string is a [string]; each [ascii] is one code unit in
      U+0000..U+00FF.
    - A JavaScript Number is NaN, an infinity, or a finite value written as
      a decimal [m * 10^e] (every binary64 value has an exact one); the
      operations round their results to the nearest binary64 value, ties to
      even, overflow to an infinity and underflow to zero, as IEEE 754
      arithmetic does. [-0] is identified with [0].
    - The network, the clock and the process environment are read from an
      explicit record, so every function of the sources is a total function
      of that record. *)

From Stdlib Require Import ZArith List Bool Ascii String Lia QArith Qabs Qpower Lqa.
From Stdlib Require Import Sorted.
From Stdlib Require Import DecimalString.
Import ListNotations.

Set Warnings "-register-all".

Local Open Scope string_scope.
Local Open Scope Z_scope.

(* ================================================================== *)
(** * The JavaScript fragment *)
(* ================================================================== *)

Module JS.

(** ** Exceptions and completions *)

(** Every value the sources or their libraries throw is an [Error] object;
    only its class name and [message] are observable here. *)
Record exn := Exn { exn_name : string; message : string }.

Definition Error (msg : string) : exn := Exn "Error" msg.
Definition TypeError (msg : string) : exn := Exn "TypeError" msg.

(** The outcome of evaluating an expression or a function body. *)
Inductive completion (A : Type) : Type :=
| Return (a : A)
| Throw (e : exn).
Arguments Return {A} a.
Arguments Throw {A} e.

Definition bind {A B} (m : completion A) (k : A -> completion B) : completion B :=
  match m with
  | Return a => k a
  | Throw e => Throw e
  end.

Notation "x <- m ;; k" := (bind m (fun x => k))
  (at level 61, m at next level, right associativity).

(** [try { body } catch (e) { handler e }] *)
Definition tryCatch {A} (body : completion A) (handler : exn -> completion A)
  : completion A :=
  match body with
  | Return a => Return a
  | Throw e => handler e
  end.

(** A settled promise, as [Promise.allSettled] reports it. *)
Inductive settled (A : Type) : Type :=
| Fulfilled (value : A)
| Rejected (reason : exn).
Arguments Fulfilled {A} value.
Arguments Rejected {A} reason.

(** An [async function] fulfils with what its body returns and rejects with
    what its body throws. *)
Definition async {A} (body : completion A) : settled A :=
  match body with
  | Return a => Fulfilled a
  | Throw e => Rejected e
  end.

(** [await p] inside a function body. *)
Definition await {A} (p : settled A) : completion A :=
  match p with
  | Fulfilled a => Return a
  | Rejected e => Throw e
  end.

(** ** Numbers *)

Inductive number :=
| NaN
| Infinity (negative : bool)
| Finite (m : Z) (e : Z).          (* m * 10^e *)

Fixpoint strip_zeros (fuel : nat) (m e : Z) : Z * Z :=
  match fuel with
  | O => (m, e)
  | S fuel' =>
      if Z.rem m 10 =? 0 then strip_zeros fuel' (Z.quot m 10) (e + 1) else (m, e)
  end.

(** The canonical representative: no trailing zero in the mantissa. *)
Definition decimal (m e : Z) : number :=
  if m =? 0 then Finite 0 0
  else let '(m', e') := strip_zeros (Z.to_nat (Z.log2 (Z.abs m))) m e in
       Finite m' e'.

(** The Number of an integer that a double holds exactly: the lengths,
    counts and status codes of the sources. *)
Definition integer (z : Z) : number := decimal z 0.

(** *** Rounding to binary64 *)

(** [p / q] rounded to the nearest integer, ties to even ([0 < q]). *)
Definition rne (p q : Z) : Z :=
  let f := p / q in
  let r := p mod q in
  if 2 * r <? q then f
  else if q <? 2 * r then f + 1
  else if Z.even f then f else f + 1.

(** The integer part of the binary logarithm of [p / q], for positive [p]
    and [q]. *)
Definition ilog2 (p q : Z) : Z :=
  let g := Z.log2 p - Z.log2 q in
  if q * 2 ^ Z.max 0 g <=? p * 2 ^ Z.max 0 (- g) then g else g - 1.

(** The binary64 value nearest to [p / q], for positive [p] and [q], as a
    significand and an exponent [(M, E)], that is [M * 2^E]: the
    significand has 53 bits, fewer below [2^-1022] where the exponent stays
    at [-1074]. Overflow is left to the caller. *)
Definition nearest (p q : Z) : Z * Z :=
  let E := Z.max (ilog2 p q - 52) (-1074) in
  (rne (p * 2 ^ Z.max 0 (- E)) (q * 2 ^ Z.max 0 E), E).

(** [M * 2^E] as a decimal. *)
Definition dyadic (M E : Z) : number :=
  if 0 <=? E then decimal (M * 2 ^ E) 0 else decimal (M * 5 ^ (- E)) E.

(** The Number nearest to [p / q] ([0 < q]): from [2^1024 - 2^970] on, an
    infinity. *)
Definition double_q (p q : Z) : number :=
  if p =? 0 then Finite 0 0
  else
    let '(M, E) := nearest (Z.abs p) q in
    if 1024 <=? Z.log2 M + E then Infinity (p <? 0)
    else dyadic (Z.sgn p * M) E.

(** The Number nearest to [m * 10^e]: the value of a decimal literal. *)
Definition double (m e : Z) : number :=
  if 0 <=? e then double_q (m * 10 ^ e) 1 else double_q m (10 ^ (- e)).

Definition is_zero (n : number) : bool :=
  match n with Finite m _ => m =? 0 | _ => false end.

Definition is_NaN (n : number) : bool :=
  match n with NaN => true | _ => false end.

(** [a <= b] on Numbers; any comparison with NaN is false. *)
Definition num_leb (a b : number) : bool :=
  match a, b with
  | NaN, _ | _, NaN => false
  | Infinity true, _ => true
  | _, Infinity false => true
  | Infinity false, _ => false
  | _, Infinity true => false
  | Finite m1 e1, Finite m2 e2 =>
      let e := Z.min e1 e2 in
      m1 * 10 ^ (e1 - e) <=? m2 * 10 ^ (e2 - e)
  end.

(** Equality of the denoted values (NaN equal to itself: SameValueZero). *)
Definition num_same (a b : number) : bool :=
  match a, b with
  | NaN, NaN => true
  | Infinity s1, Infinity s2 => Bool.eqb s1 s2
  | Finite m1 e1, Finite m2 e2 =>
      let e := Z.min e1 e2 in
      m1 * 10 ^ (e1 - e) =? m2 * 10 ^ (e2 - e)
  | _, _ => false
  end.

Definition num_mul (a b : number) : number :=
  match a, b with
  | NaN, _ | _, NaN => NaN
  | Infinity s, Infinity t => Infinity (xorb s t)
  | Infinity s, Finite m _ | Finite m _, Infinity s =>
      if m =? 0 then NaN else Infinity (xorb s (m <? 0))
  | Finite m1 e1, Finite m2 e2 => double (m1 * m2) (e1 + e2)
  end.

(** The exact quotient [a / b] as a fraction [(p, q)] with [q > 0], for
    finite [a] and finite non-zero [b]. *)
Definition quotient (m1 e1 m2 e2 : Z) : Z * Z :=
  let p := m1 * 10 ^ (Z.max 0 (e1 - e2)) in
  let q := m2 * 10 ^ (Z.max 0 (e2 - e1)) in
  if q <? 0 then (- p, - q) else (p, q).

(** [a / b] *)
Definition num_div (a b : number) : number :=
  match a, b with
  | NaN, _ | _, NaN => NaN
  | Infinity _, Infinity _ => NaN
  | Infinity s, Finite m _ => Infinity (xorb s (m <? 0))
  | Finite _ _, Infinity _ => Finite 0 0
  | Finite m1 e1, Finite m2 e2 =>
      if m2 =? 0 then
        (if m1 =? 0 then NaN else Infinity (m1 <? 0))
      else
        let '(p, q) := quotient m1 e1 m2 e2 in
        double_q p q
  end.

(** [Math.round]: the nearest integer, ties towards +Infinity. *)
Definition math_round (n : number) : number :=
  match n with
  | Finite m e =>
      if 0 <=? e then decimal m e
      else let q := 10 ^ (- e) in integer ((2 * m + q) / (2 * q))
  | _ => n
  end.

(** ** Strings *)

Definition code (c : ascii) : Z := Z.of_N (N_of_ascii c).
Definition char (z : Z) : ascii := ascii_of_N (Z.to_N z).

(** WhiteSpace and LineTerminator code units (below U+0100). *)
Definition is_white (c : ascii) : bool :=
  let n := code c in
  ((9 <=? n) && (n <=? 13)) || (n =? 32) || (n =? 160).

Definition is_digit (c : ascii) : bool :=
  let n := code c in (48 <=? n) && (n <=? 57).

Fixpoint trimStart (s : string) : string :=
  match s with
  | String c s' => if is_white c then trimStart s' else s
  | EmptyString => EmptyString
  end.

Fixpoint trimEnd (s : string) : string :=
  match s with
  | String c s' =>
      match trimEnd s' with
      | EmptyString => if is_white c then EmptyString else String c EmptyString
      | t => String c t
      end
  | EmptyString => EmptyString
  end.

(** [String.prototype.trim] *)
Definition trim (s : string) : string := trimEnd (trimStart s).

Fixpoint map_chars (f : ascii -> ascii) (s : string) : string :=
  match s with
  | String c s' => String (f c) (map_chars f s')
  | EmptyString => EmptyString
  end.

Fixpoint filter_chars (p : ascii -> bool) (s : string) : string :=
  match s with
  | String c s' => if p c then String c (filter_chars p s') else filter_chars p s'
  | EmptyString => EmptyString
  end.

(** [String.prototype.toLowerCase] *)
Definition toLowerCase (s : string) : string :=
  map_chars (fun c =>
    let n := code c in
    if ((65 <=? n) && (n <=? 90))
       || ((192 <=? n) && (n <=? 222) && negb (n =? 215))
    then char (n + 32) else c) s.

(** [String.prototype.toUpperCase], on the ASCII letters (it is applied to
    function names only). *)
Definition toUpperCase (s : string) : string :=
  map_chars (fun c =>
    let n := code c in
    if (97 <=? n) && (n <=? 122) then char (n - 32) else c) s.

(** [s.includes(sub)] *)
Fixpoint includes (s sub : string) : bool :=
  prefix sub s ||
  match s with
  | String _ s' => includes s' sub
  | EmptyString => false
  end.

(** [s.startsWith(p)], returning what follows the prefix. *)
Fixpoint strip_prefix (p s : string) : option string :=
  match p, s with
  | EmptyString, _ => Some s
  | String a p', String b s' =>
      if Ascii.eqb a b then strip_prefix p' s' else None
  | String _ _, EmptyString => None
  end.

(** The longest prefix whose characters satisfy [p], and the rest. *)
Fixpoint span (p : ascii -> bool) (s : string) : string * string :=
  match s with
  | String c s' =>
      if p c then let '(a, b) := span p s' in (String c a, b)
      else (EmptyString, s)
  | EmptyString => (EmptyString, EmptyString)
  end.

Definition strlen (s : string) : Z := Z.of_nat (String.length s).

Fixpoint repeat_char (c : ascii) (n : nat) : string :=
  match n with
  | O => EmptyString
  | S n' => String c (repeat_char c n')
  end.

(** Value of a digit in a radix up to 36 ([None] if not alphanumeric). *)
Definition digit_value (c : ascii) : option Z :=
  let n := code c in
  if (48 <=? n) && (n <=? 57) then Some (n - 48)
  else if (97 <=? n) && (n <=? 122) then Some (n - 87)
  else if (65 <=? n) && (n <=? 90) then Some (n - 55)
  else None.

Definition is_radix_digit (r : Z) (c : ascii) : bool :=
  match digit_value c with
  | Some d => d <? r
  | None => false
  end.

(** The mathematical value of a digit string in radix [r]. *)
Fixpoint digits_value_from (r acc : Z) (s : string) : Z :=
  match s with
  | String c s' =>
      digits_value_from r
        (acc * r + match digit_value c with Some d => d | None => 0 end) s'
  | EmptyString => acc
  end.

Definition digits_value (r : Z) (s : string) : Z := digits_value_from r 0 s.

(** Decimal digits of a non-negative integer. *)
Definition digits_of (z : Z) : string :=
  NilZero.string_of_uint (N.to_uint (Z.to_N z)).

(** ** Parsing and printing Numbers *)

(** The longest prefix of [s] that is a StrDecimalLiteral, with what
    follows it. *)
Definition parseDecimalPrefix (s : string) : option (number * string) :=
  let '(neg, s1) :=
    match s with
    | String "-" r => (true, r)
    | String "+" r => (false, r)
    | _ => (false, s)
    end in
  match strip_prefix "Infinity" s1 with
  | Some r => Some (Infinity neg, r)
  | None =>
      let '(d1, r1) := span is_digit s1 in
      let '(d2, r2) :=
        match r1 with
        | String "." r =>
            let '(d, r') := span is_digit r in
            if (d1 =? "")%string && (d =? "")%string then (EmptyString, r1)
            else (d, r')
        | _ => (EmptyString, r1)
        end in
      if (d1 =? "")%string && (d2 =? "")%string then None
      else
        let '(ex, r3) :=
          match r2 with
          | String c r =>
              if (code c =? 101) || (code c =? 69) then
                let '(eneg, r') :=
                  match r with
                  | String "-" t => (true, t)
                  | String "+" t => (false, t)
                  | _ => (false, r)
                  end in
                let '(d3, r'') := span is_digit r' in
                if (d3 =? "")%string then (0, r2)
                else ((if eneg then -1 else 1) * digits_value 10 d3, r'')
              else (0, r2)
          | EmptyString => (0, r2)
          end in
        let m := digits_value 10 (d1 ++ d2) in
        Some (double (if neg then - m else m) (ex - strlen d2), r3)
  end.

(** [parseFloat] on a string argument. *)
Definition parseFloat_string (s : string) : number :=
  match parseDecimalPrefix (trimStart s) with
  | Some (n, _) => n
  | None => NaN
  end.

(** [parseInt] on a string argument; [radix] is [None] when the call passes
    no radix. *)
Definition parseInt_string (s : string) (radix : option Z) : number :=
  let s0 := trimStart s in
  let '(neg, s1) :=
    match s0 with
    | String "-" r => (true, r)
    | String "+" r => (false, r)
    | _ => (false, s0)
    end in
  let r0 := match radix with Some r => r | None => 0 end in
  if negb (r0 =? 0) && ((r0 <? 2) || (36 <? r0)) then NaN
  else
    let '(r, s2) :=
      if (r0 =? 0) || (r0 =? 16) then
        match s1 with
        | String "0" (String c t) =>
            if (code c =? 120) || (code c =? 88) then (16, t)
            else ((if r0 =? 0 then 10 else r0), s1)
        | _ => ((if r0 =? 0 then 10 else r0), s1)
        end
      else (r0, s1) in
    let '(ds, _) := span (is_radix_digit r) s2 in
    if (ds =? "")%string then NaN
    else let v := digits_value r ds in double (if neg then - v else v) 0.

(** StringToNumber, the [ToNumber] conversion of a string. *)
Definition stringToNumber (s : string) : number :=
  let t := trim s in
  if (t =? "")%string then Finite 0 0
  else
    match parseDecimalPrefix t with
    | Some (n, EmptyString) => n
    | _ =>
        match t with
        | String "0" (String c ds) =>
            let r :=
              if (code c =? 120) || (code c =? 88) then 16
              else if (code c =? 111) || (code c =? 79) then 8
              else if (code c =? 98) || (code c =? 66) then 2
              else 0 in
            if (r =? 0) || (ds =? "")%string then NaN
            else
              match span (is_radix_digit r) ds with
              | (_, EmptyString) => double (digits_value r ds) 0
              | _ => NaN
              end
        | _ => NaN
        end
    end.

(** The digits [Number::toString] prints for the positive value
    [m * 10^e] of a Number: those of the shortest decimal [s * 10^x] that
    reads back as the same Number, the nearest one if there are two. No
    double needs more than 17 digits. *)
Definition shortest (m e : Z) : Z * Z :=
  let t := double m e in
  let n := strlen (digits_of m) + e in
  (fix search (fuel : nat) (k : Z) : Z * Z :=
     match fuel with
     | O => (m, e)
     | S fuel' =>
         let x := n - k in
         let '(p, q) :=
           if x <=? e then (m * 10 ^ (e - x), 1) else (m, 10 ^ (x - e)) in
         let lo := p / q in
         let hi := lo + 1 in
         let ok_lo := (0 <? lo) && num_same (double lo x) t in
         let ok_hi := num_same (double hi x) t in
         if ok_lo && ok_hi then
           (if 2 * p <? (lo + hi) * q then (lo, x)
            else if (lo + hi) * q <? 2 * p then (hi, x)
            else if Z.even lo then (lo, x) else (hi, x))
         else if ok_lo then (lo, x)
         else if ok_hi then (hi, x)
         else search fuel' (k + 1)
     end) 17%nat 1.

(** Number::toString, radix 10. *)
Definition numberToString (n : number) : string :=
  match n with
  | NaN => "NaN"
  | Infinity false => "Infinity"
  | Infinity true => "-Infinity"
  | Finite m0 e0 =>
      if m0 =? 0 then "0"
      else
        let '(s0, x0) := shortest (Z.abs m0) e0 in
        match decimal s0 x0 with
        | Finite m e =>
            let s := digits_of (Z.abs m) in
            let k := strlen s in
            let n := k + e in
            let body :=
              if (k <=? n) && (n <=? 21) then
                s ++ repeat_char "0" (Z.to_nat (n - k))
              else if (0 <? n) && (n <=? 21) then
                substring 0 (Z.to_nat n) s ++ "." ++
                substring (Z.to_nat n) (Z.to_nat (k - n)) s
              else if (-6 <? n) && (n <=? 0) then
                "0." ++ repeat_char "0" (Z.to_nat (- n)) ++ s
              else
                let ex := n - 1 in
                (if k =? 1 then s
                 else substring 0 1 s ++ "." ++ substring 1 (Z.to_nat (k - 1)) s)
                ++ "e" ++ (if ex <? 0 then "-" else "+") ++ digits_of (Z.abs ex) in
            (if m0 <? 0 then "-" else "") ++ body
        | _ => "NaN"
        end
  end.

(** ** Values *)

(** The values [JSON.parse] produces, and [undefined]. An object is given by
    its own properties (distinct keys). *)
Inductive jsval :=
| JUndefined
| JNull
| JBool (b : bool)
| JNum (n : number)
| JStr (s : string)
| JArr (items : list jsval)
| JObj (props : list (string * jsval)).

Definition nullish (v : jsval) : bool :=
  match v with JUndefined | JNull => true | _ => false end.

(** [v != null] *)
Definition present (v : jsval) : bool := negb (nullish v).

(** ToBoolean *)
Definition truthy (v : jsval) : bool :=
  match v with
  | JUndefined | JNull => false
  | JBool b => b
  | JNum n => negb (is_zero n || is_NaN n)
  | JStr s => negb (s =? "")%string
  | JArr _ | JObj _ => true
  end.

(** [a || b] when evaluating [b] cannot throw. *)
Definition oror (a b : jsval) : jsval := if truthy a then a else b.

Fixpoint own (props : list (string * jsval)) (k : string) : option jsval :=
  match props with
  | (k', v) :: rest => if (k' =? k)%string then Some v else own rest k
  | [] => None
  end.

(** [v.k] for the literal keys the sources read from parsed JSON: none of
    them is inherited from a prototype, so only an object's own property can
    answer; reading a property of [null] or [undefined] throws. *)
Definition get (v : jsval) (k : string) : completion jsval :=
  match v with
  | JUndefined =>
      Throw (TypeError ("Cannot read properties of undefined (reading '" ++ k ++ "')"))
  | JNull =>
      Throw (TypeError ("Cannot read properties of null (reading '" ++ k ++ "')"))
  | JObj props => Return match own props k with Some x => x | None => JUndefined end
  | _ => Return JUndefined
  end.

(** ToString. An array joins its elements with commas; a parsed object
    prints as [[object Object]] unless it shadows [toString] with a
    (necessarily non-callable) own property, in which case the conversion
    to a primitive fails. *)
Fixpoint toString (v : jsval) : completion string :=
  match v with
  | JUndefined => Return "undefined"
  | JNull => Return "null"
  | JBool true => Return "true"
  | JBool false => Return "false"
  | JNum n => Return (numberToString n)
  | JStr s => Return s
  | JArr items =>
      (fix join (l : list jsval) : completion string :=
         match l with
         | [] => Return ""
         | x :: rest =>
             a <- (if nullish x then Return "" else toString x) ;;
             match rest with
             | [] => Return a
             | _ => b <- join rest ;; Return (a ++ "," ++ b)
             end
         end) items
  | JObj props =>
      match own props "toString" with
      | Some _ => Throw (TypeError "Cannot convert object to primitive value")
      | None => Return "[object Object]"
      end
  end.

(** ToNumber *)
Definition toNumber (v : jsval) : completion number :=
  match v with
  | JUndefined => Return NaN
  | JNull => Return (Finite 0 0)
  | JBool b => Return (Finite (if b then 1 else 0) 0)
  | JNum n => Return n
  | JStr s => Return (stringToNumber s)
  | JArr _ | JObj _ => s <- toString v ;; Return (stringToNumber s)
  end.

(** The global [parseFloat] and [parseInt]: the argument is converted to a
    string first. *)
Definition parseFloat (v : jsval) : completion number :=
  s <- toString v ;; Return (parseFloat_string s).

Definition parseInt (v : jsval) (radix : option Z) : completion number :=
  s <- toString v ;; Return (parseInt_string s radix).

(** SameValueZero, the equality of [Set.prototype.has]. Two arrays or
    objects are the same only if they are one object; values parsed from
    different places of a JSON text never are. *)
Definition sameValueZero (a b : jsval) : bool :=
  match a, b with
  | JUndefined, JUndefined | JNull, JNull => true
  | JBool x, JBool y => Bool.eqb x y
  | JNum x, JNum y => num_same x y
  | JStr x, JStr y => (x =? y)%string
  | _, _ => false
  end.

Fixpoint chars (s : string) : list jsval :=
  match s with
  | String c s' => JStr (String c EmptyString) :: chars s'
  | EmptyString => []
  end.

(** [...v] in an argument list: the elements of an iterable. *)
Definition spread (v : jsval) : completion (list jsval) :=
  match v with
  | JArr items => Return items
  | JStr s => Return (chars s)
  | _ => Throw (TypeError "Spread syntax requires ...iterable[Symbol.iterator] to be a function")
  end.

Definition isArray (v : jsval) : bool :=
  match v with JArr _ => true | _ => false end.

(** ** Object literals used as maps *)

(** What [table[key]] finds in an object literal with string values: an own
    property, a member inherited from [Object.prototype] (a function, or the
    prototype object itself for [__proto__]), or nothing. *)
Inductive member :=
| Own (v : string)
| Inherited (k : string)
| Missing.

Definition Object_prototype : list string :=
  [ "constructor"; "__defineGetter__"; "__defineSetter__"; "hasOwnProperty";
    "__lookupGetter__"; "__lookupSetter__"; "isPrototypeOf";
    "propertyIsEnumerable"; "toString"; "valueOf"; "__proto__";
    "toLocaleString" ].

Fixpoint assoc (table : list (string * string)) (k : string) : option string :=
  match table with
  | (k', v) :: rest => if (k' =? k)%string then Some v else assoc rest k
  | [] => None
  end.

Definition lookup (table : list (string * string)) (k : string) : member :=
  match assoc table k with
  | Some v => Own v
  | None =>
      if existsb (String.eqb k) Object_prototype then Inherited k else Missing
  end.

(** [table[key]]: the key is converted to a property key first. *)
Definition index (table : list (string * string)) (key : jsval) : completion member :=
  k <- toString key ;; Return (lookup table k).

Definition member_truthy (m : member) : bool :=
  match m with
  | Own v => negb (v =? "")%string
  | Inherited _ => true
  | Missing => false
  end.

(** [name?.trim()] *)
Definition optional_trim (v : jsval) : completion jsval :=
  match v with
  | JUndefined | JNull => Return JUndefined
  | JStr s => Return (JStr (trim s))
  | _ => Throw (TypeError "name?.trim is not a function")
  end.

(** [r.k || r.k1 || ... ] *)
Fixpoint alt (r : jsval) (k : string) (ks : list string) : completion jsval :=
  a <- get r k ;;
  match ks with
  | [] => Return a
  | k' :: ks' => if truthy a then Return a else alt r k' ks'
  end.

(** [n || null] for a Number [n]. *)
Definition or_null (n : number) : jsval := oror (JNum n) JNull.

Fixpoint mapM {A B} (f : A -> completion B) (l : list A) : completion (list B) :=
  match l with
  | [] => Return []
  | x :: rest => y <- f x ;; ys <- mapM f rest ;; Return (y :: ys)
  end.

(** [a * b] *)
Definition times (a b : jsval) : completion jsval :=
  x <- toNumber a ;; y <- toNumber b ;; Return (JNum (num_mul x y)).

(** [obj.k = v] and [obj.k] on a local object built by assignments. *)
Definition assign (k : string) (v : jsval) (props : list (string * jsval))
  : list (string * jsval) := (k, v) :: props.

Definition member_of (props : list (string * jsval)) (k : string) : jsval :=
  match own props k with Some v => v | None => JUndefined end.

End JS.

Import JS.

(* ================================================================== *)
(** * The data model and the outside world *)
(* ================================================================== *)

(** The record every scraper returns. A field the object literal does not
    mention is [JUndefined]. *)
Record CanonicalConditionRecord := {
  name : jsval;
  base : jsval;
  summit : jsval;
  newSnow24 : jsval;
  newSnow48 : jsval;
  newSnow7d : jsval;
  trailsOpen : jsval;
  trailsTotal : jsval;
  liftsOpen : jsval;
  liftsTotal : jsval;
  surface : jsval;
  season : jsval;
  status : jsval;
  updatedAt : jsval;
  source : jsval
}.

(** The object [runAllScrapers] resolves to. *)
Record AggregateSnapshot := {
  mountains : list CanonicalConditionRecord;
  scrapedAt : string;
  successCount : Z;
  totalCount : Z
}.

(** An element of a loaded page: [$(el).find(sel).text()]. *)
Record element := { find_text : string -> string }.

(** A page loaded by cheerio: [$(sel).first().text()] and the elements
    [$(sel)] selects, in document order. *)
Record page := {
  first_text : string -> string;
  select : string -> list element
}.

(** An HTTP response: [res.ok], [res.status], the body read and parsed as
    JSON, and the body read and loaded as markup. *)
Record response := {
  ok : bool;
  http_status : Z;
  body_json : completion jsval;
  body_html : completion page
}.

(** What a run observes of the outside: the outcome of [fetch] for each URL
    (a rejection covers connection failure and the 15 s abort), the reading
    of the clock, and the process environment. *)
Record world := {
  fetch : string -> settled response;
  toISOString : string;
  SNOCOUNTRY_API_KEY : option string;
  CRON_SECRET : option string;
  storage_write : AggregateSnapshot -> bool
}.

(** An object literal with the fields of a condition record. *)
Definition object (props : list (string * jsval)) : CanonicalConditionRecord := {|
  name := member_of props "name";
  base := member_of props "base";
  summit := member_of props "summit";
  newSnow24 := member_of props "newSnow24";
  newSnow48 := member_of props "newSnow48";
  newSnow7d := member_of props "newSnow7d";
  trailsOpen := member_of props "trailsOpen";
  trailsTotal := member_of props "trailsTotal";
  liftsOpen := member_of props "liftsOpen";
  liftsTotal := member_of props "liftsTotal";
  surface := member_of props "surface";
  season := member_of props "season";
  status := member_of props "status";
  updatedAt := member_of props "updatedAt";
  source := member_of props "source"
|}.

(** CSS selectors. The sources quote attribute values with the double quote
    character, which [css] puts back. *)
Inductive selector :=
| class_has (s : string)           (* [class*=s] *)
| attr (a v : string)              (* [a=v] *)
| raw (s : string)                 (* a selector with no quoted part *)
| both (a b : selector).           (* a immediately followed by b *)

Definition dquote : string := String (ascii_of_nat 34) EmptyString.

Fixpoint css1 (s : selector) : string :=
  match s with
  | class_has c => "[class*=" ++ dquote ++ c ++ dquote ++ "]"
  | attr a v => "[" ++ a ++ "=" ++ dquote ++ v ++ dquote ++ "]"
  | raw r => r
  | both a b => css1 a ++ css1 b
  end.

(** A selector list, written with [, ] between its members. *)
Fixpoint css (group : list selector) : string :=
  match group with
  | [] => EmptyString
  | [s] => css1 s
  | s :: rest => css1 s ++ ", " ++ css rest
  end.

(** [$(sel).first().text()] *)
Definition text (dollar : page) (sel : list selector) : string :=
  first_text dollar (css sel).

(* ================================================================== *)
(** * [src/lib/scrapers.js]: the SnoCountry feed *)
(* ================================================================== *)

Module SnoCountry.

Definition SNOCOUNTRY_KEY (w : world) : string :=
  match SNOCOUNTRY_API_KEY w with
  | Some k => if (k =? "")%string then "SnoCountry.example" else k
  | None => "SnoCountry.example"
  end.

Definition SNOCOUNTRY_URL : string := "https://feeds.snocountry.net/conditions.json".

(** Mountain name mapping: SnoCountry name -> our card name. *)
Definition NAME_MAP : list (string * string) :=
  [ ("Mountain Creek",              "MOUNTAIN CREEK");
    ("Killington Resort",           "KILLINGTON");
    ("Killington",                  "KILLINGTON");
    ("Stowe Mountain Resort",       "STOWE");
    ("Stowe",                       "STOWE");
    ("Stratton Mountain",           "STRATTON");
    ("Stratton",                    "STRATTON");
    ("Sugarbush Resort",            "SUGARBUSH");
    ("Sugarbush",                   "SUGARBUSH");
    ("Pico Mountain",               "PICO MTN");
    ("Pico",                        "PICO MTN");
    ("Okemo Mountain Resort",       "OKEMO");
    ("Okemo",                       "OKEMO");
    ("Mount Snow",                  "MOUNT SNOW");
    ("Jay Peak",                    "JAY PEAK");
    ("Jay Peak Resort",             "JAY PEAK");
    ("Burke Mountain",              "BURKE MTN");
    ("Bolton Valley",               "BOLTON VALLEY");
    ("Bolton Valley Resort",        "BOLTON VALLEY");
    ("Magic Mountain",              "MAGIC MTN");
    ("Hunter Mountain",             "HUNTER MTN");
    ("Whiteface Mountain",          "WHITEFACE");
    ("Whiteface",                   "WHITEFACE");
    ("Gore Mountain",               "GORE MTN");
    ("Gore",                        "GORE MTN");
    ("Belleayre Mountain",          "BELLEAYRE");
    ("Belleayre",                   "BELLEAYRE");
    ("Catamount",                   "CATAMOUNT");
    ("Greek Peak Mountain Resort",  "GREEK PEAK");
    ("Greek Peak",                  "GREEK PEAK");
    ("West Mountain",               "WEST MTN");
    ("Camelback Mountain Resort",   "CAMELBACK");
    ("Camelback",                   "CAMELBACK");
    ("Blue Mountain",               "BLUE MTN PA");
    ("Blue Mountain Resort",        "BLUE MTN PA");
    ("Shawnee Mountain",            "SHAWNEE MTN");
    ("Sunday River",                "SUNDAY RIVER");
    ("Sunday River Resort",         "SUNDAY RIVER");
    ("Sugarloaf",                   "SUGARLOAF");
    ("Sugarloaf Mountain",          "SUGARLOAF");
    ("Saddleback Maine",            "SADDLEBACK");
    ("Saddleback Mountain",         "SADDLEBACK");
    ("Saddleback",                  "SADDLEBACK");
    ("Loon Mountain",               "LOON MTN");
    ("Loon Mountain Resort",        "LOON MTN");
    ("Attitash",                    "ATTITASH");
    ("Attitash Mountain Resort",    "ATTITASH");
    ("Wildcat Mountain",            "WILDCAT");
    ("Wildcat",                     "WILDCAT");
    ("Cannon Mountain",             "CANNON MTN");
    ("Waterville Valley",           "WATERVILLE VLY");
    ("Waterville Valley Resort",    "WATERVILLE VLY");
    ("Mont-Tremblant",              "MONT-TREMBLANT");
    ("Tremblant",                   "MONT-TREMBLANT");
    ("Le Massif de Charlevoix",     "LE MASSIF");
    ("Le Massif",                   "LE MASSIF");
    ("Mont-Sainte-Anne",            "MONT-STE-ANNE");
    ("Mont Sainte Anne",            "MONT-STE-ANNE") ].

(** [NAME_MAP[name] || NAME_MAP[name?.trim()]], the value of [ourName]. *)
Definition resolve (name : jsval) : completion member :=
  raw <- index NAME_MAP name ;;
  if member_truthy raw then Return raw
  else t <- optional_trim name ;; index NAME_MAP t.

(** [parseFloat(r.k || ...) || null] *)
Definition float_field (r : jsval) (k : string) (ks : list string) : completion jsval :=
  x <- alt r k ks ;; n <- parseFloat x ;; Return (or_null n).

(** [parseInt(r.k || ...) || null] *)
Definition int_field (r : jsval) (k : string) (ks : list string) : completion jsval :=
  x <- alt r k ks ;; n <- parseInt x None ;; Return (or_null n).

Definition parseRecord (w : world) (r : jsval)
  : completion (option CanonicalConditionRecord) :=
  name <- alt r "resort_name" ["resortName"] ;;
  ourName <- resolve name ;;
  if negb (member_truthy ourName) then Return None
  else
    base   <- float_field r "base_depth" ["baseDepth"] ;;
    summit <- float_field r "summit_depth" ["summitDepth"] ;;
    new24  <- float_field r "fresh_snow" ["freshSnow"; "snow_last_24h"; "snowLast24Hours"] ;;
    new48  <- float_field r "snow_last_48h" ["snowLast48Hours"] ;;
    new7d  <- float_field r "snow_last_7d" ["snowLast7Days"] ;;
    season <- float_field r "season_total" ["seasonTotal"] ;;
    tOpen  <- int_field r "open_runs" ["openRuns"; "open_trails"; "openTrails"] ;;
    tTotal <- int_field r "total_runs" ["totalRuns"; "total_trails"; "totalTrails"] ;;
    lOpen  <- int_field r "open_lifts" ["openLifts"] ;;
    lTotal <- int_field r "total_lifts" ["totalLifts"] ;;
    sc     <- (x <- alt r "resort_status" ["resortStatus"] ;; parseInt x None) ;;
    let statusCode := if truthy (JNum sc) then sc else Finite 0 0 in
    let status := if num_leb statusCode (Finite 3 0) then "Open" else "Closed" in
    surf <- alt r "primary_surface_condition" ["primarySurfaceCondition"] ;;
    upd  <- alt r "report_date_time" ["reportDateTime"] ;;
    Return (Some {|
      name := name;
      base := base; summit := summit;
      newSnow24 := new24; newSnow48 := new48; newSnow7d := new7d;
      trailsOpen := tOpen; trailsTotal := tTotal;
      liftsOpen := lOpen; liftsTotal := lTotal;
      surface := oror surf JNull;
      season := season; status := JStr status;
      updatedAt := oror upd (JStr (toISOString w));
      source := JStr "SnoCountry" |}).

Definition fetchState (w : world) (stateCode : string) : settled jsval :=
  let url := SNOCOUNTRY_URL ++ "?apiKey=" ++ SNOCOUNTRY_KEY w ++ "&states=" ++ stateCode in
  async
    (tryCatch
       (res <- await (fetch w url) ;;
        if negb (ok res) then
          Throw (Error ("HTTP " ++ numberToString (integer (http_status res))
                        ++ " for state " ++ stateCode))
        else
          data <- body_json res ;;
          if isArray data then Return data
          else
            a <- get data "resorts" ;;
            if truthy a then Return a
            else b <- get data "data" ;; Return (oror b (JArr [])))
       (fun e => Return (JArr []))).

Definition states : list string := ["NJ"; "VT"; "NY"; "PA"; "NH"; "ME"; "QC"].

(** The first [forEach]: [allResorts.push(...result.value)] for each
    fulfilled result, in the order of [states]. *)
Fixpoint collect (results : list (settled jsval)) (allResorts : list jsval)
  : completion (list jsval) :=
  match results with
  | [] => Return allResorts
  | Fulfilled value :: rest =>
      items <- spread value ;; collect rest (allResorts ++ items)
  | Rejected _ :: rest => collect rest allResorts
  end.

(** The second [forEach]: [matched] and the set [matchedNames] grow together. *)
Fixpoint dedup (w : world) (allResorts : list jsval)
    (matched : list CanonicalConditionRecord) (matchedNames : list jsval)
  : completion (list CanonicalConditionRecord) :=
  match allResorts with
  | [] => Return matched
  | r :: rest =>
      parsed <- parseRecord w r ;;
      match parsed with
      | Some p =>
          if negb (existsb (sameValueZero (name p)) matchedNames)
          then dedup w rest (matched ++ [p]) (matchedNames ++ [name p])
          else dedup w rest matched matchedNames
      | None => dedup w rest matched matchedNames
      end
  end.

Definition runAllScrapers (w : world) : settled AggregateSnapshot :=
  async
    (let allResults := map (fetchState w) states in
     allResorts <- collect allResults [] ;;
     allNames <- mapM (fun r => alt r "resort_name" ["resortName"]) allResorts ;;
     matched <- dedup w allResorts [] [] ;;
     let successCount := Z.of_nat (List.length (filter (fun m => present (base m)) matched)) in
     Return {|
       mountains := matched;
       scrapedAt := toISOString w;
       successCount := successCount;
       totalCount := Z.of_nat (List.length matched) |}).

End SnoCountry.

(* ================================================================== *)
(** * [src/njskihaus-api/lib/scrapers.js]: one scraper per resort *)
(* ================================================================== *)

Module PerResort.

(** ** Shared fetch helpers *)

Definition fetchPage (w : world) (url : string) : settled response :=
  async (tryCatch (res <- await (fetch w url) ;; Return res) (fun e => Throw e)).

Definition fetchJSON (w : world) (url : string) : settled jsval :=
  async
    (res <- await (fetchPage w url) ;;
     if negb (ok res) then
       Throw (Error ("HTTP " ++ numberToString (integer (http_status res)) ++ " from " ++ url))
     else body_json res).

Definition fetchHTML (w : world) (url : string) : settled page :=
  async
    (res <- await (fetchPage w url) ;;
     if negb (ok res) then
       Throw (Error ("HTTP " ++ numberToString (integer (http_status res)) ++ " from " ++ url))
     else body_html res).

(** ** Parsing helpers *)

Definition parseInches (str : jsval) : completion jsval :=
  if negb (truthy str) then Return JNull
  else
    s <- toString str ;;
    let n := parseFloat_string
               (filter_chars (fun c => is_digit c || Ascii.eqb c ".") s) in
    Return (if is_NaN n then JNull else JNum n).

Definition parseInt2 (str : jsval) : completion jsval :=
  if negb (truthy str) then Return JNull
  else
    s <- toString str ;;
    let n := parseInt_string (filter_chars is_digit s) (Some 10) in
    Return (if is_NaN n then JNull else JNum n).

(** [Math.round(cm / 2.54)], unless [cm] is [null] or [undefined]. *)
Definition cmToIn (cm : jsval) : completion jsval :=
  if nullish cm then Return JNull
  else n <- toNumber cm ;; Return (JNum (math_round (num_div n (double 254 (-2))))).

Definition now (w : world) : jsval := JStr (toISOString w).

(** A scraper function: its [name] property and what calling it does. *)
Record scraper := fn {
  fn_name : string;
  call : world -> settled CanonicalConditionRecord
}.

(** ** New Jersey *)

Definition mountainCreek (w : world) : settled CanonicalConditionRecord :=
  let url := "https://www.mountaincreek.com/mountain/snow-report" in
  async
    (tryCatch
       (dollar <- await (fetchHTML w url) ;;
        v_base <- parseInches (JStr (text dollar [class_has "base"; class_has "Base"])) ;;
        v_newSnow24 <- parseInches (JStr (text dollar [class_has "24"; class_has "overnight"])) ;;
        v_trailsOpen <- parseInt2 (JStr (text dollar [both (class_has "open") (class_has "trail"); class_has "trails-open"])) ;;
        v_trailsTotal <- parseInt2 (JStr (text dollar [both (class_has "total") (class_has "trail"); class_has "trails-total"])) ;;
        Return (object
          [ ("name", JStr "MOUNTAIN CREEK");
            ("base", v_base);
            ("newSnow24", v_newSnow24);
            ("trailsOpen", v_trailsOpen);
            ("trailsTotal", v_trailsTotal);
            ("surface", oror (JStr (trim (text dollar [class_has "surface"; class_has "condition"]))) JNull);
            ("status", JStr "Open");
            ("updatedAt", now w);
            ("source", JStr url) ]))
       (fun e =>
          Return (object [("name", JStr "MOUNTAIN CREEK"); ("updatedAt", now w); ("source", JStr url)]))).

(** ** Vermont *)

Definition killington (w : world) : settled CanonicalConditionRecord :=
  let url := "https://www.killington.com/api/resort-stats" in
  let fallbackUrl := "https://www.killington.com/the-mountain/snow-report" in
  async
    (tryCatch
       (data <- await (fetchJSON w url) ;;
        sr0 <- alt data "snowReport" ["snow_report"] ;;
        let sr := oror sr0 data in
        v_base <- (x <- alt sr "baseDepth" ["base_depth"; "base"] ;; parseInches x) ;;
        v_summit <- (x <- alt sr "summitDepth" ["summit_depth"; "summit"] ;; parseInches x) ;;
        v_newSnow24 <- (x <- alt sr "last24Hours" ["new_snow_24"; "snowfall24"] ;; parseInches x) ;;
        v_newSnow48 <- (x <- alt sr "last48Hours" ["new_snow_48"; "snowfall48"] ;; parseInches x) ;;
        v_trailsOpen <- (x <- alt sr "openTrails" ["trails_open"] ;; parseInt2 x) ;;
        v_trailsTotal <- (x <- alt sr "totalTrails" ["trails_total"] ;; parseInt2 x) ;;
        v_liftsOpen <- (x <- alt sr "openLifts" ["lifts_open"] ;; parseInt2 x) ;;
        v_liftsTotal <- (x <- alt sr "totalLifts" ["lifts_total"] ;; parseInt2 x) ;;
        v_surface <- alt sr "primarySurface" ["surface_conditions"] ;;
        v_season <- (x <- alt sr "seasonTotal" ["season_total"] ;; parseInches x) ;;
        v_status <- alt sr "status" ["resortStatus"] ;;
        Return (object
          [ ("name", JStr "KILLINGTON");
            ("base", v_base);
            ("summit", v_summit);
            ("newSnow24", v_newSnow24);
            ("newSnow48", v_newSnow48);
            ("trailsOpen", v_trailsOpen);
            ("trailsTotal", v_trailsTotal);
            ("liftsOpen", v_liftsOpen);
            ("liftsTotal", v_liftsTotal);
            ("surface", oror v_surface JNull);
            ("season", v_season);
            ("status", oror v_status (JStr "Open"));
            ("updatedAt", now w);
            ("source", JStr url) ]))
       (fun _ =>
          tryCatch
            (dollar <- await (fetchHTML w fallbackUrl) ;;
             v_base <- parseInches (JStr (text dollar [raw ".snow-report__base"; attr "data-value" "base"])) ;;
             v_newSnow24 <- parseInches (JStr (text dollar [attr "data-period" "24h"; raw ".snow-24"])) ;;
             v_trailsOpen <- parseInt2 (JStr (text dollar [raw ".trails-open"; attr "data-label" "Trails Open"])) ;;
             Return (object
               [ ("name", JStr "KILLINGTON");
                 ("base", v_base);
                 ("newSnow24", v_newSnow24);
                 ("trailsOpen", v_trailsOpen);
                 ("surface", oror (JStr (trim (text dollar [raw ".surface-condition"; raw ".primary-surface"]))) JNull);
                 ("status", JStr "Open");
                 ("updatedAt", now w);
                 ("source", JStr fallbackUrl) ]))
            (fun e2 =>
               Return (object [("name", JStr "KILLINGTON"); ("updatedAt", now w); ("source", JStr fallbackUrl)])))).

Definition stowe (w : world) : settled CanonicalConditionRecord :=
  let url := "https://www.stowe.com/the-mountain/mountain-report.aspx" in
  async
    (tryCatch
       (dollar <- await (fetchHTML w url) ;;
        v_base <- parseInches (JStr (text dollar [attr "data-field" "base-depth"; raw ".conditions__base"])) ;;
        v_summit <- parseInches (JStr (text dollar [attr "data-field" "summit-depth"; raw ".conditions__summit"])) ;;
        v_newSnow24 <- parseInches (JStr (text dollar [attr "data-field" "overnight-snowfall"; attr "data-hours" "24"])) ;;
        v_newSnow48 <- parseInches (JStr (text dollar [attr "data-field" "48hr-snowfall"; attr "data-hours" "48"])) ;;
        v_trailsOpen <- parseInt2 (JStr (text dollar [attr "data-field" "open-trails"; raw ".trails__open"])) ;;
        v_trailsTotal <- parseInt2 (JStr (text dollar [attr "data-field" "total-trails"; raw ".trails__total"])) ;;
        v_liftsOpen <- parseInt2 (JStr (text dollar [attr "data-field" "open-lifts"])) ;;
        v_season <- parseInches (JStr (text dollar [attr "data-field" "season-total"])) ;;
        Return (object
          [ ("name", JStr "STOWE");
            ("base", v_base);
            ("summit", v_summit);
            ("newSnow24", v_newSnow24);
            ("newSnow48", v_newSnow48);
            ("trailsOpen", v_trailsOpen);
            ("trailsTotal", v_trailsTotal);
            ("liftsOpen", v_liftsOpen);
            ("surface", oror (JStr (trim (text dollar [attr "data-field" "surface-conditions"]))) JNull);
            ("season", v_season);
            ("status", JStr "Open");
            ("updatedAt", now w);
            ("source", JStr url) ]))
       (fun e =>
          Return (object [("name", JStr "STOWE"); ("updatedAt", now w); ("source", JStr url)]))).

Definition stratton (w : world) : settled CanonicalConditionRecord :=
  let url := "https://www.stratton.com/the-mountain/mountain-report.aspx" in
  async
    (tryCatch
       (dollar <- await (fetchHTML w url) ;;
        v_base <- parseInches (JStr (text dollar [attr "data-field" "base-depth"])) ;;
        v_newSnow24 <- parseInches (JStr (text dollar [attr "data-field" "overnight-snowfall"])) ;;
        v_trailsOpen <- parseInt2 (JStr (text dollar [attr "data-field" "open-trails"])) ;;
        v_trailsTotal <- parseInt2 (JStr (text dollar [attr "data-field" "total-trails"])) ;;
        v_liftsOpen <- parseInt2 (JStr (text dollar [attr "data-field" "open-lifts"])) ;;
        Return (object
          [ ("name", JStr "STRATTON");
            ("base", v_base);
            ("newSnow24", v_newSnow24);
            ("trailsOpen", v_trailsOpen);
            ("trailsTotal", v_trailsTotal);
            ("liftsOpen", v_liftsOpen);
            ("surface", oror (JStr (trim (text dollar [attr "data-field" "surface-conditions"]))) JNull);
            ("status", JStr "Open");
            ("updatedAt", now w);
            ("source", JStr url) ]))
       (fun e =>
          Return (object [("name", JStr "STRATTON"); ("updatedAt", now w); ("source", JStr url)]))).

Definition sugarbush (w : world) : settled CanonicalConditionRecord :=
  let url := "https://www.sugarbush.com/mountain-info/mountain-report/" in
  async
    (tryCatch
       (dollar <- await (fetchHTML w url) ;;
        v_base <- parseInches (JStr (text dollar [raw ".base-depth"; class_has "base"])) ;;
        v_newSnow24 <- parseInches (JStr (text dollar [class_has "24hour"; class_has "overnight"])) ;;
        v_trailsOpen <- parseInt2 (JStr (text dollar [class_has "trails-open"])) ;;
        v_trailsTotal <- parseInt2 (JStr (text dollar [class_has "trails-total"])) ;;
        v_liftsOpen <- parseInt2 (JStr (text dollar [class_has "lifts-open"])) ;;
        Return (object
          [ ("name", JStr "SUGARBUSH");
            ("base", v_base);
            ("newSnow24", v_newSnow24);
            ("trailsOpen", v_trailsOpen);
            ("trailsTotal", v_trailsTotal);
            ("liftsOpen", v_liftsOpen);
            ("surface", oror (JStr (trim (text dollar [class_has "surface"]))) JNull);
            ("status", JStr "Open");
            ("updatedAt", now w);
            ("source", JStr url) ]))
       (fun e =>
          Return (object [("name", JStr "SUGARBUSH"); ("updatedAt", now w); ("source", JStr url)]))).

Definition pico (w : world) : settled CanonicalConditionRecord :=
  let url := "https://www.picomountain.com/the-mountain/snow-report" in
  async
    (tryCatch
       (dollar <- await (fetchHTML w url) ;;
        v_base <- parseInches (JStr (text dollar [class_has "base"])) ;;
        v_newSnow24 <- parseInches (JStr (text dollar [class_has "overnight"; class_has "24"])) ;;
        v_trailsOpen <- parseInt2 (JStr (text dollar [class_has "trails-open"])) ;;
        v_trailsTotal <- parseInt2 (JStr (text dollar [class_has "trails-total"])) ;;
        Return (object
          [ ("name", JStr "PICO MTN");
            ("base", v_base);
            ("newSnow24", v_newSnow24);
            ("trailsOpen", v_trailsOpen);
            ("trailsTotal", v_trailsTotal);
            ("surface", oror (JStr (trim (text dollar [class_has "surface"]))) JNull);
            ("status", JStr "Open");
            ("updatedAt", now w);
            ("source", JStr url) ]))
       (fun e =>
          Return (object [("name", JStr "PICO MTN"); ("updatedAt", now w); ("source", JStr url)]))).

Definition okemo (w : world) : settled CanonicalConditionRecord :=
  let url := "https://www.okemo.com/the-mountain/mountain-report.aspx" in
  async
    (tryCatch
       (dollar <- await (fetchHTML w url) ;;
        v_base <- parseInches (JStr (text dollar [attr "data-field" "base-depth"])) ;;
        v_newSnow24 <- parseInches (JStr (text dollar [attr "data-field" "overnight-snowfall"])) ;;
        v_trailsOpen <- parseInt2 (JStr (text dollar [attr "data-field" "open-trails"])) ;;
        v_trailsTotal <- parseInt2 (JStr (text dollar [attr "data-field" "total-trails"])) ;;
        Return (object
          [ ("name", JStr "OKEMO");
            ("base", v_base);
            ("newSnow24", v_newSnow24);
            ("trailsOpen", v_trailsOpen);
            ("trailsTotal", v_trailsTotal);
            ("surface", oror (JStr (trim (text dollar [attr "data-field" "surface-conditions"]))) JNull);
            ("status", JStr "Open");
            ("updatedAt", now w);
            ("source", JStr url) ]))
       (fun e =>
          Return (object [("name", JStr "OKEMO"); ("updatedAt", now w); ("source", JStr url)]))).

Definition mountSnow (w : world) : settled CanonicalConditionRecord :=
  let url := "https://www.mountsnow.com/the-mountain/mountain-report.aspx" in
  async
    (tryCatch
       (dollar <- await (fetchHTML w url) ;;
        v_base <- parseInches (JStr (text dollar [attr "data-field" "base-depth"])) ;;
        v_newSnow24 <- parseInches (JStr (text dollar [attr "data-field" "overnight-snowfall"])) ;;
        v_trailsOpen <- parseInt2 (JStr (text dollar [attr "data-field" "open-trails"])) ;;
        v_trailsTotal <- parseInt2 (JStr (text dollar [attr "data-field" "total-trails"])) ;;
        Return (object
          [ ("name", JStr "MOUNT SNOW");
            ("base", v_base);
            ("newSnow24", v_newSnow24);
            ("trailsOpen", v_trailsOpen);
            ("trailsTotal", v_trailsTotal);
            ("surface", oror (JStr (trim (text dollar [attr "data-field" "surface-conditions"]))) JNull);
            ("status", JStr "Open");
            ("updatedAt", now w);
            ("source", JStr url) ]))
       (fun e =>
          Return (object [("name", JStr "MOUNT SNOW"); ("updatedAt", now w); ("source", JStr url)]))).

(** The body of the [.each] callback of [jayPeak]: one row of the report
    table updates [tableData]. *)
Definition jayPeak_row (tableData : list (string * jsval)) (el : element)
  : list (string * jsval) :=
  let label := trim (toLowerCase (find_text el (css [raw "td:first-child"; raw ".label"]))) in
  let val := JStr (trim (find_text el (css [raw "td:last-child"; raw ".value"]))) in
  let t1 := if includes label "base" then assign "base" val tableData else tableData in
  let t2 := if includes label "24" then assign "new24" val t1 else t1 in
  let t3 := if includes label "48" then assign "new48" val t2 else t2 in
  let t4 := if includes label "season" then assign "season" val t3 else t3 in
  if includes label "open" && includes label "trail"
  then assign "trailsOpen" val t4 else t4.

Definition jayPeak (w : world) : settled CanonicalConditionRecord :=
  let url := "https://jaypeakresort.com/mountain-report" in
  async
    (tryCatch
       (dollar <- await (fetchHTML w url) ;;
        let baseText := JStr (text dollar [class_has "snow-depth"; class_has "base-depth"]) in
        let newSnowText := JStr (text dollar [class_has "new-snow"; class_has "overnight"]) in
        let seasonText := JStr (text dollar [class_has "season-total"]) in
        let tableData :=
          fold_left jayPeak_row (select dollar (css [raw "table tr"; raw ".report-row"])) [] in
        v_base <- parseInches (oror baseText (member_of tableData "base")) ;;
        v_newSnow24 <- parseInches (oror newSnowText (member_of tableData "new24")) ;;
        v_newSnow48 <- parseInches (member_of tableData "new48") ;;
        v_trailsOpen <- parseInt2 (oror (JStr (text dollar [class_has "trails-open"]))
                                        (member_of tableData "trailsOpen")) ;;
        v_trailsTotal <- parseInt2 (JStr (text dollar [class_has "trails-total"])) ;;
        v_season <- parseInches (oror seasonText (member_of tableData "season")) ;;
        Return (object
          [ ("name", JStr "JAY PEAK");
            ("base", v_base);
            ("newSnow24", v_newSnow24);
            ("newSnow48", v_newSnow48);
            ("trailsOpen", v_trailsOpen);
            ("trailsTotal", v_trailsTotal);
            ("season", v_season);
            ("surface", oror (JStr (trim (text dollar [class_has "surface"]))) JNull);
            ("status", JStr "Open");
            ("updatedAt", now w);
            ("source", JStr url) ]))
       (fun e =>
          Return (object [("name", JStr "JAY PEAK"); ("updatedAt", now w); ("source", JStr url)]))).

Definition burke (w : world) : settled CanonicalConditionRecord :=
  let url := "https://skiburke.com/mountain/conditions/" in
  async
    (tryCatch
       (dollar <- await (fetchHTML w url) ;;
        v_base <- parseInches (JStr (text dollar [class_has "base"])) ;;
        v_newSnow24 <- parseInches (JStr (text dollar [class_has "overnight"; class_has "new-snow"])) ;;
        v_trailsOpen <- parseInt2 (JStr (text dollar [class_has "open"])) ;;
        Return (object
          [ ("name", JStr "BURKE MTN");
            ("base", v_base);
            ("newSnow24", v_newSnow24);
            ("trailsOpen", v_trailsOpen);
            ("surface", oror (JStr (trim (text dollar [class_has "surface"; class_has "condition"]))) JNull);
            ("status", JStr "Open");
            ("updatedAt", now w);
            ("source", JStr url) ]))
       (fun e =>
          Return (object [("name", JStr "BURKE MTN"); ("updatedAt", now w); ("source", JStr url)]))).

Definition boltonValley (w : world) : settled CanonicalConditionRecord :=
  let url := "https://www.boltonvalley.com/conditions/" in
  async
    (tryCatch
       (dollar <- await (fetchHTML w url) ;;
        v_base <- parseInches (JStr (text dollar [class_has "base"])) ;;
        v_newSnow24 <- parseInches (JStr (text dollar [class_has "24"; class_has "overnight"])) ;;
        v_trailsOpen <- parseInt2 (JStr (text dollar [class_has "open"])) ;;
        v_season <- parseInches (JStr (text dollar [class_has "season"])) ;;
        Return (object
          [ ("name", JStr "BOLTON VALLEY");
            ("base", v_base);
            ("newSnow24", v_newSnow24);
            ("trailsOpen", v_trailsOpen);
            ("season", v_season);
            ("surface", oror (JStr (trim (text dollar [class_has "surface"]))) JNull);
            ("status", JStr "Open");
            ("updatedAt", now w);
            ("source", JStr url) ]))
       (fun e =>
          Return (object [("name", JStr "BOLTON VALLEY"); ("updatedAt", now w); ("source", JStr url)]))).

Definition magic (w : world) : settled CanonicalConditionRecord :=
  let url := "https://www.magicmtn.com/conditions/" in
  async
    (tryCatch
       (dollar <- await (fetchHTML w url) ;;
        v_base <- parseInches (JStr (text dollar [class_has "base"])) ;;
        v_newSnow24 <- parseInches (JStr (text dollar [class_has "new"; class_has "overnight"])) ;;
        v_trailsOpen <- parseInt2 (JStr (text dollar [class_has "open"])) ;;
        v_season <- parseInches (JStr (text dollar [class_has "season"])) ;;
        Return (object
          [ ("name", JStr "MAGIC MTN");
            ("base", v_base);
            ("newSnow24", v_newSnow24);
            ("trailsOpen", v_trailsOpen);
            ("season", v_season);
            ("status", JStr "Open");
            ("updatedAt", now w);
            ("source", JStr url) ]))
       (fun e =>
          Return (object [("name", JStr "MAGIC MTN"); ("updatedAt", now w); ("source", JStr url)]))).

(** ** New York *)

Definition hunter (w : world) : settled CanonicalConditionRecord :=
  let url := "https://www.huntermtn.com/the-mountain/mountain-report.aspx" in
  async
    (tryCatch
       (dollar <- await (fetchHTML w url) ;;
        v_base <- parseInches (JStr (text dollar [attr "data-field" "base-depth"])) ;;
        v_newSnow24 <- parseInches (JStr (text dollar [attr "data-field" "overnight-snowfall"])) ;;
        v_trailsOpen <- parseInt2 (JStr (text dollar [attr "data-field" "open-trails"])) ;;
        v_trailsTotal <- parseInt2 (JStr (text dollar [attr "data-field" "total-trails"])) ;;
        Return (object
          [ ("name", JStr "HUNTER MTN");
            ("base", v_base);
            ("newSnow24", v_newSnow24);
            ("trailsOpen", v_trailsOpen);
            ("trailsTotal", v_trailsTotal);
            ("surface", oror (JStr (trim (text dollar [attr "data-field" "surface-conditions"]))) JNull);
            ("status", JStr "Open");
            ("updatedAt", now w);
            ("source", JStr url) ]))
       (fun e =>
          Return (object [("name", JStr "HUNTER MTN"); ("updatedAt", now w); ("source", JStr url)]))).

Definition whiteface (w : world) : settled CanonicalConditionRecord :=
  let url := "https://www.whiteface.com/mountain-report" in
  async
    (tryCatch
       (dollar <- await (fetchHTML w url) ;;
        v_base <- parseInches (JStr (text dollar [class_has "base"])) ;;
        v_summit <- parseInches (JStr (text dollar [class_has "summit"])) ;;
        v_newSnow24 <- parseInches (JStr (text dollar [class_has "24"; class_has "overnight"])) ;;
        v_trailsOpen <- parseInt2 (JStr (text dollar [class_has "trails-open"; class_has "open-trails"])) ;;
        v_trailsTotal <- parseInt2 (JStr (text dollar [class_has "trails-total"])) ;;
        v_liftsOpen <- parseInt2 (JStr (text dollar [class_has "lifts-open"])) ;;
        Return (object
          [ ("name", JStr "WHITEFACE");
            ("base", v_base);
            ("summit", v_summit);
            ("newSnow24", v_newSnow24);
            ("trailsOpen", v_trailsOpen);
            ("trailsTotal", v_trailsTotal);
            ("liftsOpen", v_liftsOpen);
            ("surface", oror (JStr (trim (text dollar [class_has "surface"]))) JNull);
            ("status", JStr "Open");
            ("updatedAt", now w);
            ("source", JStr url) ]))
       (fun e =>
          Return (object [("name", JStr "WHITEFACE"); ("updatedAt", now w); ("source", JStr url)]))).

Definition gore (w : world) : settled CanonicalConditionRecord :=
  let url := "https://www.goremountain.com/mountain-report" in
  async
    (tryCatch
       (dollar <- await (fetchHTML w url) ;;
        v_base <- parseInches (JStr (text dollar [class_has "base"])) ;;
        v_newSnow24 <- parseInches (JStr (text dollar [class_has "24"; class_has "overnight"])) ;;
        v_trailsOpen <- parseInt2 (JStr (text dollar [class_has "trails-open"])) ;;
        v_trailsTotal <- parseInt2 (JStr (text dollar [class_has "trails-total"])) ;;
        Return (object
          [ ("name", JStr "GORE MTN");
            ("base", v_base);
            ("newSnow24", v_newSnow24);
            ("trailsOpen", v_trailsOpen);
            ("trailsTotal", v_trailsTotal);
            ("surface", oror (JStr (trim (text dollar [class_has "surface"]))) JNull);
            ("status", JStr "Open");
            ("updatedAt", now w);
            ("source", JStr url) ]))
       (fun e =>
          Return (object [("name", JStr "GORE MTN"); ("updatedAt", now w); ("source", JStr url)]))).

Definition belleayre (w : world) : settled CanonicalConditionRecord :=
  let url := "https://www.belleayre.com/mountain-report" in
  async
    (tryCatch
       (dollar <- await (fetchHTML w url) ;;
        v_base <- parseInches (JStr (text dollar [class_has "base"])) ;;
        v_newSnow24 <- parseInches (JStr (text dollar [class_has "24"; class_has "overnight"])) ;;
        v_trailsOpen <- parseInt2 (JStr (text dollar [class_has "open"])) ;;
        Return (object
          [ ("name", JStr "BELLEAYRE");
            ("base", v_base);
            ("newSnow24", v_newSnow24);
            ("trailsOpen", v_trailsOpen);
            ("surface", oror (JStr (trim (text dollar [class_has "surface"]))) JNull);
            ("status", JStr "Open");
            ("updatedAt", now w);
            ("source", JStr url) ]))
       (fun e =>
          Return (object [("name", JStr "BELLEAYRE"); ("updatedAt", now w); ("source", JStr url)]))).

Definition catamount (w : world) : settled CanonicalConditionRecord :=
  let url := "https://www.catamountski.com/mountain-report/" in
  async
    (tryCatch
       (dollar <- await (fetchHTML w url) ;;
        v_base <- parseInches (JStr (text dollar [class_has "base"])) ;;
        v_newSnow24 <- parseInches (JStr (text dollar [class_has "overnight"; class_has "new"])) ;;
        v_trailsOpen <- parseInt2 (JStr (text dollar [class_has "open"])) ;;
        Return (object
          [ ("name", JStr "CATAMOUNT");
            ("base", v_base);
            ("newSnow24", v_newSnow24);
            ("trailsOpen", v_trailsOpen);
            ("status", JStr "Open");
            ("updatedAt", now w);
            ("source", JStr url) ]))
       (fun e =>
          Return (object [("name", JStr "CATAMOUNT"); ("updatedAt", now w); ("source", JStr url)]))).

Definition greekPeak (w : world) : settled CanonicalConditionRecord :=
  let url := "https://www.greekpeak.net/mountain-report/" in
  async
    (tryCatch
       (dollar <- await (fetchHTML w url) ;;
        v_base <- parseInches (JStr (text dollar [class_has "base"])) ;;
        v_newSnow24 <- parseInches (JStr (text dollar [class_has "overnight"; class_has "new"])) ;;
        v_trailsOpen <- parseInt2 (JStr (text dollar [class_has "open"])) ;;
        Return (object
          [ ("name", JStr "GREEK PEAK");
            ("base", v_base);
            ("newSnow24", v_newSnow24);
            ("trailsOpen", v_trailsOpen);
            ("status", JStr "Open");
            ("updatedAt", now w);
            ("source", JStr url) ]))
       (fun e =>
          Return (object [("name", JStr "GREEK PEAK"); ("updatedAt", now w); ("source", JStr url)]))).

Definition westMtn (w : world) : settled CanonicalConditionRecord :=
  let url := "https://www.westmtn.net/conditions/" in
  async
    (tryCatch
       (dollar <- await (fetchHTML w url) ;;
        v_base <- parseInches (JStr (text dollar [class_has "base"])) ;;
        v_newSnow24 <- parseInches (JStr (text dollar [class_has "overnight"; class_has "new"])) ;;
        v_trailsOpen <- parseInt2 (JStr (text dollar [class_has "open"])) ;;
        Return (object
          [ ("name", JStr "WEST MTN");
            ("base", v_base);
            ("newSnow24", v_newSnow24);
            ("trailsOpen", v_trailsOpen);
            ("status", JStr "Open");
            ("updatedAt", now w);
            ("source", JStr url) ]))
       (fun e =>
          Return (object [("name", JStr "WEST MTN"); ("updatedAt", now w); ("source", JStr url)]))).

(** ** Eastern Pennsylvania *)

Definition camelback (w : world) : settled CanonicalConditionRecord :=
  let url := "https://www.camelbackresort.com/ski-snow/conditions/" in
  async
    (tryCatch
       (dollar <- await (fetchHTML w url) ;;
        v_base <- parseInches (JStr (text dollar [class_has "base"])) ;;
        v_newSnow24 <- parseInches (JStr (text dollar [class_has "24"; class_has "overnight"])) ;;
        v_trailsOpen <- parseInt2 (JStr (text dollar [class_has "trails-open"; class_has "open-trails"])) ;;
        v_trailsTotal <- parseInt2 (JStr (text dollar [class_has "trails-total"])) ;;
        Return (object
          [ ("name", JStr "CAMELBACK");
            ("base", v_base);
            ("newSnow24", v_newSnow24);
            ("trailsOpen", v_trailsOpen);
            ("trailsTotal", v_trailsTotal);
            ("surface", oror (JStr (trim (text dollar [class_has "surface"]))) JNull);
            ("status", JStr "Open");
            ("updatedAt", now w);
            ("source", JStr url) ]))
       (fun e =>
          Return (object [("name", JStr "CAMELBACK"); ("updatedAt", now w); ("source", JStr url)]))).

Definition blueMtnPA (w : world) : settled CanonicalConditionRecord :=
  let url := "https://www.skibluemt.com/mountain/conditions/" in
  async
    (tryCatch
       (dollar <- await (fetchHTML w url) ;;
        v_base <- parseInches (JStr (text dollar [class_has "base"])) ;;
        v_newSnow24 <- parseInches (JStr (text dollar [class_has "24"; class_has "overnight"])) ;;
        v_trailsOpen <- parseInt2 (JStr (text dollar [class_has "open"])) ;;
        Return (object
          [ ("name", JStr "BLUE MTN PA");
            ("base", v_base);
            ("newSnow24", v_newSnow24);
            ("trailsOpen", v_trailsOpen);
            ("surface", oror (JStr (trim (text dollar [class_has "surface"]))) JNull);
            ("status", JStr "Open");
            ("updatedAt", now w);
            ("source", JStr url) ]))
       (fun e =>
          Return (object [("name", JStr "BLUE MTN PA"); ("updatedAt", now w); ("source", JStr url)]))).

Definition shawnee (w : world) : settled CanonicalConditionRecord :=
  let url := "https://www.shawneemt.com/mountain/conditions/" in
  async
    (tryCatch
       (dollar <- await (fetchHTML w url) ;;
        v_base <- parseInches (JStr (text dollar [class_has "base"])) ;;
        v_newSnow24 <- parseInches (JStr (text dollar [class_has "overnight"; class_has "24"])) ;;
        v_trailsOpen <- parseInt2 (JStr (text dollar [class_has "open"])) ;;
        Return (object
          [ ("name", JStr "SHAWNEE MTN");
            ("base", v_base);
            ("newSnow24", v_newSnow24);
            ("trailsOpen", v_trailsOpen);
            ("status", JStr "Open");
            ("updatedAt", now w);
            ("source", JStr url) ]))
       (fun e =>
          Return (object [("name", JStr "SHAWNEE MTN"); ("updatedAt", now w); ("source", JStr url)]))).

(** ** New Hampshire & Maine *)

Definition sundayRiver (w : world) : settled CanonicalConditionRecord :=
  let url := "https://www.sundayriver.com/the-mountain/mountain-report.aspx" in
  async
    (tryCatch
       (dollar <- await (fetchHTML w url) ;;
        v_base <- parseInches (JStr (text dollar [attr "data-field" "base-depth"])) ;;
        v_summit <- parseInches (JStr (text dollar [attr "data-field" "summit-depth"])) ;;
        v_newSnow24 <- parseInches (JStr (text dollar [attr "data-field" "overnight-snowfall"])) ;;
        v_newSnow48 <- parseInches (JStr (text dollar [attr "data-field" "48hr-snowfall"])) ;;
        v_trailsOpen <- parseInt2 (JStr (text dollar [attr "data-field" "open-trails"])) ;;
        v_trailsTotal <- parseInt2 (JStr (text dollar [attr "data-field" "total-trails"])) ;;
        v_liftsOpen <- parseInt2 (JStr (text dollar [attr "data-field" "open-lifts"])) ;;
        Return (object
          [ ("name", JStr "SUNDAY RIVER");
            ("base", v_base);
            ("summit", v_summit);
            ("newSnow24", v_newSnow24);
            ("newSnow48", v_newSnow48);
            ("trailsOpen", v_trailsOpen);
            ("trailsTotal", v_trailsTotal);
            ("liftsOpen", v_liftsOpen);
            ("surface", oror (JStr (trim (text dollar [attr "data-field" "surface-conditions"]))) JNull);
            ("status", JStr "Open");
            ("updatedAt", now w);
            ("source", JStr url) ]))
       (fun e =>
          Return (object [("name", JStr "SUNDAY RIVER"); ("updatedAt", now w); ("source", JStr url)]))).

Definition sugarloaf (w : world) : settled CanonicalConditionRecord :=
  let url := "https://www.sugarloaf.com/the-mountain/mountain-report.aspx" in
  async
    (tryCatch
       (dollar <- await (fetchHTML w url) ;;
        v_base <- parseInches (JStr (text dollar [attr "data-field" "base-depth"])) ;;
        v_summit <- parseInches (JStr (text dollar [attr "data-field" "summit-depth"])) ;;
        v_newSnow24 <- parseInches (JStr (text dollar [attr "data-field" "overnight-snowfall"])) ;;
        v_trailsOpen <- parseInt2 (JStr (text dollar [attr "data-field" "open-trails"])) ;;
        v_trailsTotal <- parseInt2 (JStr (text dollar [attr "data-field" "total-trails"])) ;;
        v_season <- parseInches (JStr (text dollar [attr "data-field" "season-total"])) ;;
        Return (object
          [ ("name", JStr "SUGARLOAF");
            ("base", v_base);
            ("summit", v_summit);
            ("newSnow24", v_newSnow24);
            ("trailsOpen", v_trailsOpen);
            ("trailsTotal", v_trailsTotal);
            ("surface", oror (JStr (trim (text dollar [attr "data-field" "surface-conditions"]))) JNull);
            ("season", v_season);
            ("status", JStr "Open");
            ("updatedAt", now w);
            ("source", JStr url) ]))
       (fun e =>
          Return (object [("name", JStr "SUGARLOAF"); ("updatedAt", now w); ("source", JStr url)]))).

Definition saddleback (w : world) : settled CanonicalConditionRecord :=
  let url := "https://www.saddlebackmaine.com/conditions/" in
  async
    (tryCatch
       (dollar <- await (fetchHTML w url) ;;
        v_base <- parseInches (JStr (text dollar [class_has "base"])) ;;
        v_newSnow24 <- parseInches (JStr (text dollar [class_has "24"; class_has "overnight"])) ;;
        v_trailsOpen <- parseInt2 (JStr (text dollar [class_has "open"])) ;;
        v_season <- parseInches (JStr (text dollar [class_has "season"])) ;;
        Return (object
          [ ("name", JStr "SADDLEBACK");
            ("base", v_base);
            ("newSnow24", v_newSnow24);
            ("trailsOpen", v_trailsOpen);
            ("season", v_season);
            ("status", JStr "Open");
            ("updatedAt", now w);
            ("source", JStr url) ]))
       (fun e =>
          Return (object [("name", JStr "SADDLEBACK"); ("updatedAt", now w); ("source", JStr url)]))).

Definition loon (w : world) : settled CanonicalConditionRecord :=
  let url := "https://www.loonmtn.com/the-mountain/mountain-report.aspx" in
  async
    (tryCatch
       (dollar <- await (fetchHTML w url) ;;
        v_base <- parseInches (JStr (text dollar [attr "data-field" "base-depth"])) ;;
        v_newSnow24 <- parseInches (JStr (text dollar [attr "data-field" "overnight-snowfall"])) ;;
        v_trailsOpen <- parseInt2 (JStr (text dollar [attr "data-field" "open-trails"])) ;;
        v_trailsTotal <- parseInt2 (JStr (text dollar [attr "data-field" "total-trails"])) ;;
        Return (object
          [ ("name", JStr "LOON MTN");
            ("base", v_base);
            ("newSnow24", v_newSnow24);
            ("trailsOpen", v_trailsOpen);
            ("trailsTotal", v_trailsTotal);
            ("surface", oror (JStr (trim (text dollar [attr "data-field" "surface-conditions"]))) JNull);
            ("status", JStr "Open");
            ("updatedAt", now w);
            ("source", JStr url) ]))
       (fun e =>
          Return (object [("name", JStr "LOON MTN"); ("updatedAt", now w); ("source", JStr url)]))).

Definition attitash (w : world) : settled CanonicalConditionRecord :=
  let url := "https://www.attitash.com/the-mountain/mountain-report.aspx" in
  async
    (tryCatch
       (dollar <- await (fetchHTML w url) ;;
        v_base <- parseInches (JStr (text dollar [attr "data-field" "base-depth"])) ;;
        v_newSnow24 <- parseInches (JStr (text dollar [attr "data-field" "overnight-snowfall"])) ;;
        v_trailsOpen <- parseInt2 (JStr (text dollar [attr "data-field" "open-trails"])) ;;
        Return (object
          [ ("name", JStr "ATTITASH");
            ("base", v_base);
            ("newSnow24", v_newSnow24);
            ("trailsOpen", v_trailsOpen);
            ("surface", oror (JStr (trim (text dollar [attr "data-field" "surface-conditions"]))) JNull);
            ("status", JStr "Open");
            ("updatedAt", now w);
            ("source", JStr url) ]))
       (fun e =>
          Return (object [("name", JStr "ATTITASH"); ("updatedAt", now w); ("source", JStr url)]))).

Definition wildcat (w : world) : settled CanonicalConditionRecord :=
  let url := "https://www.skiwildcat.com/the-mountain/mountain-report.aspx" in
  async
    (tryCatch
       (dollar <- await (fetchHTML w url) ;;
        v_base <- parseInches (JStr (text dollar [attr "data-field" "base-depth"])) ;;
        v_newSnow24 <- parseInches (JStr (text dollar [attr "data-field" "overnight-snowfall"])) ;;
        v_trailsOpen <- parseInt2 (JStr (text dollar [attr "data-field" "open-trails"])) ;;
        Return (object
          [ ("name", JStr "WILDCAT");
            ("base", v_base);
            ("newSnow24", v_newSnow24);
            ("trailsOpen", v_trailsOpen);
            ("surface", oror (JStr (trim (text dollar [attr "data-field" "surface-conditions"]))) JNull);
            ("status", JStr "Open");
            ("updatedAt", now w);
            ("source", JStr url) ]))
       (fun e =>
          Return (object [("name", JStr "WILDCAT"); ("updatedAt", now w); ("source", JStr url)]))).

Definition cannon (w : world) : settled CanonicalConditionRecord :=
  let url := "https://www.cannonmt.com/mountain-report/" in
  async
    (tryCatch
       (dollar <- await (fetchHTML w url) ;;
        v_base <- parseInches (JStr (text dollar [class_has "base"])) ;;
        v_newSnow24 <- parseInches (JStr (text dollar [class_has "overnight"; class_has "24"])) ;;
        v_trailsOpen <- parseInt2 (JStr (text dollar [class_has "open"])) ;;
        v_trailsTotal <- parseInt2 (JStr (text dollar [class_has "total"])) ;;
        v_season <- parseInches (JStr (text dollar [class_has "season"])) ;;
        Return (object
          [ ("name", JStr "CANNON MTN");
            ("base", v_base);
            ("newSnow24", v_newSnow24);
            ("trailsOpen", v_trailsOpen);
            ("trailsTotal", v_trailsTotal);
            ("season", v_season);
            ("surface", oror (JStr (trim (text dollar [class_has "surface"]))) JNull);
            ("status", JStr "Open");
            ("updatedAt", now w);
            ("source", JStr url) ]))
       (fun e =>
          Return (object [("name", JStr "CANNON MTN"); ("updatedAt", now w); ("source", JStr url)]))).

Definition watervilleValley (w : world) : settled CanonicalConditionRecord :=
  let url := "https://www.waterville.com/mountain-report/" in
  async
    (tryCatch
       (dollar <- await (fetchHTML w url) ;;
        v_base <- parseInches (JStr (text dollar [class_has "base"])) ;;
        v_newSnow24 <- parseInches (JStr (text dollar [class_has "overnight"; class_has "24"])) ;;
        v_trailsOpen <- parseInt2 (JStr (text dollar [class_has "open"])) ;;
        Return (object
          [ ("name", JStr "WATERVILLE VLY");
            ("base", v_base);
            ("newSnow24", v_newSnow24);
            ("trailsOpen", v_trailsOpen);
            ("status", JStr "Open");
            ("updatedAt", now w);
            ("source", JStr url) ]))
       (fun e =>
          Return (object [("name", JStr "WATERVILLE VLY"); ("updatedAt", now w); ("source", JStr url)]))).

(** ** Canada *)

Definition tremblant (w : world) : settled CanonicalConditionRecord :=
  let url := "https://www.tremblant.ca/api/mountain-conditions" in
  let fallbackUrl := "https://www.tremblant.ca/en/ski/conditions" in
  async
    (tryCatch
       (data <- await (fetchJSON w url) ;;
        d0 <- get data "conditions" ;;
        let d := oror d0 data in
        v_base <- (c <- (x <- get d "baseDepthCm" ;; cmToIn x) ;;
                   if truthy c then Return c
                   else y <- get d "baseDepth" ;; parseInches y) ;;
        v_summit <- (x <- get d "summitDepthCm" ;; cmToIn x) ;;
        v_newSnow24 <- (c <- (x <- get d "newSnow24hCm" ;; cmToIn x) ;;
                        if truthy c then Return c
                        else y <- get d "newSnow24h" ;; parseInches y) ;;
        v_trailsOpen <- (x <- alt d "openTrails" ["openRuns"] ;; parseInt2 x) ;;
        v_trailsTotal <- (x <- alt d "totalTrails" ["totalRuns"] ;; parseInt2 x) ;;
        v_liftsOpen <- (x <- get d "openLifts" ;; parseInt2 x) ;;
        v_surface <- alt d "surfaceConditions" ["surface"] ;;
        v_season <- (c <- (x <- get d "seasonTotalCm" ;; cmToIn x) ;;
                     if truthy c then Return c
                     else y <- get d "seasonTotal" ;; parseInches y) ;;
        v_status <- get d "status" ;;
        Return (object
          [ ("name", JStr "MONT-TREMBLANT");
            ("base", v_base);
            ("summit", v_summit);
            ("newSnow24", v_newSnow24);
            ("trailsOpen", v_trailsOpen);
            ("trailsTotal", v_trailsTotal);
            ("liftsOpen", v_liftsOpen);
            ("surface", oror v_surface JNull);
            ("season", v_season);
            ("status", oror v_status (JStr "Open"));
            ("updatedAt", now w);
            ("source", JStr url) ]))
       (fun _ =>
          tryCatch
            (dollar <- await (fetchHTML w fallbackUrl) ;;
             v_base <- parseInches (JStr (text dollar [class_has "base"; class_has "neige"])) ;;
             v_newSnow24 <- parseInches (JStr (text dollar [class_has "24h"; class_has "overnight"])) ;;
             v_trailsOpen <- parseInt2 (JStr (text dollar [class_has "open"; class_has "ouvert"])) ;;
             Return (object
               [ ("name", JStr "MONT-TREMBLANT");
                 ("base", v_base);
                 ("newSnow24", v_newSnow24);
                 ("trailsOpen", v_trailsOpen);
                 ("status", JStr "Open");
                 ("updatedAt", now w);
                 ("source", JStr fallbackUrl) ]))
            (fun e2 =>
               Return (object [("name", JStr "MONT-TREMBLANT"); ("updatedAt", now w); ("source", JStr fallbackUrl)])))).

Definition leMassif (w : world) : settled CanonicalConditionRecord :=
  let url := "https://www.lemassif.com/en/mountain/conditions/" in
  async
    (tryCatch
       (dollar <- await (fetchHTML w url) ;;
        v_base <- (p <- parseInches (JStr (text dollar [class_has "base"; class_has "neige"])) ;;
                   m <- times p (JNum (double 254 (-2))) ;;
                   c <- cmToIn m ;;
                   if truthy c then Return c
                   else parseInches (JStr (text dollar [class_has "base"]))) ;;
        v_newSnow24 <- parseInches (JStr (text dollar [class_has "24"; class_has "chute"])) ;;
        v_trailsOpen <- parseInt2 (JStr (text dollar [class_has "open"; class_has "ouvert"])) ;;
        v_season <- parseInches (JStr (text dollar [class_has "season"; class_has "saison"])) ;;
        Return (object
          [ ("name", JStr "LE MASSIF");
            ("base", v_base);
            ("newSnow24", v_newSnow24);
            ("trailsOpen", v_trailsOpen);
            ("season", v_season);
            ("status", JStr "Open");
            ("updatedAt", now w);
            ("source", JStr url) ]))
       (fun e =>
          Return (object [("name", JStr "LE MASSIF"); ("updatedAt", now w); ("source", JStr url)]))).

Definition montSteAnne (w : world) : settled CanonicalConditionRecord :=
  let url := "https://www.mont-sainte-anne.com/en/ski/conditions/" in
  async
    (tryCatch
       (dollar <- await (fetchHTML w url) ;;
        v_base <- parseInches (JStr (text dollar [class_has "base"; class_has "neige"])) ;;
        v_newSnow24 <- parseInches (JStr (text dollar [class_has "24"; class_has "overnight"])) ;;
        v_trailsOpen <- parseInt2 (JStr (text dollar [class_has "open"; class_has "ouvert"])) ;;
        Return (object
          [ ("name", JStr "MONT-STE-ANNE");
            ("base", v_base);
            ("newSnow24", v_newSnow24);
            ("trailsOpen", v_trailsOpen);
            ("status", JStr "Open");
            ("updatedAt", now w);
            ("source", JStr url) ]))
       (fun e =>
          Return (object [("name", JStr "MONT-STE-ANNE"); ("updatedAt", now w); ("source", JStr url)]))).

(** ** Master scraper list *)

Definition ALL_SCRAPERS : list scraper :=
  [ fn "mountainCreek" mountainCreek;
    fn "killington" killington;
    fn "stowe" stowe;
    fn "stratton" stratton;
    fn "sugarbush" sugarbush;
    fn "pico" pico;
    fn "okemo" okemo;
    fn "mountSnow" mountSnow;
    fn "jayPeak" jayPeak;
    fn "burke" burke;
    fn "boltonValley" boltonValley;
    fn "magic" magic;
    fn "hunter" hunter;
    fn "whiteface" whiteface;
    fn "gore" gore;
    fn "belleayre" belleayre;
    fn "catamount" catamount;
    fn "greekPeak" greekPeak;
    fn "westMtn" westMtn;
    fn "camelback" camelback;
    fn "blueMtnPA" blueMtnPA;
    fn "shawnee" shawnee;
    fn "sundayRiver" sundayRiver;
    fn "sugarloaf" sugarloaf;
    fn "saddleback" saddleback;
    fn "loon" loon;
    fn "attitash" attitash;
    fn "wildcat" wildcat;
    fn "cannon" cannon;
    fn "watervilleValley" watervilleValley;
    fn "tremblant" tremblant;
    fn "leMassif" leMassif;
    fn "montSteAnne" montSteAnne ].

(** ** [runAllScrapers] *)

(** The body of the [forEach] over the settled results: [results] and
    [successCount] are the two variables it updates. *)
Definition tally (w : world) (acc : list CanonicalConditionRecord * Z)
    (entry : settled CanonicalConditionRecord * scraper)
  : list CanonicalConditionRecord * Z :=
  let '(results, successCount) := acc in
  let '(result, f) := entry in
  let fnName := fn_name f in
  match result with
  | Fulfilled data =>
      ((results ++ [data])%list,
       if present (base data) then successCount + 1 else successCount)
  | Rejected reason =>
      ((results ++ [object [("name", JStr (toUpperCase fnName)); ("updatedAt", now w)]])%list,
       successCount)
  end.

(** The aggregation over given settled results (what follows the
    [await Promise.allSettled]). *)
Definition aggregate (w : world) (settled_ : list (settled CanonicalConditionRecord))
  : AggregateSnapshot :=
  let '(results, successCount) :=
    fold_left (tally w) (combine settled_ ALL_SCRAPERS) ([], 0) in
  {| mountains := results;
     scrapedAt := toISOString w;
     successCount := successCount;
     totalCount := Z.of_nat (List.length ALL_SCRAPERS) |}.

Definition runAllScrapers (w : world) : settled AggregateSnapshot :=
  async
    (let settled_ := map (fun f => call f w) ALL_SCRAPERS in
     Return (aggregate w settled_)).

End PerResort.

(* ================================================================== *)
(** * [storage.js]: the persistence gateway *)
(* ================================================================== *)

Module Storage.

(** [setData] adds [storedAt] and writes to the selected backend; both
    backends catch their own failures and answer [false]. *)
Definition setData (w : world) (value : AggregateSnapshot) : settled bool :=
  Fulfilled (storage_write w value).

End Storage.

(* ================================================================== *)
(** * [/api/scrape]: the trigger handler *)
(* ================================================================== *)

Module Scrape.

(** [req.query?.secret]: absent, one value, or several (a repeated
    parameter). *)
Inductive query_value :=
| QAbsent
| QString (s : string)
| QArray (l : list string).

(** What the handler reads of a request: [req.headers['authorization']] and
    [req.query?.secret]. *)
Record request := {
  authorization : option string;
  query_secret : query_value
}.

(** One entry of the redacted per-mountain summary. *)
Record summary := {
  summary_name : jsval;
  summary_base : jsval;
  summary_new24 : jsval;
  summary_ok : bool
}.

(** The three JSON bodies the handler sends. *)
Inductive body :=
| Unauthorized (ok : bool) (error hint : string)
| Results (ok : bool) (scrapedAt : string) (successCount totalCount : Z)
          (saved : bool) (mountains : list summary)
| Failed (ok : bool) (error : string).

(** [res.status(code).json(body)] *)
Record reply := { status_code : Z; json : body }.

Definition summarize (m : CanonicalConditionRecord) : summary := {|
  summary_name := name m;
  summary_base := base m;
  summary_new24 := newSnow24 m;
  summary_ok := present (base m)
|}.

(** Truthiness of an environment variable: set and not empty. *)
Definition configured (v : option string) : bool :=
  match v with
  | Some s => negb (s =? "")%string
  | None => false
  end.

(** [authHeader === expected] *)
Definition header_is (authHeader : option string) (expected : string) : bool :=
  match authHeader with
  | Some h => (h =? expected)%string
  | None => false
  end.

(** [querySecret === expected] *)
Definition query_is (querySecret : query_value) (expected : string) : bool :=
  match querySecret with
  | QString q => (q =? expected)%string
  | _ => false
  end.

Section Handler.

(** The pipeline [require('../lib/scrapers')] provides. *)
Variable runAllScrapers : world -> settled AggregateSnapshot.

Definition handler (w : world) (req : request) : reply :=
  let cronSecret := CRON_SECRET w in
  let authHeader := authorization req in
  let querySecret := query_secret req in
  let validCron :=
    configured cronSecret &&
    match cronSecret with
    | Some secret => header_is authHeader ("Bearer " ++ secret)
    | None => false
    end in
  let validManual :=
    configured cronSecret &&
    match cronSecret with
    | Some secret => query_is querySecret secret
    | None => false
    end in
  let noSecret := negb (configured cronSecret) in
  if negb noSecret && negb validCron && negb validManual then
    {| status_code := 401;
       json := Unauthorized false "Unauthorized"
         "Pass ?secret=YOUR_CRON_SECRET or set CRON_SECRET env var to skip auth in dev" |}
  else
    match
      results <- await (runAllScrapers w) ;;
      saved <- await (Storage.setData w results) ;;
      Return {|
        status_code := 200;
        json := Results true (scrapedAt results) (successCount results)
                  (totalCount results) saved (map summarize (mountains results)) |}
    with
    | Return r => r
    | Throw err => {| status_code := 500; json := Failed false (message err) |}
    end.

End Handler.

End Scrape.

(* ================================================================== *)
(** * Scenarios: concrete worlds the properties are exercised on *)
(* ================================================================== *)

Module Scenario.

Definition instant : string := "2026-02-23T12:00:00.000Z".

Definition refused : settled response :=
  Rejected (Exn "FetchError" "connect ECONNREFUSED").

(** A 200 response carrying JSON. *)
Definition json_reply (v : jsval) : response := {|
  ok := true;
  http_status := 200;
  body_json := Return v;
  body_html := Throw (Error "not a document")
|}.

(** No upstream answers. *)
Definition offline : world := {|
  fetch := fun _ => refused;
  toISOString := instant;
  SNOCOUNTRY_API_KEY := None;
  CRON_SECRET := None;
  storage_write := fun _ => true
|}.

Definition vt_url : string :=
  "https://feeds.snocountry.net/conditions.json?apiKey=SnoCountry.example&states=VT".

(** Only the Vermont feed answers, with the given entries. *)
Definition vermont (entries : list jsval) : world := {|
  fetch := fun url =>
    if (url =? vt_url)%string then Fulfilled (json_reply (JArr entries)) else refused;
  toISOString := instant;
  SNOCOUNTRY_API_KEY := None;
  CRON_SECRET := None;
  storage_write := fun _ => true
|}.

(** As [offline], with a trigger secret configured and a storage backend
    that refuses every write. *)
Definition read_only : world := {|
  fetch := fun _ => refused;
  toISOString := instant;
  SNOCOUNTRY_API_KEY := None;
  CRON_SECRET := Some "s3cret";
  storage_write := fun _ => false
|}.

(** A manual call carrying the secret, and a call carrying a wrong token. *)
Definition manual_call : Scrape.request := {|
  Scrape.authorization := None;
  Scrape.query_secret := Scrape.QString "s3cret"
|}.

Definition stranger : Scrape.request := {|
  Scrape.authorization := Some "Bearer guess";
  Scrape.query_secret := Scrape.QAbsent
|}.

(** The Tremblant endpoint reports a base depth of 142 cm. *)
Definition tremblant_cm : world := {|
  fetch := fun url =>
    if (url =? "https://www.tremblant.ca/api/mountain-conditions")%string
    then Fulfilled (json_reply (JObj [("baseDepthCm", JNum (Finite 142 0))]))
    else refused;
  toISOString := instant;
  SNOCOUNTRY_API_KEY := None;
  CRON_SECRET := None;
  storage_write := fun _ => true
|}.

(** One upstream entry with the given properties. *)
Definition entry (props : list (string * jsval)) : jsval := JObj props.

Definition killington_resort : jsval :=
  entry [("resort_name", JStr "Killington Resort"); ("base_depth", JStr "58")].

Definition killington_short : jsval :=
  entry [("resort_name", JStr "Killington"); ("base_depth", JStr "61")].

End Scenario.

(* ================================================================== *)
(** * [storage.js], with the state it reads and writes *)
(* ================================================================== *)

Module Gateway.

(** What a read finds under a key of the KV store, or in the cache file:
    nothing, a JSON value, or a failure (store unreachable, file unreadable
    or not JSON). *)
Inductive slot :=
| Empty
| Holds (v : jsval)
| Unreadable (e : exn).

(** The two backends; [torn] is what a write that fails leaves behind. *)
Record backend := {
  isProduction : bool;
  kv : string -> slot;
  file : slot;
  torn : slot
}.

Definition KV_KEY : string := "conditions_v1".

(** [JSON.parse(JSON.stringify(v))]: a property whose value is [undefined]
    is left out, an [undefined] array element and a Number that is not
    finite become [null]. *)
Fixpoint jsonify (v : jsval) : jsval :=
  match v with
  | JUndefined => JNull
  | JNum NaN | JNum (Infinity _) => JNull
  | JArr items => JArr (map jsonify items)
  | JObj props =>
      JObj ((fix members (ps : list (string * jsval)) : list (string * jsval) :=
               match ps with
               | [] => []
               | (k, JUndefined) :: rest => members rest
               | (k, x) :: rest => (k, jsonify x) :: members rest
               end) props)
  | _ => v
  end.

(** A condition record as a JavaScript object. *)
Definition record_object (r : CanonicalConditionRecord) : jsval :=
  JObj [ ("name", name r); ("base", base r); ("summit", summit r);
         ("newSnow24", newSnow24 r); ("newSnow48", newSnow48 r);
         ("newSnow7d", newSnow7d r);
         ("trailsOpen", trailsOpen r); ("trailsTotal", trailsTotal r);
         ("liftsOpen", liftsOpen r); ("liftsTotal", liftsTotal r);
         ("surface", surface r); ("season", season r); ("status", status r);
         ("updatedAt", updatedAt r); ("source", source r) ].

(** [{ ...value, storedAt: new Date().toISOString() }] *)
Definition payload (w : world) (value : AggregateSnapshot) : jsval :=
  JObj [ ("mountains", JArr (map record_object (mountains value)));
         ("scrapedAt", JStr (scrapedAt value));
         ("successCount", JNum (integer (successCount value)));
         ("totalCount", JNum (integer (totalCount value)));
         ("storedAt", JStr (toISOString w)) ].

Definition read (s : slot) : completion jsval :=
  match s with
  | Empty => Return JNull
  | Holds v => Return v
  | Unreadable e => Throw e
  end.

Definition kvGet (b : backend) (key : string) : settled jsval :=
  async (tryCatch (read (kv b key)) (fun _ => Return JNull)).

Definition localGet (b : backend) : jsval :=
  match tryCatch (read (file b)) (fun _ => Return JNull) with
  | Return v => v
  | Throw _ => JNull
  end.

Definition getData (b : backend) : settled jsval :=
  async
    (if isProduction b then await (kvGet b KV_KEY)
     else Return (localGet b)).

(** The slot a write leaves: the value as JSON when the write goes through,
    [torn] otherwise. The expiry of a KV entry (36 hours) is a matter of
    time, which the model does not have: [Holds] is what a read finds while
    the entry lasts. *)
Definition written (b : backend) (through : bool) (value : jsval) : slot :=
  if through then Holds (jsonify value) else torn b.

(** [kvSet] and [localSet], with the backend they leave; [through] tells
    whether [kv.set], respectively [fs.writeFileSync], completes: they
    answer [true] then, and [false], from their [catch], otherwise. *)
Definition kvSet (b : backend) (through : bool) (key : string) (value : jsval)
  : settled bool * backend :=
  (Fulfilled through,
   {| isProduction := isProduction b;
      kv := fun k => if (k =? key)%string then written b through value else kv b k;
      file := file b;
      torn := torn b |}).

Definition localSet (b : backend) (through : bool) (value : jsval) : bool * backend :=
  (through,
   {| isProduction := isProduction b;
      kv := kv b;
      file := written b through value;
      torn := torn b |}).

(** [setData], with the backend it leaves. Whether the write goes through is
    the world's [storage_write]. *)
Definition setData (w : world) (b : backend) (value : AggregateSnapshot)
  : settled bool * backend :=
  let payload := payload w value in
  if isProduction b then kvSet b (storage_write w value) KV_KEY payload
  else
    let '(saved, b') := localSet b (storage_write w value) payload in
    (Fulfilled saved, b').

End Gateway.

(* ================================================================== *)
(** * [api/conditions.js]: the query handler *)
(* ================================================================== *)

Module Conditions.

Inductive body :=
| NoBody
| MethodNotAllowed (ok : bool) (error : string)
| Unavailable (ok : bool)          (* with a fixed [error] and [hint] text *)
| Latest (ok : bool) (scrapedAt storedAt successCount totalCount mountains : jsval)
| StorageError (ok : bool) (error detail : string).

Record reply := {
  status_code : Z;
  headers : list (string * string);
  json : body
}.

Definition cache_headers : list (string * string) :=
  [ ("Cache-Control", "public, max-age=3600, stale-while-revalidate=7200");
    ("Access-Control-Allow-Origin", "*");
    ("Content-Type", "application/json") ].

Definition handler (b : Gateway.backend) (method : string) : reply :=
  if (method =? "OPTIONS")%string then
    {| status_code := 200;
       headers := [ ("Access-Control-Allow-Origin", "*");
                    ("Access-Control-Allow-Methods", "GET, OPTIONS");
                    ("Access-Control-Allow-Headers", "Content-Type") ];
       json := NoBody |}
  else if negb (method =? "GET")%string then
    {| status_code := 405; headers := [];
       json := MethodNotAllowed false "Method not allowed" |}
  else
    match await (Gateway.getData b) with
    | Throw err =>
        {| status_code := 500; headers := [];
           json := StorageError false "Storage error" (message err) |}
    | Return data =>
        if negb (truthy data) then
          {| status_code := 503; headers := [];
             json := Unavailable false |}
        else
          match
            scrapedAt <- get data "scrapedAt" ;;
            storedAt <- get data "storedAt" ;;
            successCount <- get data "successCount" ;;
            totalCount <- get data "totalCount" ;;
            mountains <- get data "mountains" ;;
            Return (Latest true scrapedAt storedAt successCount totalCount
                      (oror mountains (JArr [])))
          with
          | Return body =>
              {| status_code := 200; headers := cache_headers; json := body |}
          | Throw err =>
              {| status_code := 500; headers := cache_headers;
                 json := StorageError false "Storage error" (message err) |}
          end
    end.

End Conditions.

(* ================================================================== *)
(** * [test-scrapers.js]: the debugging runner *)
(* ================================================================== *)

Module TestScrapers.

Definition REGION_MAP : list (string * list string) :=
  [ ("nj", ["mountain creek"]);
    ("vt", ["killington"; "stowe"; "stratton"; "sugarbush"; "pico"; "okemo";
            "mount snow"; "jay peak"; "burke"; "bolton valley"; "magic"]);
    ("ny", ["hunter"; "whiteface"; "gore"; "belleayre"; "catamount";
            "greek peak"; "west mtn"]);
    ("pa", ["camelback"; "blue mtn"; "shawnee"]);
    ("ne", ["sunday river"; "sugarloaf"; "saddleback"; "loon"; "attitash";
            "wildcat"; "cannon"; "waterville"]);
    ("ca", ["tremblant"; "le massif"; "mont-ste-anne"]) ].

(** [s.replace(/([A-Z])/g, ' $1')]: a space before every capital letter. *)
Fixpoint space_capitals (s : string) : string :=
  match s with
  | String c s' =>
      if (65 <=? code c) && (code c <=? 90)
      then String " " (String c (space_capitals s'))
      else String c (space_capitals s')
  | EmptyString => EmptyString
  end.

(** [fn.name.toLowerCase().replace(/([A-Z])/g, ' $1').toLowerCase()] *)
Definition label (fnName : string) : string :=
  toLowerCase (space_capitals (toLowerCase fnName)).

(** What [REGION_MAP[arg]] finds: a list of fragments, a member inherited
    from [Object.prototype], or nothing. *)
Inductive region :=
| Listed (fragments : list string)
| NotAList (k : string)
| Unlisted.

Fixpoint fragments_of (table : list (string * list string)) (k : string)
  : option (list string) :=
  match table with
  | (k', v) :: rest => if (k' =? k)%string then Some v else fragments_of rest k
  | [] => None
  end.

Definition regionNames (arg : string) : region :=
  match fragments_of REGION_MAP arg with
  | Some l => Listed l
  | None => if existsb (String.eqb arg) Object_prototype then NotAList arg else Unlisted
  end.

(** The callback of [ALL_SCRAPERS.filter]. *)
Definition selects (arg : string) (f : PerResort.scraper) : completion bool :=
  let name := label (PerResort.fn_name f) in
  match regionNames arg with
  | Listed fragments => Return (existsb (fun r => includes name r) fragments)
  | NotAList _ => Throw (TypeError "regionNames.some is not a function")
  | Unlisted => Return (includes name arg)
  end.

Fixpoint filterM {A} (p : A -> completion bool) (l : list A) : completion (list A) :=
  match l with
  | [] => Return []
  | x :: rest =>
      keep <- p x ;; kept <- filterM p rest ;;
      Return (if keep then x :: kept else kept)
  end.

(** [m.name.padEnd(20)] *)
Definition padEnd_of (v : jsval) : completion unit :=
  match v with
  | JStr _ => Return tt
  | JUndefined =>
      Throw (TypeError "Cannot read properties of undefined (reading 'padEnd')")
  | JNull =>
      Throw (TypeError "Cannot read properties of null (reading 'padEnd')")
  | _ => Throw (TypeError "m.name.padEnd is not a function")
  end.

(** The string conversion of [v ?? d] for a string [d]. *)
Definition shown (v : jsval) : completion unit :=
  if nullish v then Return tt else (_ <- toString v ;; Return tt).

(** The line of the summary for one mountain: printed, or the conversion
    that throws. *)
Definition summary_line (m : CanonicalConditionRecord) : completion unit :=
  _ <- padEnd_of (name m) ;;
  _ <- shown (base m) ;;
  _ <- shown (newSnow24 m) ;;
  _ <- shown (trailsOpen m) ;;
  _ <- shown (trailsTotal m) ;;
  shown (surface m).

(** What the loop prints for one scraper. *)
Inductive shown_result :=
| Result (r : CanonicalConditionRecord)
| Threw (fnName message : string).

(** How a run of the script ends. *)
Inductive outcome :=
| Summary (results : AggregateSnapshot)
| NoScrapersFound                                   (* process.exit(1) *)
| OneByOne (results : list shown_result)
| Uncaught (e : exn).                               (* main().catch(console.error) *)

Section Exports.

(** What [require('./scrapers')] binds; [ALL_SCRAPERS] is [undefined] when
    the module exports none. *)
Variable runAllScrapers : world -> settled AggregateSnapshot.
Variable ALL_SCRAPERS : option (list PerResort.scraper).

Definition matchingScrapers (arg : string) : completion (list PerResort.scraper) :=
  match ALL_SCRAPERS with
  | Some fns => filterM (selects arg) fns
  | None => Throw (TypeError "Cannot read properties of undefined (reading 'filter')")
  end.

Definition run_one (w : world) (f : PerResort.scraper) : shown_result :=
  match
    result <- await (PerResort.call f w) ;;
    _ <- toString (name result) ;;
    Return result
  with
  | Return result => Result result
  | Throw e => Threw (PerResort.fn_name f) (message e)
  end.

(** [main], given [process.argv[2]]. *)
Definition main (w : world) (argv2 : option string) : outcome :=
  let arg := option_map toLowerCase argv2 in
  if negb (truthy match arg with Some a => JStr a | None => JUndefined end) then
    match
      results <- await (runAllScrapers w) ;;
      _ <- mapM summary_line (mountains results) ;;
      Return results
    with
    | Return results => Summary results
    | Throw e => Uncaught e
    end
  else
    match matchingScrapers match arg with Some a => a | None => EmptyString end with
    | Throw e => Uncaught e
    | Return [] => NoScrapersFound
    | Return fns => OneByOne (map (run_one w) fns)
    end.

End Exports.

End TestScrapers.

(* ================================================================== *)
(** * [run-scrape.js]: the local full run *)
(* ================================================================== *)

Module RunScrape.

(** What the script prints after the separator: whether the snapshot was
    saved, the success rate, and one line (name, source) per mountain with
    no base depth; with no such mountain it prints that all scrapers
    returned data. *)
Record printed := {
  saved : bool;
  rate : Z * Z;
  need_tuning : list (string * string)
}.

Inductive outcome :=
| Printed (p : printed)
| Fatal (e : exn).                             (* process.exit(1) *)

Section Main.

Variable runAllScrapers : world -> settled AggregateSnapshot.

Definition main (w : world) : outcome :=
  match
    results <- await (runAllScrapers w) ;;
    saved <- await (Storage.setData w results) ;;
    let failed := filter (fun m => nullish (base m)) (mountains results) in
    lines <- mapM (fun m => n <- toString (name m) ;;
                            s <- toString (source m) ;;
                            Return (n, s)) failed ;;
    Return {| saved := saved;
              rate := (successCount results, totalCount results);
              need_tuning := lines |}
  with
  | Return p => Printed p
  | Throw e => Fatal e
  end.

End Main.

End RunScrape.

(* ================================================================== *)
(** * The requests of the per-resort fetch helpers *)
(* ================================================================== *)

(** [fetchPage] and [fetchJSON] build the second argument of [fetch] with
    object literals and spreads. An object is the list of its own
    properties, in insertion order. *)
Module Request.

(** [o[k] = v] on an object under construction: an existing key keeps its
    place and takes the new value, a new key goes last. *)
Fixpoint put (k : string) (v : jsval) (o : list (string * jsval))
  : list (string * jsval) :=
  match o with
  | [] => [(k, v)]
  | (k', v') :: rest =>
      if (k' =? k)%string then (k, v) :: rest else (k', v') :: put k v rest
  end.

Fixpoint indexed (i : nat) (items : list jsval) : list (string * jsval) :=
  match items with
  | [] => []
  | x :: rest => (numberToString (integer (Z.of_nat i)), x) :: indexed (S i) rest
  end.

(** The own enumerable properties [...v] copies: those of an object, the
    indices of an array or a string, none of anything else. *)
Definition entries (v : jsval) : list (string * jsval) :=
  match v with
  | JObj props => props
  | JArr items => indexed 0 items
  | JStr s => indexed 0 (chars s)
  | _ => []
  end.

(** [{ ...o, ...v }], given the properties [o] written so far. *)
Definition spread_into (o : list (string * jsval)) (v : jsval)
  : list (string * jsval) :=
  fold_left (fun acc kv => put (fst kv) (snd kv) acc) (entries v) o.

(** The headers [fetchPage] means to send by default. *)
Definition browser_headers : list (string * jsval) :=
  [ ("User-Agent", JStr "Mozilla/5.0 (Macintosh; Intel Mac OS X 10_15_7) AppleWebKit/537.36 (KHTML, like Gecko) Chrome/120.0.0.0 Safari/537.36");
    ("Accept", JStr "text/html,application/xhtml+xml,application/xml;q=0.9,*/*;q=0.8");
    ("Accept-Language", JStr "en-US,en;q=0.9");
    ("Cache-Control", JStr "no-cache") ].

Section Init.

(** [controller.signal] *)
Variable signal : jsval.

(** The second argument of [fetch] in [fetchPage], given the object
    [options]:
    [{ signal, headers: { ...defaults, ...options.headers }, ...options }]. *)
Definition fetchPage_init (options : list (string * jsval)) : list (string * jsval) :=
  spread_into
    [ ("signal", signal);
      ("headers", JObj (spread_into browser_headers (member_of options "headers"))) ]
    (JObj options).

(** The options [fetchJSON] passes to [fetchPage]:
    [{ headers: { 'Accept': 'application/json', ...options.headers }, ...options }]. *)
Definition fetchJSON_options (options : list (string * jsval)) : list (string * jsval) :=
  spread_into
    [ ("headers",
       JObj (spread_into [("Accept", JStr "application/json")]
                         (member_of options "headers"))) ]
    (JObj options).

(** What [fetchJSON(url, options)] and [fetchHTML(url)] hand to [fetch]. *)
Definition fetchJSON_init (options : list (string * jsval)) : list (string * jsval) :=
  fetchPage_init (fetchJSON_options options).

Definition fetchHTML_init : list (string * jsval) := fetchPage_init [].

End Init.

End Request.

(* ================================================================== *)
(** * More scenarios: stores, pages and feeds *)
(* ================================================================== *)

Module Cases.

(** A development store (the cache file) holding nothing yet. *)
Definition fresh : Gateway.backend := {|
  Gateway.isProduction := false;
  Gateway.kv := fun _ => Gateway.Empty;
  Gateway.file := Gateway.Empty;
  Gateway.torn := Gateway.Empty
|}.

(** A page on which every selection reads the same text. *)
Definition leaflet (t : string) : page := {|
  first_text := fun _ => t;
  select := fun _ => []
|}.

(** A 200 response carrying markup. *)
Definition html_reply (p : page) : response := {|
  ok := true;
  http_status := 200;
  body_json := Throw (Exn "SyntaxError" "Unexpected token < in JSON at position 0");
  body_html := Return p
|}.

(** Every site serves a page; no endpoint serves JSON. *)
Definition pages_only : world := {|
  fetch := fun _ => Fulfilled (html_reply (leaflet "58 in"));
  toISOString := Scenario.instant;
  SNOCOUNTRY_API_KEY := None;
  CRON_SECRET := None;
  storage_write := fun _ => true
|}.

(** The Vermont feed lists Killington Resort twice, with two depths. *)
Definition listed_twice : world :=
  Scenario.vermont
    [ Scenario.killington_resort;
      Scenario.entry [("resort_name", JStr "Killington Resort"); ("base_depth", JStr "61")] ].

(** The Vermont feed carries an entry whose name is [true]. *)
Definition named_true : world :=
  Scenario.vermont
    [ Scenario.killington_resort; Scenario.entry [("resort_name", JBool true)] ].

End Cases.

(* ================================================================== *)
(** * Vocabulary of the properties *)
(* ================================================================== *)

(** Number of records whose [base] is neither [null] nor [undefined]. *)
Definition live (ms : list CanonicalConditionRecord) : Z :=
  Z.of_nat (List.length (filter (fun m => present (base m)) ms)).

(** The two facts the snapshot's counters are expected to satisfy. *)
Definition well_counted (s : AggregateSnapshot) : Prop :=
  successCount s = live (mountains s) /\ successCount s <= totalCount s.

(** A canonical identifier: one of the values of [NAME_MAP]. *)
Definition canonical (v : jsval) : bool :=
  match v with
  | JStr s => existsb (String.eqb s) (map snd SnoCountry.NAME_MAP)
  | _ => false
  end.

(** Resolution that would not depend on letter case: a string whose
    lower-casing is that of a registered variant resolves as the variant. *)
Definition case_insensitive : Prop :=
  forall k s,
    In k (map fst SnoCountry.NAME_MAP) ->
    toLowerCase s = toLowerCase k ->
    SnoCountry.resolve (JStr s) = SnoCountry.resolve (JStr k).

(** The fields a degraded record leaves out. *)
Definition optional_fields (r : CanonicalConditionRecord) : list jsval :=
  [ base r; summit r; newSnow24 r; newSnow48 r; newSnow7d r;
    trailsOpen r; trailsTotal r; liftsOpen r; liftsTotal r;
    surface r; season r; status r ].

(** What every record a scraper returns satisfies: a canonical name, a
    timestamp, a source, and a status that is either left out or truthy. *)
Definition identified (r : CanonicalConditionRecord) : Prop :=
  canonical (name r) = true /\
  present (updatedAt r) = true /\
  present (source r) = true /\
  (status r = JUndefined \/ truthy (status r) = true).

(** The scraper fulfils whatever the world answers. *)
Definition always_fulfils (f : PerResort.scraper) : Prop :=
  forall w, exists r, PerResort.call f w = Fulfilled r /\ identified r.

(** The scraper fulfils with a record populating the given fields. *)
Definition populates (fields : list (CanonicalConditionRecord -> jsval))
    (f : PerResort.scraper) : Prop :=
  forall w, exists r,
    PerResort.call f w = Fulfilled r /\
    Forall (fun field => present (field r) = true) fields.

(** The rational [m * 10^e]. *)
Definition value (m e : Z) : Q := (inject_Z m * inject_Z 10 ^ e)%Q.

(** The finite Number [n] stands for the rational [q]. *)
Definition denotes (n : number) (q : Q) : Prop :=
  match n with
  | Finite m e => (value m e == q)%Q
  | _ => False
  end.

(** The numeric fields of a SnoCountry record: the field, the aliases it is
    read from, and the parser applied before [|| null]. *)
Definition numeric_fields
  : list ((CanonicalConditionRecord -> jsval) * (string * list string)
          * (jsval -> completion number)) :=
  [ (base,        ("base_depth", ["baseDepth"]), parseFloat);
    (summit,      ("summit_depth", ["summitDepth"]), parseFloat);
    (newSnow24,   ("fresh_snow", ["freshSnow"; "snow_last_24h"; "snowLast24Hours"]), parseFloat);
    (newSnow48,   ("snow_last_48h", ["snowLast48Hours"]), parseFloat);
    (newSnow7d,   ("snow_last_7d", ["snowLast7Days"]), parseFloat);
    (season,      ("season_total", ["seasonTotal"]), parseFloat);
    (trailsOpen,  ("open_runs", ["openRuns"; "open_trails"; "openTrails"]), fun x => parseInt x None);
    (trailsTotal, ("total_runs", ["totalRuns"; "total_trails"; "totalTrails"]), fun x => parseInt x None);
    (liftsOpen,   ("open_lifts", ["openLifts"]), fun x => parseInt x None);
    (liftsTotal,  ("total_lifts", ["totalLifts"]), fun x => parseInt x None) ].

(** A field is emitted as [null] when its parsed value is zero, and is
    never a zero. *)
Definition zero_is_null (r : jsval) (p : CanonicalConditionRecord)
    (f : (CanonicalConditionRecord -> jsval) * (string * list string)
         * (jsval -> completion number)) : Prop :=
  let '(field, (k, ks), parse) := f in
  (forall x n,
     alt r k ks = Return x -> parse x = Return n -> is_zero n = true ->
     field p = JNull) /\
  (field p = JNull \/
   exists n, field p = JNum n /\ is_zero n = false /\ is_NaN n = false).

(** ** The SnoCountry run *)

(** Two records whose names [Set.prototype.has] tells apart. *)
Definition distinct_names (p q : CanonicalConditionRecord) : Prop :=
  sameValueZero (name p) (name q) = false.

(** The record bears the name string [s]. *)
Definition named (s : string) (p : CanonicalConditionRecord) : bool :=
  sameValueZero (name p) (JStr s).

(** The records among the results of [parseRecord], in order. *)
Fixpoint accepted (parsed : list (option CanonicalConditionRecord))
  : list CanonicalConditionRecord :=
  match parsed with
  | [] => []
  | Some p :: rest => p :: accepted rest
  | None :: rest => accepted rest
  end.

(** A fetch that yields no JSON: refused, answered with a non-success
    status, or answered with a body that does not parse. *)
Definition no_json (p : settled response) : Prop :=
  match p with
  | Rejected _ => True
  | Fulfilled res => ok res = false \/ exists e, body_json res = Throw e
  end.

(** A settled feed whose value cannot be spread. *)
Definition not_iterable (p : settled jsval) : Prop :=
  exists v e, p = Fulfilled v /\ spread v = Throw e.

(** A value that is neither an array nor an object. *)
Definition scalar (v : jsval) : bool :=
  match v with
  | JArr _ | JObj _ => false
  | _ => true
  end.

(** A name field that is a string or is missing. *)
Definition name_like (o : option jsval) : bool :=
  match o with
  | None | Some JNull | Some JUndefined | Some (JStr _) => true
  | _ => false
  end.

(** An upstream entry of the expected shape: an object with scalar
    properties whose name fields, when given, are strings. *)
Definition well_formed (r : jsval) : bool :=
  match r with
  | JObj props =>
      forallb (fun kv => scalar (snd kv)) props
      && name_like (own props "resort_name")
      && name_like (own props "resortName")
  | _ => false
  end.

(** A feed that is down, or answers an array of well-formed entries. *)
Definition feed_ok (p : settled response) : Prop :=
  no_json p \/
  exists res entries,
    p = Fulfilled res /\ ok res = true /\
    body_json res = Return (JArr entries) /\
    forallb well_formed entries = true.

(** The status the SnoCountry parser derives from a parsed status code. *)
Definition status_of (n : number) : string :=
  if negb (is_NaN n) && negb (num_leb n (Finite 3 0)) then "Closed" else "Open".

(** ** The per-resort run *)

(** The names of the per-resort records, in the order of [ALL_SCRAPERS]. *)
Definition roster : list string :=
  [ "MOUNTAIN CREEK"; "KILLINGTON"; "STOWE"; "STRATTON"; "SUGARBUSH";
    "PICO MTN"; "OKEMO"; "MOUNT SNOW"; "JAY PEAK"; "BURKE MTN";
    "BOLTON VALLEY"; "MAGIC MTN"; "HUNTER MTN"; "WHITEFACE"; "GORE MTN";
    "BELLEAYRE"; "CATAMOUNT"; "GREEK PEAK"; "WEST MTN"; "CAMELBACK";
    "BLUE MTN PA"; "SHAWNEE MTN"; "SUNDAY RIVER"; "SUGARLOAF"; "SADDLEBACK";
    "LOON MTN"; "ATTITASH"; "WILDCAT"; "CANNON MTN"; "WATERVILLE VLY";
    "MONT-TREMBLANT"; "LE MASSIF"; "MONT-STE-ANNE" ].

(** A fetch that yields no page. *)
Definition no_html (p : settled response) : Prop :=
  match p with
  | Rejected _ => True
  | Fulfilled res => ok res = false \/ exists e, body_html res = Throw e
  end.

(** The record has its identity fields and nothing else. *)
Definition bare (r : CanonicalConditionRecord) : Prop :=
  Forall (eq JUndefined) (optional_fields r).

(** With no page and no JSON to be had from any URL (the fetch is refused,
    answers a non-success status, or its body does not parse), the scraper
    fulfils with the bare record. *)
Definition degrades (f : PerResort.scraper) : Prop :=
  forall w,
    (forall url, no_json (fetch w url) /\ no_html (fetch w url)) ->
    exists r,
      PerResort.call f w = Fulfilled r /\
      identified r /\
      Forall (eq JUndefined) (optional_fields r).

(** The record was built from a fetch that succeeded: the fetch of its
    [source] was answered with a success status and a body that parsed, as
    a page or as JSON. *)
Definition built_from_fetch (w : world) (r : CanonicalConditionRecord) : Prop :=
  exists url res,
    source r = JStr url /\
    fetch w url = Fulfilled res /\ ok res = true /\
    ((exists dollar, body_html res = Return dollar) \/
     (exists data, body_json res = Return data)).

(** The scraper fulfils with the bare record or with a record that has a
    status and was built from a fetch that succeeded: it sets a status on
    no other record. *)
Definition bare_or_fetched (f : PerResort.scraper) : Prop :=
  forall w r,
    PerResort.call f w = Fulfilled r ->
    bare r \/ (truthy (status r) = true /\ built_from_fetch w r).

(** The URL [fetchState] requests for a state. *)
Definition feed_url (w : world) (stateCode : string) : string :=
  SnoCountry.SNOCOUNTRY_URL ++ "?apiKey=" ++ SnoCountry.SNOCOUNTRY_KEY w
  ++ "&states=" ++ stateCode.

(** The primary source is down and the fallback page is served. *)
Definition falls_back (w : world) (url fallbackUrl : string) (dollar : page) : Prop :=
  no_json (fetch w url) /\
  exists res,
    fetch w fallbackUrl = Fulfilled res /\ ok res = true /\
    body_html res = Return dollar.

(** The label and the value the [jayPeak] table callback reads off a row. *)
Definition row_label (el : element) : string :=
  trim (toLowerCase (find_text el (css [raw "td:first-child"; raw ".label"]))).

Definition row_value (el : element) : jsval :=
  JStr (trim (find_text el (css [raw "td:last-child"; raw ".value"]))).

(** The keys of [tableData] and the test a row label passes to set them. *)
Definition table_keys : list (string * (string -> bool)) :=
  [ ("base", fun label => includes label "base");
    ("new24", fun label => includes label "24");
    ("new48", fun label => includes label "48");
    ("season", fun label => includes label "season");
    ("trailsOpen", fun label => includes label "open" && includes label "trail") ].

(** ** The parsing helpers *)

(** The characters [parseInches] keeps: digits and the dot. *)
Definition numeric_char (c : ascii) : bool := is_digit c || Ascii.eqb c ".".

(** Every character of the string passes the test. *)
Fixpoint all_chars (p : ascii -> bool) (s : string) : bool :=
  match s with
  | String c s' => p c && all_chars p s'
  | EmptyString => true
  end.

(** A Number that is not negative: finite and at least zero, or
    [+Infinity]. *)
Definition non_negative (n : number) : Prop :=
  match n with
  | Finite m _ => 0 <= m
  | Infinity negative => negative = false
  | NaN => False
  end.

(** ** Storage and the query handler *)

(** What [getData] reads: the slot of the selected backend. *)
Definition selected (b : Gateway.backend) : Gateway.slot :=
  if Gateway.isProduction b then Gateway.kv b Gateway.KV_KEY else Gateway.file b.

(** The value a field has once stored: an absent field stays absent. *)
Definition stored_field (v : jsval) : jsval :=
  match v with
  | JUndefined => JUndefined
  | _ => Gateway.jsonify v
  end.

(** The own properties a stored object keeps. *)
Definition kept (props : list (string * jsval)) : list (string * jsval) :=
  match Gateway.jsonify (JObj props) with
  | JObj ps => ps
  | _ => []
  end.

(** A base depth that JSON can carry: anything but NaN and the infinities. *)
Definition storable (v : jsval) : bool :=
  match v with
  | JNum NaN | JNum (Infinity _) => false
  | _ => true
  end.

(** The stored records whose [base] is neither [null] nor absent. *)
Definition served_live (objects : list jsval) : Z :=
  Z.of_nat (List.length
              (filter (fun o => match get o "base" with
                                | Return v => present v
                                | Throw _ => false
                                end) objects)).

(** [data.k] for a truthy [data]. *)
Definition field (data : jsval) (k : string) : jsval :=
  match get data k with
  | Return v => v
  | Throw _ => JUndefined
  end.

(** The 503 reply of the query handler. *)
Definition unavailable : Conditions.reply := {|
  Conditions.status_code := 503;
  Conditions.headers := [];
  Conditions.json := Conditions.Unavailable false
|}.

(** The fields of a record object, by key. *)
Definition record_fields : list (string * (CanonicalConditionRecord -> jsval)) :=
  [ ("name", name); ("base", base); ("summit", summit);
    ("newSnow24", newSnow24); ("newSnow48", newSnow48); ("newSnow7d", newSnow7d);
    ("trailsOpen", trailsOpen); ("trailsTotal", trailsTotal);
    ("liftsOpen", liftsOpen); ("liftsTotal", liftsTotal);
    ("surface", surface); ("season", season); ("status", status);
    ("updatedAt", updatedAt); ("source", source) ].

(** ** The trigger's summary and the command-line runners *)



(** The records a report line can be printed for. *)
Definition printable (m : CanonicalConditionRecord) : Prop :=
  (exists n, toString (name m) = Return n) /\
  (exists s, toString (source m) = Return s).

(** Number of summaries flagged [ok]. *)
Definition flagged (ms : list Scrape.summary) : Z :=
  Z.of_nat (List.length (filter Scrape.summary_ok ms)).

(* ================================================================== *)
(** * Tactics *)
(* ================================================================== *)

(** Inversion of a [bind] that returned. *)
Ltac bind_inv H :=
  match type of H with
  | bind ?m _ = Return _ =>
      let E := fresh "E" in
      destruct m eqn:E; cbn [bind] in H; [| discriminate H]
  end.

(** Runs a scraper symbolically: each awaited or parsed step either
    returns, and the body goes on, or throws, and the handler takes over. *)
Ltac run_scraper :=
  repeat match goal with
         | |- context [tryCatch (bind ?m _) _] =>
             destruct m; cbn [bind tryCatch]
         end;
  cbn [async].

Ltac identified_record :=
  unfold identified;
  repeat split;
  try reflexivity;
  first [ left; reflexivity
        | right; reflexivity
        | right; unfold oror;
          match goal with
          | |- context [truthy ?v] =>
              is_var v; let E := fresh "E" in
              destruct (truthy v) eqn:E; [exact E | reflexivity]
          end ].

Ltac scraper_fulfils :=
  unfold always_fulfils; cbn [PerResort.call]; intros w;
  match goal with |- exists r, ?f w = _ /\ _ => unfold f end;
  cbv zeta;
  run_scraper;
  (eexists; split; [reflexivity | identified_record]).

(** Runs a scraper to each of its records, given what a fulfilled
    [fetchHTML] and a fulfilled [fetchJSON] prove: a record either has its
    identity fields only, or has a status, and its source is a URL whose
    fetch was fulfilled. *)
Ltac scraper_status html_up json_up :=
  cbn [PerResort.call]; intros w r;
  match goal with |- ?f w = _ -> _ => unfold f end;
  cbv zeta;
  repeat match goal with
         | |- context [PerResort.fetchHTML w ?u] =>
             let E := fresh "E" in
             destruct (PerResort.fetchHTML w u) eqn:E; cbn [await bind tryCatch]
         | |- context [PerResort.fetchJSON w ?u] =>
             let E := fresh "E" in
             destruct (PerResort.fetchJSON w u) eqn:E; cbn [await bind tryCatch]
         end;
  run_scraper;
  intros [= <-];
  first
    [ left; solve [repeat constructor]
    | right; split;
      [ first
          [ reflexivity
          | unfold oror;
            match goal with
            | |- context [truthy ?v] =>
                is_var v; let T := fresh "T" in
                destruct (truthy v) eqn:T; [exact T | reflexivity]
            end ]
      | ];
      match goal with
      | E : PerResort.fetchHTML w ?u = Fulfilled ?d |- _ =>
          let res := fresh "res" in
          let Hf := fresh "Hf" in
          let Hok := fresh "Hok" in
          let Hb := fresh "Hb" in
          destruct (html_up w u d E) as [res [Hf [Hok Hb]]];
          exists u, res;
          (split; [reflexivity |]); (split; [exact Hf |]); (split; [exact Hok |]);
          left; exists d; exact Hb
      | E : PerResort.fetchJSON w ?u = Fulfilled ?d |- _ =>
          let res := fresh "res" in
          let Hf := fresh "Hf" in
          let Hok := fresh "Hok" in
          let Hb := fresh "Hb" in
          destruct (json_up w u d E) as [res [Hf [Hok Hb]]];
          exists u, res;
          (split; [reflexivity |]); (split; [exact Hf |]); (split; [exact Hok |]);
          right; exists d; exact Hb
      end ].

(** Case analysis on a character. *)
Ltac each_char c :=
  destruct c as [[] [] [] [] [] [] [] []].

(** Runs a scraper to each of its records and reads the name and the
    source off it. *)
Ltac scraper_named :=
  cbn [PerResort.call]; intros w;
  match goal with |- exists r, ?f w = _ /\ _ => unfold f end;
  cbv zeta;
  run_scraper;
  (eexists; split; [reflexivity | split; [reflexivity | eexists; reflexivity]]).

(** Runs a scraper none of whose fetches yields anything, given for each
    URL the rejection of [fetchHTML] and of [fetchJSON]: every guarded body
    falls through to its handler. *)
Ltac scraper_collapses html_down json_down :=
  cbn [PerResort.call];
  match goal with |- exists r, ?f ?w = _ /\ _ => unfold f end;
  cbv zeta;
  repeat match goal with
         | |- context [PerResort.fetchHTML ?w ?u] =>
             destruct (html_down u) as [? ->]
         | |- context [PerResort.fetchJSON ?w ?u] =>
             destruct (json_down u) as [? ->]
         end;
  cbn [await bind tryCatch async];
  (eexists; split; [reflexivity |]).

(** Steps over the parses of page texts, which cannot throw. *)
Ltac parse_texts inches ints :=
  repeat match goal with
         | |- context [bind (PerResort.parseInches (JStr ?s)) _] =>
             destruct (inches s) as [? ->]; cbn [bind]
         | |- context [bind (PerResort.parseInt2 (JStr ?s)) _] =>
             destruct (ints s) as [? ->]; cbn [bind]
         end.

(** Either the scraper is one of the two that relay an upstream status, or
    each of its records leaves the status out or says Open. *)
Ltac status_open :=
  first
    [ left; first [left; reflexivity | right; reflexivity]
    | right; cbn [PerResort.call]; intros w r;
      match goal with |- ?f w = _ -> _ => unfold f end;
      cbv zeta; run_scraper;
      (intros [= <-]; first [left; reflexivity | right; reflexivity]) ].

(* ================================================================== *)
(** * Properties *)
(* ================================================================== *)

(** ** Counting *)

Lemma live_app (a b : list CanonicalConditionRecord) :
  live (a ++ b) = live a + live b.
Proof.
  unfold live. rewrite filter_app, length_app. lia.
Qed.

Lemma live_single (m : CanonicalConditionRecord) :
  live [m] = if present (base m) then 1 else 0.
Proof.
  unfold live. cbn [filter]. destruct (present (base m)); reflexivity.
Qed.

Lemma live_le_length (ms : list CanonicalConditionRecord) :
  live ms <= Z.of_nat (List.length ms).
Proof.
  unfold live. apply inj_le, filter_length_le.
Qed.

(** The [forEach] of the per-resort pipeline keeps [successCount] equal to
    the number of live records pushed so far, and pushes one record per
    settled result. *)
Lemma tally_invariant (w : world) entries :
  forall results n,
    n = live results ->
    let out := fold_left (PerResort.tally w) entries (results, n) in
    snd out = live (fst out) /\
    List.length (fst out) = (List.length results + List.length entries)%nat.
Proof.
  induction entries as [| [result f] rest IH]; intros results n Hn; cbn [fold_left].
  - cbn. split; [assumption | lia].
  - destruct result as [data | reason]; cbn [PerResort.tally].
    + destruct (IH (results ++ [data])%list
                  (if present (base data) then n + 1 else n)) as [H1 H2].
      { rewrite live_app, live_single, Hn.
        destruct (present (base data)); lia. }
      split; [exact H1 |]. rewrite H2, length_app. cbn. lia.
    + match goal with
      | |- context [fold_left _ rest (?r, n)] =>
          destruct (IH r n) as [H1 H2]
      end.
      { rewrite live_app, live_single, Hn. cbn. lia. }
      split; [exact H1 |]. rewrite H2, length_app. cbn. lia.
Qed.

Lemma aggregate_counts (w : world) (l : list (settled CanonicalConditionRecord)) :
  well_counted (PerResort.aggregate w l) /\
  List.length (mountains (PerResort.aggregate w l))
  = List.length (combine l PerResort.ALL_SCRAPERS).
Proof.
  unfold PerResort.aggregate.
  pose proof (tally_invariant w (combine l PerResort.ALL_SCRAPERS) [] 0 eq_refl) as H.
  cbv zeta in H.
  destruct (fold_left (PerResort.tally w) (combine l PerResort.ALL_SCRAPERS) ([], 0))
    as [results n].
  cbn [fst snd] in H. destruct H as [H1 H2].
  unfold well_counted. cbn [mountains successCount totalCount].
  split; [split |].
  - exact H1.
  - rewrite H1. pose proof (live_le_length results) as Hle.
    rewrite H2 in Hle. cbn [List.length Nat.add] in Hle.
    pose proof (length_combine l PerResort.ALL_SCRAPERS) as Hc.
    lia.
  - rewrite H2. reflexivity.
Qed.

Lemma aggregate_totalCount (w : world) (l : list (settled CanonicalConditionRecord)) :
  totalCount (PerResort.aggregate w l) = Z.of_nat (List.length PerResort.ALL_SCRAPERS).
Proof.
  unfold PerResort.aggregate.
  destruct (fold_left (PerResort.tally w) (combine l PerResort.ALL_SCRAPERS) ([], 0)).
  reflexivity.
Qed.

Lemma SnoCountry_counts (w : world) (s : AggregateSnapshot) :
  SnoCountry.runAllScrapers w = Fulfilled s -> well_counted s.
Proof.
  unfold SnoCountry.runAllScrapers.
  destruct (SnoCountry.collect _ _) as [allResorts | e]; cbn [bind async]; [| discriminate].
  destruct (mapM _ allResorts) as [allNames | e]; cbn [bind async]; [| discriminate].
  destruct (SnoCountry.dedup w allResorts [] []) as [matched | e];
    cbn [bind async]; [| discriminate].
  intros H. injection H as <-.
  unfold well_counted. cbn [mountains successCount totalCount].
  split; [reflexivity | apply live_le_length].
Qed.

(** C1. For every completed run of either pipeline, [successCount] is the
    number of records of [mountains] whose [base] is present, and
    [successCount <= totalCount]. *)
Theorem runAllScrapers_well_counted (w : world) (s : AggregateSnapshot) :
  SnoCountry.runAllScrapers w = Fulfilled s \/
  PerResort.runAllScrapers w = Fulfilled s ->
  well_counted s.
Proof.
  intros [H | H].
  - exact (SnoCountry_counts w s H).
  - unfold PerResort.runAllScrapers in H. cbn [async] in H.
    injection H as <-. apply aggregate_counts.
Qed.

(** The run over a Vermont feed with one live and one blank entry. *)
Lemma runAllScrapers_well_counted_witness :
  exists s,
    SnoCountry.runAllScrapers
      (Scenario.vermont [Scenario.killington_resort;
                         Scenario.entry [("resort_name", JStr "Stowe")]])
    = Fulfilled s /\
    successCount s = 1 /\ totalCount s = 2 /\ well_counted s.
Proof.
  eexists. split; [vm_compute; reflexivity |].
  split; [reflexivity |]. split; [reflexivity |].
  apply (runAllScrapers_well_counted
           (Scenario.vermont [Scenario.killington_resort;
                              Scenario.entry [("resort_name", JStr "Stowe")]])).
  left. vm_compute. reflexivity.
Defined.

(** ** Names *)

(** What an accepted entry tells: the record's [name] is the entry's own
    name field, the resolver found something for it, and each numeric field
    is what its [parse(...) || null] expression evaluates to. *)
Lemma parseRecord_accepted (w : world) (r : jsval) (p : CanonicalConditionRecord) :
  SnoCountry.parseRecord w r = Return (Some p) ->
  alt r "resort_name" ["resortName"] = Return (name p) /\
  (exists m, SnoCountry.resolve (name p) = Return m /\ member_truthy m = true) /\
  SnoCountry.float_field r "base_depth" ["baseDepth"] = Return (base p) /\
  SnoCountry.float_field r "summit_depth" ["summitDepth"] = Return (summit p) /\
  SnoCountry.float_field r "fresh_snow" ["freshSnow"; "snow_last_24h"; "snowLast24Hours"]
    = Return (newSnow24 p) /\
  SnoCountry.float_field r "snow_last_48h" ["snowLast48Hours"] = Return (newSnow48 p) /\
  SnoCountry.float_field r "snow_last_7d" ["snowLast7Days"] = Return (newSnow7d p) /\
  SnoCountry.float_field r "season_total" ["seasonTotal"] = Return (season p) /\
  SnoCountry.int_field r "open_runs" ["openRuns"; "open_trails"; "openTrails"]
    = Return (trailsOpen p) /\
  SnoCountry.int_field r "total_runs" ["totalRuns"; "total_trails"; "totalTrails"]
    = Return (trailsTotal p) /\
  SnoCountry.int_field r "open_lifts" ["openLifts"] = Return (liftsOpen p) /\
  SnoCountry.int_field r "total_lifts" ["totalLifts"] = Return (liftsTotal p).
Proof.
  unfold SnoCountry.parseRecord. intros H.
  bind_inv H. bind_inv H.
  destruct (member_truthy a0) eqn:Hm; cbn [negb] in H; [| discriminate H].
  do 13 bind_inv H.
  injection H as <-. cbn.
  repeat split; try reflexivity; try assumption.
  exists a0. split; assumption.
Qed.

Lemma zero_below_three (n : number) :
  is_zero n = true -> num_leb n (Finite 3 0) = true.
Proof.
  destruct n as [| b | m e]; cbn [is_zero]; try discriminate.
  intros H. apply Z.eqb_eq in H. subst m. cbn [num_leb]. cbv zeta.
  apply Z.leb_le. rewrite Z.mul_0_l.
  apply Z.mul_nonneg_nonneg; [lia | apply Z.pow_nonneg; lia].
Qed.

(** An accepted entry always yields a named, dated and sourced record whose
    status is [Open] or [Closed]. *)
Lemma parseRecord_identity (w : world) (r : jsval) (p : CanonicalConditionRecord) :
  SnoCountry.parseRecord w r = Return (Some p) ->
  present (name p) = true /\
  (status p = JStr "Open" \/ status p = JStr "Closed") /\
  present (updatedAt p) = true /\
  source p = JStr "SnoCountry".
Proof.
  intros H.
  destruct (parseRecord_accepted w r p H) as [_ [[m [Hm Htruthy]] _]].
  split.
  - destruct (name p); try reflexivity;
      cbv in Hm; injection Hm as <-; discriminate Htruthy.
  - revert H. unfold SnoCountry.parseRecord. intros H.
    bind_inv H. bind_inv H.
    destruct (member_truthy a0); cbn [negb] in H; [| discriminate H].
    do 13 bind_inv H.
    injection H as <-. cbn.
    split; [| split; [| reflexivity]].
    + destruct (num_leb _ _); [left | right]; reflexivity.
    + unfold oror. destruct (truthy a13) eqn:Hupd; [| reflexivity].
      destruct a13; try reflexivity; discriminate Hupd.
Qed.

(** The status of an accepted entry is decided by its status code. *)
Lemma parseRecord_status (w : world) (r : jsval) (p : CanonicalConditionRecord) :
  SnoCountry.parseRecord w r = Return (Some p) ->
  exists x n,
    alt r "resort_status" ["resortStatus"] = Return x /\
    parseInt x None = Return n /\
    status p = JStr (status_of n).
Proof.
  unfold SnoCountry.parseRecord. intros H.
  bind_inv H. bind_inv H.
  destruct (negb (member_truthy a0)); [discriminate H |].
  do 10 bind_inv H.
  destruct (alt r "resort_status" ["resortStatus"]) as [x |] eqn:Hx;
    cbn [bind] in H; [| discriminate H].
  destruct (parseInt x None) as [n |] eqn:Hn; cbn [bind] in H; [| discriminate H].
  do 2 bind_inv H. injection H as <-.
  exists x, n. split; [reflexivity |]. split; [exact Hn |].
  cbn [status]. f_equal.
  unfold status_of. destruct n as [| [] | m e]; [reflexivity | reflexivity | reflexivity |].
  cbn [truthy is_NaN orb negb andb].
  destruct (is_zero (Finite m e)) eqn:Hz; cbn [negb orb].
  - rewrite (zero_below_three _ Hz). reflexivity.
  - destruct (num_leb (Finite m e) (Finite 3 0)); reflexivity.
Qed.

(** C2. The SnoCountry parser accepts the entry named [Killington Resort],
    which resolves to the canonical identifier [KILLINGTON], and the record
    it returns, like the snapshot built from it, carries the raw name. *)
Theorem parseRecord_emits_raw_name (w : world) :
  SnoCountry.resolve (JStr "Killington Resort") = Return (Own "KILLINGTON") /\
  (exists p,
     SnoCountry.parseRecord w Scenario.killington_resort = Return (Some p) /\
     name p = JStr "Killington Resort" /\
     canonical (name p) = false) /\
  (exists s,
     SnoCountry.runAllScrapers (Scenario.vermont [Scenario.killington_resort])
     = Fulfilled s /\
     map name (mountains s) = [JStr "Killington Resort"]).
Proof.
  split; [reflexivity |]. split.
  - eexists. split; [reflexivity |]. split; reflexivity.
  - eexists. split; [vm_compute; reflexivity | reflexivity].
Qed.

(** C3. Two entries of one run that both resolve to [KILLINGTON] are both
    retained: the set of seen names holds raw names. *)
Theorem runAllScrapers_keeps_both_variants :
  SnoCountry.resolve (JStr "Killington Resort") = Return (Own "KILLINGTON") /\
  SnoCountry.resolve (JStr "Killington") = Return (Own "KILLINGTON") /\
  exists s,
    SnoCountry.runAllScrapers
      (Scenario.vermont [Scenario.killington_resort; Scenario.killington_short])
    = Fulfilled s /\
    map name (mountains s) = [JStr "Killington Resort"; JStr "Killington"] /\
    totalCount s = 2.
Proof.
  split; [reflexivity |]. split; [reflexivity |].
  eexists. split; [vm_compute; reflexivity |]. split; reflexivity.
Qed.

(** ** Resolution *)

(** C5, as stated, fails: [killington] differs from the registered
    [Killington] in case only, is found under neither lookup, and its entry
    is dropped. *)
Lemma resolve_is_case_sensitive :
  ~ case_insensitive /\
  SnoCountry.resolve (JStr "Killington") = Return (Own "KILLINGTON") /\
  SnoCountry.resolve (JStr "killington") = Return Missing /\
  forall w,
    SnoCountry.parseRecord w (Scenario.entry [("resort_name", JStr "killington")])
    = Return None.
Proof.
  split.
  - intros H. specialize (H "Killington" "killington").
    assert (Hin : In "Killington" (map fst SnoCountry.NAME_MAP))
      by (cbn; tauto).
    specialize (H Hin eq_refl). vm_compute in H. discriminate H.
  - repeat split; reflexivity.
Qed.

Lemma assoc_Forall {P : string -> string -> Prop} (table : list (string * string)) :
  Forall (fun kv => P (fst kv) (snd kv)) table ->
  forall k v, assoc table k = Some v -> P k v.
Proof.
  induction 1 as [| [k' v'] rest Hkv _ IH]; intros k v; cbn [assoc].
  - discriminate.
  - destruct (String.eqb_spec k' k) as [<- | _].
    + intros [= <-]. exact Hkv.
    + apply IH.
Qed.

(** Every registered variant is free of surrounding whitespace and maps to
    a non-empty identifier. *)
Lemma NAME_MAP_keys_trimmed (k v : string) :
  assoc SnoCountry.NAME_MAP k = Some v -> trim k = k /\ v <> "".
Proof.
  apply (assoc_Forall (P := fun k v => trim k = k /\ v <> "")).
  unfold SnoCountry.NAME_MAP.
  repeat (constructor; [split; [reflexivity | discriminate] |]).
  constructor.
Qed.

Lemma Object_prototype_trimmed (k : string) :
  existsb (String.eqb k) Object_prototype = true ->
  trim k = k /\ assoc SnoCountry.NAME_MAP k = None.
Proof.
  intros H. apply existsb_exists in H. destruct H as [x [Hin Hx]].
  apply String.eqb_eq in Hx. subst x.
  cbn in Hin.
  repeat (destruct Hin as [<- | Hin]; [split; reflexivity |]).
  contradiction.
Qed.

Lemma resolve_string (s : string) :
  SnoCountry.resolve (JStr s) =
  Return (if member_truthy (lookup SnoCountry.NAME_MAP s)
          then lookup SnoCountry.NAME_MAP s
          else lookup SnoCountry.NAME_MAP (trim s)).
Proof.
  unfold SnoCountry.resolve, index. cbn [toString bind].
  destruct (member_truthy (lookup SnoCountry.NAME_MAP s)); reflexivity.
Qed.

(** C5 (amended). The resolver looks the raw string up first and the
    trimmed string second; a string that is a registered variant up to
    surrounding whitespace resolves to that variant's canonical identifier
    (letter case is significant); an entry whose name string is found under
    neither lookup is dropped; [  Killington Resort  ] resolves to
    [KILLINGTON]. *)
Theorem resolve_raw_then_trimmed :
  (forall s,
     SnoCountry.resolve (JStr s) =
     Return (if member_truthy (lookup SnoCountry.NAME_MAP s)
             then lookup SnoCountry.NAME_MAP s
             else lookup SnoCountry.NAME_MAP (trim s))) /\
  (forall s k v,
     assoc SnoCountry.NAME_MAP k = Some v ->
     trim s = k ->
     SnoCountry.resolve (JStr s) = Return (Own v)) /\
  (forall w r s,
     alt r "resort_name" ["resortName"] = Return (JStr s) ->
     lookup SnoCountry.NAME_MAP s = Missing ->
     lookup SnoCountry.NAME_MAP (trim s) = Missing ->
     SnoCountry.parseRecord w r = Return None) /\
  SnoCountry.resolve (JStr "  Killington Resort  ") = Return (Own "KILLINGTON").
Proof.
  split; [exact resolve_string |]. split; [| split].
  - intros s k v Hk Ht. rewrite resolve_string.
    destruct (NAME_MAP_keys_trimmed k v Hk) as [_ Hv].
    assert (Hown : lookup SnoCountry.NAME_MAP k = Own v)
      by (unfold lookup; rewrite Hk; reflexivity).
    unfold lookup at 1 2.
    destruct (assoc SnoCountry.NAME_MAP s) as [v' |] eqn:Hs.
    + destruct (NAME_MAP_keys_trimmed s v' Hs) as [Hts Hv'].
      assert (s = k) by congruence. subst s.
      assert (v' = v) by congruence. subst v'.
      cbn [member_truthy].
      destruct (String.eqb_spec v ""); [contradiction | reflexivity].
    + destruct (existsb (String.eqb s) Object_prototype) eqn:Hp.
      * destruct (Object_prototype_trimmed s Hp) as [Hts _].
        assert (s = k) by congruence. subst s. congruence.
      * cbn [member_truthy]. rewrite Ht, Hown. reflexivity.
  - intros w r s Hname Hraw Htrim.
    unfold SnoCountry.parseRecord. rewrite Hname. cbn [bind].
    rewrite resolve_string, Hraw, Htrim. reflexivity.
  - reflexivity.
Qed.

(** The amended C5 at [  Killington Resort  ] and at an unregistered name. *)
Lemma resolve_raw_then_trimmed_witness :
  SnoCountry.resolve (JStr "  Killington Resort  ") = Return (Own "KILLINGTON") /\
  SnoCountry.parseRecord Scenario.offline
    (Scenario.entry [("resort_name", JStr "Hidden Valley")]) = Return None.
Proof.
  destruct resolve_raw_then_trimmed as [_ [Hvariant [Hdrop _]]].
  split.
  - apply (Hvariant "  Killington Resort  " "Killington Resort" "KILLINGTON");
      reflexivity.
  - apply (Hdrop Scenario.offline _ "Hidden Valley"); reflexivity.
Defined.

(** ** The per-resort scrapers *)

Lemma scrapers_fulfil : Forall always_fulfils PerResort.ALL_SCRAPERS.
Proof.
  unfold PerResort.ALL_SCRAPERS.
  repeat (apply Forall_cons; [scraper_fulfils |]).
  apply Forall_nil.
Qed.

Lemma fetchPage_down (w : world) (url : string) (e : exn) :
  fetch w url = Rejected e -> PerResort.fetchPage w url = Rejected e.
Proof. intros H. unfold PerResort.fetchPage. rewrite H. reflexivity. Qed.

Lemma fetchPage_up (w : world) (url : string) (res : response) :
  fetch w url = Fulfilled res -> PerResort.fetchPage w url = Fulfilled res.
Proof. intros H. unfold PerResort.fetchPage. rewrite H. reflexivity. Qed.

Lemma fetchHTML_down (w : world) (url : string) :
  no_html (fetch w url) -> exists e, PerResort.fetchHTML w url = Rejected e.
Proof.
  intros H. unfold PerResort.fetchHTML.
  destruct (fetch w url) as [res | e] eqn:Hf.
  - rewrite (fetchPage_up w url res Hf). cbn [await bind].
    cbn in H. destruct H as [Hok | [e He]].
    + rewrite Hok. cbn. eauto.
    + destruct (ok res); cbn [negb]; [rewrite He |]; cbn; eauto.
  - rewrite (fetchPage_down w url e Hf). cbn. eauto.
Qed.

Lemma fetchJSON_down (w : world) (url : string) :
  no_json (fetch w url) -> exists e, PerResort.fetchJSON w url = Rejected e.
Proof.
  intros H. unfold PerResort.fetchJSON.
  destruct (fetch w url) as [res | e] eqn:Hf.
  - rewrite (fetchPage_up w url res Hf). cbn [await bind].
    cbn in H. destruct H as [Hok | [e He]].
    + rewrite Hok. cbn. eauto.
    + destruct (ok res); cbn [negb]; [rewrite He |]; cbn; eauto.
  - rewrite (fetchPage_down w url e Hf). cbn. eauto.
Qed.

Lemma scrapers_collapse (w : world) :
  (forall url, no_json (fetch w url) /\ no_html (fetch w url)) ->
  Forall (fun f => exists r, PerResort.call f w = Fulfilled r /\ bare r)
         PerResort.ALL_SCRAPERS.
Proof.
  intros Hdown.
  assert (Hhtml : forall u, exists e, PerResort.fetchHTML w u = Rejected e)
    by (intros u; apply fetchHTML_down, Hdown).
  assert (Hjson : forall u, exists e, PerResort.fetchJSON w u = Rejected e)
    by (intros u; apply fetchJSON_down, Hdown).
  unfold PerResort.ALL_SCRAPERS.
  repeat (apply Forall_cons;
          [scraper_collapses Hhtml Hjson; unfold bare; repeat constructor |]).
  apply Forall_nil.
Qed.

Lemma scrapers_degrade : Forall degrades PerResort.ALL_SCRAPERS.
Proof.
  apply Forall_forall. intros f Hin w Hdown.
  pose proof (scrapers_collapse w Hdown) as Hc.
  pose proof scrapers_fulfil as Hf.
  rewrite Forall_forall in Hc, Hf.
  destruct (Hc f Hin) as [r [Hr Hbare]].
  destruct (Hf f Hin w) as [r' [Hr' Hid]].
  rewrite Hr in Hr'. injection Hr' as <-.
  exists r. split; [exact Hr |]. split; [exact Hid | exact Hbare].
Qed.

(** A fetch helper that fulfils was answered. *)
Lemma fetchHTML_fetched (w : world) (url : string) (dollar : page) :
  PerResort.fetchHTML w url = Fulfilled dollar ->
  exists res,
    fetch w url = Fulfilled res /\ ok res = true /\ body_html res = Return dollar.
Proof.
  unfold PerResort.fetchHTML. destruct (fetch w url) as [res | e] eqn:Hf.
  - rewrite (fetchPage_up w url res Hf). cbn [await bind].
    destruct (ok res) eqn:Hok; cbn [negb]; [| discriminate].
    destruct (body_html res) as [d | e] eqn:Hb; cbn [async]; [| discriminate].
    intros [= <-]. exists res. split; [reflexivity |]. split; [exact Hok | exact Hb].
  - rewrite (fetchPage_down w url e Hf). discriminate.
Qed.

Lemma fetchJSON_fetched (w : world) (url : string) (data : jsval) :
  PerResort.fetchJSON w url = Fulfilled data ->
  exists res,
    fetch w url = Fulfilled res /\ ok res = true /\ body_json res = Return data.
Proof.
  unfold PerResort.fetchJSON. destruct (fetch w url) as [res | e] eqn:Hf.
  - rewrite (fetchPage_up w url res Hf). cbn [await bind].
    destruct (ok res) eqn:Hok; cbn [negb]; [| discriminate].
    destruct (body_json res) as [d | e] eqn:Hb; cbn [async]; [| discriminate].
    intros [= <-]. exists res. split; [reflexivity |]. split; [exact Hok | exact Hb].
  - rewrite (fetchPage_down w url e Hf). discriminate.
Qed.

Lemma scrapers_status : Forall bare_or_fetched PerResort.ALL_SCRAPERS.
Proof.
  unfold PerResort.ALL_SCRAPERS.
  repeat (apply Forall_cons;
          [unfold bare_or_fetched;
           scraper_status fetchHTML_fetched fetchJSON_fetched |]).
  apply Forall_nil.
Qed.

Lemma canonical_present (v : jsval) : canonical v = true -> present v = true.
Proof.
  destruct v; cbn; intros H; try discriminate H; reflexivity.
Qed.

(** [fetchState] never rejects, and answers the empty list when its feed
    yields no JSON. *)
Lemma fetchState_fulfils (w : world) (stateCode : string) :
  exists v,
    SnoCountry.fetchState w stateCode = Fulfilled v /\
    (no_json (fetch w (feed_url w stateCode)) -> v = JArr []).
Proof.
  unfold SnoCountry.fetchState, feed_url. cbv zeta.
  match goal with |- context [fetch w ?u] => destruct (fetch w u) as [res | e] end;
    cbn [await bind no_json]; [| eexists; split; reflexivity].
  destruct (ok res) eqn:Hok; cbn [negb].
  - destruct (body_json res) as [data | e] eqn:Hbody; cbn [bind].
    + match goal with
      | |- context [tryCatch ?m _] => destruct m; cbn [tryCatch async]
      end; (eexists; split; [reflexivity |]);
        intros [Hno | [e' He']]; discriminate.
    + eexists. split; reflexivity.
  - eexists. split; reflexivity.
Qed.

(** C4, as stated, fails: with the network down [mountainCreek] fulfils
    with a record that has no [status] at all. *)
Lemma degraded_record_has_no_status :
  ~ Forall (populates [name; status; updatedAt; source]) PerResort.ALL_SCRAPERS /\
  exists r,
    PerResort.mountainCreek Scenario.offline = Fulfilled r /\
    status r = JUndefined.
Proof.
  split.
  - intros H. apply Forall_inv in H.
    destruct (H Scenario.offline) as [r [Hr Hfields]].
    cbn in Hr. injection Hr as <-.
    apply Forall_inv_tail in Hfields. apply Forall_inv in Hfields.
    cbn in Hfields. discriminate Hfields.
  - eexists. split; reflexivity.
Qed.

(** C4 (amended). Every scraper fulfils, whatever its fetches and parses
    do, with a record whose [name], [updatedAt] and [source] are populated;
    when no URL yields a page or JSON the record has these three fields and
    no other ([status] included). Every record is either that bare record
    or has a [status] and was built from a fetch that succeeded, that of
    its [source]: a status is set on no other record. In the SnoCountry
    pipeline [fetchState] never rejects either: it answers the empty list
    when its feed yields no JSON; and every record [parseRecord] returns
    has [name], [status] ([Open] unless the status code exceeds 3),
    [updatedAt] and [source] populated. *)
Theorem scrapers_never_raise :
  Forall (populates [name; updatedAt; source]) PerResort.ALL_SCRAPERS /\
  Forall degrades PerResort.ALL_SCRAPERS /\
  Forall bare_or_fetched PerResort.ALL_SCRAPERS /\
  (forall w stateCode, exists v,
     SnoCountry.fetchState w stateCode = Fulfilled v /\
     (no_json (fetch w (feed_url w stateCode)) -> v = JArr [])) /\
  (forall w r p,
     SnoCountry.parseRecord w r = Return (Some p) ->
     present (name p) = true /\
     (exists x n,
        alt r "resort_status" ["resortStatus"] = Return x /\
        parseInt x None = Return n /\
        status p = JStr (status_of n)) /\
     present (updatedAt p) = true /\
     source p = JStr "SnoCountry").
Proof.
  split; [| split; [exact scrapers_degrade |
                    split; [exact scrapers_status |
                            split; [exact fetchState_fulfils |]]]].
  - eapply Forall_impl; [| exact scrapers_fulfil].
    intros f Hf w. destruct (Hf w) as [r [Hr [Hname [Hupd [Hsrc _]]]]].
    exists r. split; [exact Hr |].
    repeat constructor; auto using canonical_present.
  - intros w r p H.
    destruct (parseRecord_identity w r p H) as [Hname [_ [Hupd Hsrc]]].
    split; [exact Hname |]. split; [exact (parseRecord_status w r p H) |].
    split; [exact Hupd | exact Hsrc].
Qed.

(** The amended C4 at [mountainCreek] with the network down. *)
Lemma scrapers_never_raise_witness :
  exists r,
    PerResort.mountainCreek Scenario.offline = Fulfilled r /\
    name r = JStr "MOUNTAIN CREEK" /\
    Forall (eq JUndefined) (optional_fields r).
Proof.
  destruct scrapers_never_raise as [_ [Hdegrade _]].
  apply Forall_inv in Hdegrade.
  destruct (Hdegrade Scenario.offline) as [r [Hr [_ Hbare]]].
  - intros url. split; exact I.
  - exists r. split; [exact Hr |]. split; [| exact Hbare].
    cbn in Hr. injection Hr as <-. reflexivity.
Defined.

(** C9. Each of the 33 scrapers fulfils in every world, so no settled result
    is rejected, and the snapshot has one record per scraper, as many as
    [totalCount]; the branch for a rejected result would push a record named
    by the upper-cased function name, with neither status nor source. *)
Theorem runAllScrapers_one_record_per_scraper (w : world) :
  List.length PerResort.ALL_SCRAPERS = 33%nat /\
  Forall (fun result => exists r, result = Fulfilled r)
         (map (fun f => PerResort.call f w) PerResort.ALL_SCRAPERS) /\
  (exists s,
     PerResort.runAllScrapers w = Fulfilled s /\
     List.length (mountains s) = List.length PerResort.ALL_SCRAPERS /\
     totalCount s = Z.of_nat (List.length (mountains s))) /\
  (forall results n reason f,
     exists placeholder,
       PerResort.tally w (results, n) (Rejected reason, f)
       = ((results ++ [placeholder])%list, n) /\
       name placeholder = JStr (toUpperCase (PerResort.fn_name f)) /\
       status placeholder = JUndefined /\
       source placeholder = JUndefined).
Proof.
  split; [reflexivity |]. split; [| split].
  - apply Forall_map. eapply Forall_impl; [| exact scrapers_fulfil].
    intros f Hf. destruct (Hf w) as [r [Hr _]]. exists r. exact Hr.
  - unfold PerResort.runAllScrapers. cbn [async].
    eexists. split; [reflexivity |].
    destruct (aggregate_counts w (map (fun f => PerResort.call f w) PerResort.ALL_SCRAPERS))
      as [_ Hlen].
    rewrite aggregate_totalCount, Hlen, length_combine, length_map, Nat.min_id.
    split; reflexivity.
  - intros results n reason f. eexists. split; [reflexivity |].
    repeat split; reflexivity.
Qed.

(** ** The trigger handler *)

Section Trigger.

Variable run : world -> settled AggregateSnapshot.

(** Past the guard the handler answers 200 or 500. *)
Ltac passes :=
  match goal with
  | |- context [await ?p] => destruct p; cbn; discriminate
  end.

(** The handler answers 401 exactly when its guard holds, and 200 or 500
    otherwise. *)
Lemma handler_status (w : world) (req : Scrape.request) :
  (Scrape.status_code (Scrape.handler run w req) = 401 /\
   exists secret,
     CRON_SECRET w = Some secret /\ secret <> "" /\
     Scrape.header_is (Scrape.authorization req) ("Bearer " ++ secret) = false /\
     Scrape.query_is (Scrape.query_secret req) secret = false)
  \/
  (Scrape.status_code (Scrape.handler run w req) <> 401 /\
   (Scrape.configured (CRON_SECRET w) = false \/
    exists secret,
      CRON_SECRET w = Some secret /\
      (Scrape.header_is (Scrape.authorization req) ("Bearer " ++ secret) = true \/
       Scrape.query_is (Scrape.query_secret req) secret = true))).
Proof.
  unfold Scrape.handler.
  destruct (CRON_SECRET w) as [secret |] eqn:Hsecret.
  - cbn [Scrape.configured].
    destruct (String.eqb_spec secret "") as [Hempty | Hset]; cbn [negb andb].
    + right. split; [passes | left; reflexivity].
    + destruct (Scrape.header_is (Scrape.authorization req) ("Bearer " ++ secret))
        eqn:Hh; cbn [negb andb].
      * right. split; [passes |].
        right. exists secret. split; [reflexivity | left; exact Hh].
      * destruct (Scrape.query_is (Scrape.query_secret req) secret) eqn:Hq;
          cbn [negb andb].
        -- right. split; [passes |].
           right. exists secret. split; [reflexivity | right; exact Hq].
        -- left. split; [reflexivity |].
           exists secret. repeat split; assumption.
  - cbn [Scrape.configured negb andb].
    right. split; [passes | left; reflexivity].
Qed.

Lemma header_is_false (h : option string) (expected : string) :
  Scrape.header_is h expected = false <-> h <> Some expected.
Proof.
  destruct h as [h |]; cbn.
  - destruct (String.eqb_spec h expected) as [-> | Hne]; split; intros H;
      congruence.
  - split; [discriminate | reflexivity].
Qed.

Lemma query_is_false (q : Scrape.query_value) (expected : string) :
  Scrape.query_is q expected = false <-> q <> Scrape.QString expected.
Proof.
  destruct q as [| s | l]; cbn.
  - split; [discriminate | reflexivity].
  - destruct (String.eqb_spec s expected) as [-> | Hne]; split; intros H;
      congruence.
  - split; [discriminate | reflexivity].
Qed.

(** C7. The handler answers 401 if and only if a secret is configured
    ([CRON_SECRET] set and not empty), the [Authorization] header is not
    [Bearer <secret>] and the [secret] query parameter is not the secret;
    with no secret configured no request is answered 401. *)
Theorem handler_unauthorized_iff (w : world) (req : Scrape.request) :
  (Scrape.status_code (Scrape.handler run w req) = 401 <->
   exists secret,
     CRON_SECRET w = Some secret /\ secret <> "" /\
     Scrape.authorization req <> Some ("Bearer " ++ secret) /\
     Scrape.query_secret req <> Scrape.QString secret) /\
  (Scrape.configured (CRON_SECRET w) = false ->
   Scrape.status_code (Scrape.handler run w req) <> 401).
Proof.
  destruct (handler_status w req)
    as [[H401 [secret [Hs [Hset [Hh Hq]]]]] | [Hnot Hwhy]].
  - split.
    + split; [intros _ | intros _; exact H401].
      exists secret. rewrite <- header_is_false, <- query_is_false. auto.
    + rewrite Hs. cbn. destruct (String.eqb_spec secret ""); [contradiction | discriminate].
  - split; [| intros _; exact Hnot].
    split; [intros H; contradiction |].
    intros [secret [Hs [Hset [Hh Hq]]]].
    apply header_is_false in Hh. apply query_is_false in Hq.
    destruct Hwhy as [Hoff | [secret' [Hs' Hvalid]]].
    + rewrite Hs in Hoff. cbn in Hoff.
      destruct (String.eqb_spec secret ""); [contradiction | discriminate].
    + assert (secret' = secret) by congruence. subst secret'.
      destruct Hvalid; congruence.
Qed.

(** C6. When the request is let through, the run completes and the write
    fails ([setData] answers [false]), the handler answers 200 with
    [ok: true], [saved: false] and the counters of the run. *)
Theorem handler_reports_failed_write
    (w : world) (req : Scrape.request) (results : AggregateSnapshot) :
  Scrape.status_code (Scrape.handler run w req) <> 401 ->
  run w = Fulfilled results ->
  Storage.setData w results = Fulfilled false ->
  Scrape.handler run w req =
  {| Scrape.status_code := 200;
     Scrape.json :=
       Scrape.Results true (scrapedAt results) (successCount results)
         (totalCount results) false
         (map Scrape.summarize (mountains results)) |}.
Proof.
  intros Hpass Hrun Hsave. revert Hpass.
  unfold Scrape.handler.
  match goal with
  | |- context [if ?g then _ else _] => destruct g
  end.
  - cbn. intros H. contradiction H. reflexivity.
  - intros _. rewrite Hrun. cbn [await bind]. rewrite Hsave. reflexivity.
Qed.

End Trigger.

(** The run with the network down, the write refused, and the secret given
    in the query. *)
Lemma handler_reports_failed_write_witness :
  exists results,
    PerResort.runAllScrapers Scenario.read_only = Fulfilled results /\
    successCount results = 0 /\ totalCount results = 33 /\
    Scrape.handler PerResort.runAllScrapers Scenario.read_only Scenario.manual_call =
    {| Scrape.status_code := 200;
       Scrape.json :=
         Scrape.Results true (scrapedAt results) (successCount results)
           (totalCount results) false
           (map Scrape.summarize (mountains results)) |}.
Proof.
  eexists. split; [reflexivity |].
  split; [vm_compute; reflexivity |]. split; [vm_compute; reflexivity |].
  apply (handler_reports_failed_write PerResort.runAllScrapers
           Scenario.read_only Scenario.manual_call).
  - vm_compute. discriminate.
  - reflexivity.
  - reflexivity.
Defined.

(** A call with a wrong bearer token and no query secret is answered 401. *)
Lemma handler_unauthorized_iff_witness :
  Scrape.status_code
    (Scrape.handler PerResort.runAllScrapers Scenario.read_only Scenario.stranger)
  = 401.
Proof.
  apply (proj2 (proj1 (handler_unauthorized_iff PerResort.runAllScrapers
                         Scenario.read_only Scenario.stranger))).
  exists "s3cret". repeat split; discriminate.
Defined.

(** ** Unit conversion *)

(** *** Rounding to the nearest integer *)

Lemma rne_near (p q : Z) : 0 < q -> 2 * Z.abs (q * rne p q - p) <= q.
Proof.
  intros Hq. unfold rne.
  pose proof (Z.div_mod p q ltac:(lia)) as Hdm.
  pose proof (Z.mod_pos_bound p q Hq) as Hr.
  destruct (Z.ltb_spec (2 * (p mod q)) q); [lia |].
  destruct (Z.ltb_spec q (2 * (p mod q))); [lia |].
  destruct (Z.even (p / q)); lia.
Qed.

Lemma rne_nonneg (p q : Z) : 0 <= p -> 0 < q -> 0 <= rne p q.
Proof.
  intros Hp Hq. unfold rne.
  pose proof (Z.div_pos p q Hp Hq).
  destruct (_ <? _); [lia |]. destruct (_ <? _); [lia |]. destruct (Z.even _); lia.
Qed.

Lemma rne_le (p q k : Z) : 0 < q -> p <= q * k -> rne p q <= k.
Proof.
  intros Hq Hp. pose proof (rne_near p q Hq). nia.
Qed.

Lemma rne_exact (k q : Z) : 0 < q -> rne (k * q) q = k.
Proof.
  intros Hq. unfold rne. rewrite Z.div_mul, Z.mod_mul by lia.
  destruct (Z.ltb_spec (2 * 0) q); [reflexivity | lia].
Qed.

Lemma ilog2_lower (p q : Z) :
  0 < p -> 0 < q ->
  q * 2 ^ Z.max 0 (ilog2 p q) <= p * 2 ^ Z.max 0 (- ilog2 p q).
Proof.
  intros Hp Hq. unfold ilog2.
  set (g := Z.log2 p - Z.log2 q).
  destruct (Z.leb_spec (q * 2 ^ Z.max 0 g) (p * 2 ^ Z.max 0 (- g))) as [H | _];
    [exact H |].
  pose proof (Z.log2_spec p Hp) as [Hp1 _].
  pose proof (Z.log2_spec q Hq) as [_ Hq2].
  pose proof (Z.log2_nonneg p). pose proof (Z.log2_nonneg q).
  destruct (Z.le_gt_cases 1 g) as [Hg | Hg].
  - rewrite (Z.max_r 0 (g - 1)), (Z.max_l 0 (- (g - 1))) by lia.
    rewrite Z.pow_0_r, Z.mul_1_r.
    assert (Hlt : q * 2 ^ (g - 1) < 2 ^ (Z.succ (Z.log2 q)) * 2 ^ (g - 1)).
    { apply Z.mul_lt_mono_pos_r; [apply Z.pow_pos_nonneg; lia | exact Hq2]. }
    rewrite <- Z.pow_add_r in Hlt by lia.
    replace (Z.succ (Z.log2 q) + (g - 1)) with (Z.log2 p) in Hlt by (unfold g; lia).
    lia.
  - rewrite (Z.max_l 0 (g - 1)), (Z.max_r 0 (- (g - 1))) by lia.
    rewrite Z.pow_0_r, Z.mul_1_r.
    assert (Hle : 2 ^ Z.log2 p * 2 ^ (- (g - 1)) <= p * 2 ^ (- (g - 1))).
    { apply Z.mul_le_mono_nonneg_r; [apply Z.pow_nonneg; lia | exact Hp1]. }
    rewrite <- Z.pow_add_r in Hle by lia.
    replace (Z.log2 p + - (g - 1)) with (Z.succ (Z.log2 q)) in Hle by (unfold g; lia).
    lia.
Qed.

(** The significand and the exponent of the nearest double, for a value of
    at most [2^k]. *)
Lemma nearest_spec (p q k : Z) :
  0 < p -> 0 < q -> 0 <= k -> p <= q * 2 ^ k ->
  let M := fst (nearest p q) in
  let E := snd (nearest p q) in
  -1074 <= E <= k - 52 /\
  0 <= M <= 2 ^ (k - E) /\
  2 * Z.abs (q * 2 ^ Z.max 0 E * M - p * 2 ^ Z.max 0 (- E)) <= q * 2 ^ Z.max 0 E.
Proof.
  intros Hp Hq Hk Hpk. unfold nearest. cbn [fst snd].
  set (g := ilog2 p q).
  assert (Hg : g <= k).
  { destruct (Z.le_gt_cases g k) as [H | H]; [exact H | exfalso].
    pose proof (ilog2_lower p q Hp Hq) as Hl. fold g in Hl.
    rewrite (Z.max_r 0 g), (Z.max_l 0 (- g)), Z.pow_0_r, Z.mul_1_r in Hl by lia.
    assert (2 ^ k < 2 ^ g) by (apply Z.pow_lt_mono_r; lia).
    nia. }
  set (E := Z.max (g - 52) (-1074)).
  assert (HE : -1074 <= E <= k - 52) by (unfold E; lia).
  assert (Hpos : 0 < q * 2 ^ Z.max 0 E).
  { apply Z.mul_pos_pos; [exact Hq | apply Z.pow_pos_nonneg; lia]. }
  split; [exact HE |]. split; [split |].
  - apply rne_nonneg; [| exact Hpos].
    apply Z.mul_nonneg_nonneg; [lia | apply Z.pow_nonneg; lia].
  - apply rne_le; [exact Hpos |].
    destruct (Z.le_gt_cases 0 E) as [H0 | H0].
    + rewrite (Z.max_r 0 E), (Z.max_l 0 (- E)), Z.pow_0_r, Z.mul_1_r by lia.
      rewrite <- Z.mul_assoc, <- Z.pow_add_r by lia.
      replace (E + (k - E)) with k by lia. exact Hpk.
    + rewrite (Z.max_l 0 E), (Z.max_r 0 (- E)), Z.pow_0_r, Z.mul_1_r by lia.
      replace (k - E) with (k + - E) by lia. rewrite Z.pow_add_r by lia.
      rewrite Z.mul_assoc. apply Z.mul_le_mono_nonneg_r; [apply Z.pow_nonneg; lia | exact Hpk].
  - apply rne_near. exact Hpos.
Qed.

(** *** Finite Numbers as rationals *)

Lemma ten_nonzero : ~ (inject_Z 10 == 0)%Q.
Proof. discriminate. Qed.

Lemma value_shift (m e : Z) : (value (10 * m) e == value m (e + 1))%Q.
Proof.
  unfold value. rewrite inject_Z_mult, Qpower_plus by exact ten_nonzero.
  change (inject_Z 10 ^ 1)%Q with (inject_Z 10). ring.
Qed.

Lemma strip_zeros_value (fuel : nat) :
  forall m e,
    (value (fst (strip_zeros fuel m e)) (snd (strip_zeros fuel m e)) == value m e)%Q.
Proof.
  induction fuel as [| fuel IH]; intros m e; cbn [strip_zeros].
  - reflexivity.
  - destruct (Z.eqb_spec (Z.rem m 10) 0) as [Hrem | _]; [| reflexivity].
    rewrite IH, <- value_shift.
    pose proof (Z.quot_rem' m 10) as Hm. rewrite Hrem, Z.add_0_r in Hm.
    rewrite <- Hm. reflexivity.
Qed.

Lemma decimal_denotes (m e : Z) : denotes (decimal m e) (value m e).
Proof.
  unfold decimal.
  destruct (Z.eqb_spec m 0) as [-> | _].
  - cbn. unfold value. ring.
  - pose proof (strip_zeros_value (Z.to_nat (Z.log2 (Z.abs m))) m e) as H.
    destruct (strip_zeros _ m e) as [m' e']. exact H.
Qed.

Lemma integer_denotes (z : Z) : denotes (integer z) (inject_Z z).
Proof.
  pose proof (decimal_denotes z 0) as H. unfold integer.
  destruct (decimal z 0); try exact H.
  cbn in *. rewrite H. unfold value. cbn. ring.
Qed.

(** Powers of ten, in [Z] and in [Q]. *)
Lemma pow10_Q (a : Z) : 0 <= a -> (inject_Z (10 ^ a) == inject_Z 10 ^ a)%Q.
Proof. apply Zpower_Qpower. Qed.

Lemma pow_pos_Q (b a : Z) : 0 < b -> (0 < inject_Z (b ^ a))%Q \/ a < 0.
Proof.
  intros Hb. destruct (Z.le_gt_cases 0 a) as [Ha | Ha]; [left | right; exact Ha].
  change 0%Q with (inject_Z 0). rewrite <- Zlt_Qlt. apply Z.pow_pos_nonneg; assumption.
Qed.

(** A finite Number is a decimal fraction. *)
Lemma value_fraction (m e : Z) :
  (value m e * inject_Z (10 ^ Z.max 0 (- e)) == inject_Z (m * 10 ^ Z.max 0 e))%Q.
Proof.
  unfold value. rewrite inject_Z_mult, !pow10_Q by lia.
  destruct (Z.le_gt_cases 0 e) as [He | He].
  - rewrite (Z.max_l 0 (- e)), (Z.max_r 0 e) by lia.
    change (inject_Z 10 ^ 0)%Q with 1%Q. ring.
  - rewrite (Z.max_r 0 (- e)), (Z.max_l 0 e) by lia.
    change (inject_Z 10 ^ 0)%Q with 1%Q.
    rewrite <- Qmult_assoc, <- Qpower_plus by exact ten_nonzero.
    replace (e + - e) with 0 by lia. change (inject_Z 10 ^ 0)%Q with 1%Q. ring.
Qed.

(** The value of [M * 2^E]. *)
Lemma dyadic_denotes (M E : Z) :
  exists m e,
    dyadic M E = Finite m e /\
    (value m e * inject_Z (2 ^ Z.max 0 (- E)) == inject_Z (M * 2 ^ Z.max 0 E))%Q.
Proof.
  unfold dyadic. destruct (Z.leb_spec 0 E) as [HE | HE].
  - pose proof (decimal_denotes (M * 2 ^ E) 0) as H.
    destruct (decimal (M * 2 ^ E) 0) as [| b | m e]; try contradiction.
    exists m, e. split; [reflexivity |]. cbn [denotes] in H. rewrite H.
    rewrite (Z.max_l 0 (- E)), (Z.max_r 0 E) by lia.
    unfold value. change (inject_Z 10 ^ 0)%Q with 1%Q.
    change (inject_Z (2 ^ 0)) with 1%Q. ring.
  - pose proof (decimal_denotes (M * 5 ^ (- E)) E) as H.
    destruct (decimal (M * 5 ^ (- E)) E) as [| b | m e]; try contradiction.
    exists m, e. split; [reflexivity |]. cbn [denotes] in H. rewrite H.
    rewrite (Z.max_r 0 (- E)), (Z.max_l 0 E) by lia.
    rewrite Z.pow_0_r, Z.mul_1_r.
    pose proof (value_fraction (M * 5 ^ (- E)) E) as Hf.
    rewrite (Z.max_r 0 (- E)), (Z.max_l 0 E), Z.pow_0_r, Z.mul_1_r in Hf by lia.
    assert (H10 : 10 ^ (- E) = 5 ^ (- E) * 2 ^ (- E)).
    { change 10 with (5 * 2). apply Z.pow_mul_l. }
    rewrite H10, !inject_Z_mult in Hf.
    assert (H5 : (0 < inject_Z (5 ^ (- E)))%Q).
    { destruct (pow_pos_Q 5 (- E)); [lia | assumption | lia]. }
    set (v := value (M * 5 ^ (- E)) E) in *.
    set (f := inject_Z (5 ^ (- E))) in *. set (t := inject_Z (2 ^ (- E))) in *.
    assert (Hc : ((v * t - inject_Z M) * f == 0)%Q).
    { setoid_replace ((v * t - inject_Z M) * f)%Q with (v * (f * t) - inject_Z M * f)%Q by ring.
      rewrite Hf. ring. }
    apply Qmult_integral in Hc. destruct Hc as [Hc | Hc].
    + rewrite <- (Qplus_0_l (inject_Z M)), <- Hc. ring.
    + rewrite Hc in H5. discriminate H5.
Qed.

(** *** The error of one rounding *)

Lemma bound_core (y qq tn tE K c B n : Q) :
  (0 < qq -> 0 < tn -> 0 < tE -> 0 < c ->
   y * (qq * tn) == n ->
   - (qq * tE) <= 2 * n -> 2 * n <= qq * tE ->
   tE * c <= 2 * K * tn ->
   B * c == K ->
   - B <= y /\ y <= B)%Q.
Proof.
  intros Hq Htn HtE Hc Hy Hlo Hhi Ht HB.
  assert (H1 : (2 * y * tn <= tE)%Q).
  { apply (Qmult_le_r _ _ qq Hq). rewrite <- Hy in Hhi.
    setoid_replace (2 * y * tn * qq)%Q with (2 * (y * (qq * tn)))%Q by ring.
    setoid_replace (tE * qq)%Q with (qq * tE)%Q by ring. exact Hhi. }
  assert (H2 : (- tE <= 2 * y * tn)%Q).
  { apply (Qmult_le_r _ _ qq Hq). rewrite <- Hy in Hlo.
    setoid_replace (2 * y * tn * qq)%Q with (2 * (y * (qq * tn)))%Q by ring.
    setoid_replace (- tE * qq)%Q with (- (qq * tE))%Q by ring. exact Hlo. }
  assert (Hct : (0 < c * tn)%Q) by (apply Qmult_lt_0_compat; assumption).
  split.
  - apply (Qmult_le_r _ _ (c * tn)%Q Hct).
    assert (H3 : (- (tE * c) <= 2 * y * tn * c)%Q).
    { setoid_replace (- (tE * c))%Q with (- tE * c)%Q by ring.
      apply Qmult_le_compat_r; [exact H2 | apply Qlt_le_weak; exact Hc]. }
    rewrite <- HB in Ht. nra.
  - apply (Qmult_le_r _ _ (c * tn)%Q Hct).
    assert (H3 : (2 * y * tn * c <= tE * c)%Q).
    { apply Qmult_le_compat_r; [exact H1 | apply Qlt_le_weak; exact Hc]. }
    rewrite <- HB in Ht. nra.
Qed.

Lemma inject_pos (z : Z) : 0 < z -> (0 < inject_Z z)%Q.
Proof. intros H. change 0%Q with (inject_Z 0). rewrite <- Zlt_Qlt. exact H. Qed.

(** Rounding a quotient of magnitude at most [2^k], well below the
    overflow threshold, gives a finite Number within [2^(k-53)] of it: half
    a unit in the last of 53 places. *)
Lemma double_q_error (p q k : Z) :
  0 < q -> 0 <= k <= 1000 -> Z.abs p <= q * 2 ^ k ->
  exists m e,
    double_q p q = Finite m e /\
    (Qabs (value m e - inject_Z p / inject_Z q)
     <= inject_Z (2 ^ k) / inject_Z (2 ^ 53))%Q.
Proof.
  intros Hq Hk Hp.
  assert (Hqq : (0 < inject_Z q)%Q) by (apply inject_pos; exact Hq).
  assert (Hc : (0 < inject_Z (2 ^ 53))%Q) by (apply inject_pos; reflexivity).
  assert (HK : (0 < inject_Z (2 ^ k))%Q) by (apply inject_pos, Z.pow_pos_nonneg; lia).
  unfold double_q. destruct (Z.eqb_spec p 0) as [-> | Hp0].
  - exists 0, 0. split; [reflexivity |].
    setoid_replace (value 0 0 - inject_Z 0 / inject_Z q)%Q with 0%Q
      by (unfold value; field; intros H; rewrite H in Hqq; discriminate Hqq).
    cbn [Qabs]. apply Qlt_le_weak. apply Qlt_shift_div_l; [exact Hc |].
    rewrite Qmult_0_l. exact HK.
  - pose proof (nearest_spec (Z.abs p) q k ltac:(lia) Hq ltac:(lia) Hp) as Hn.
    destruct (nearest (Z.abs p) q) as [M E]. cbn [fst snd] in Hn.
    destruct Hn as [HE [HM Hnear]].
    assert (Hlog : Z.log2 M + E < 1024).
    { pose proof (Z.log2_le_mono M (2 ^ (k - E)) ltac:(lia)) as Hl.
      rewrite Z.log2_pow2 in Hl by lia. lia. }
    destruct (Z.leb_spec 1024 (Z.log2 M + E)) as [Hov | _]; [lia |].
    destruct (dyadic_denotes (Z.sgn p * M) E) as [m [e [-> Hv]]].
    exists m, e. split; [reflexivity |].
    set (tn := 2 ^ Z.max 0 (- E)) in *. set (tE := 2 ^ Z.max 0 E) in *.
    assert (Htn : 0 < tn) by (apply Z.pow_pos_nonneg; lia).
    assert (HtE : 0 < tE) by (apply Z.pow_pos_nonneg; lia).
    assert (Hexp : tE * 2 ^ 53 <= 2 * 2 ^ k * tn).
    { unfold tE, tn. rewrite <- (Z.pow_1_r 2) at 3.
      rewrite <- !Z.pow_add_r by lia. apply Z.pow_le_mono_r; lia. }
    apply Qabs_Qle_condition.
    apply (bound_core _ (inject_Z q) (inject_Z tn) (inject_Z tE) (inject_Z (2 ^ k))
             (inject_Z (2 ^ 53)) _
             (inject_Z (Z.sgn p * (q * tE * M - Z.abs p * tn))));
      try (apply inject_pos; assumption).
    + setoid_replace ((value m e - inject_Z p / inject_Z q) * (inject_Z q * inject_Z tn))%Q
        with (value m e * inject_Z tn * inject_Z q - inject_Z p * inject_Z tn)%Q
        by (field; intros H; rewrite H in Hqq; discriminate Hqq).
      rewrite Hv. unfold Qminus.
      rewrite <- !inject_Z_mult, <- inject_Z_opp, <- inject_Z_plus.
      apply inject_Z_injective.
      destruct (Z.sgn_spec p) as [[? ->] | [[? ->] | [? ->]]];
        [rewrite Z.abs_eq by lia | lia | rewrite Z.abs_neq by lia]; ring.
    + rewrite <- !inject_Z_mult, <- (inject_Z_opp (q * tE)).
      change 2%Q with (inject_Z 2). rewrite <- inject_Z_mult, <- Zle_Qle.
      destruct (Z.sgn_spec p) as [[_ ->] | [[_ ->] | [_ ->]]]; lia.
    + rewrite <- !inject_Z_mult.
      change 2%Q with (inject_Z 2). rewrite <- inject_Z_mult, <- Zle_Qle.
      destruct (Z.sgn_spec p) as [[_ ->] | [[_ ->] | [_ ->]]]; lia.
    + change 2%Q with (inject_Z 2). rewrite <- !inject_Z_mult, <- Zle_Qle. exact Hexp.
    + field. intros H. rewrite H in Hc. discriminate Hc.
Qed.

Lemma Qabs_inject (z : Z) : Qabs (inject_Z z) = inject_Z (Z.abs z).
Proof. reflexivity. Qed.

(** The same, for a value given as a fraction. *)
Lemma double_q_value (p q k : Z) (x : Q) :
  0 < q -> 0 <= k <= 1000 ->
  (x * inject_Z q == inject_Z p)%Q ->
  (Qabs x <= inject_Z (2 ^ k))%Q ->
  exists m e,
    double_q p q = Finite m e /\
    (Qabs (value m e - x) <= inject_Z (2 ^ k) / inject_Z (2 ^ 53))%Q.
Proof.
  intros Hq Hk Hx Hb.
  assert (Hqq : (0 < inject_Z q)%Q) by (apply inject_pos; exact Hq).
  assert (Hxq : (x == inject_Z p / inject_Z q)%Q).
  { rewrite <- Hx. field. intros H. rewrite H in Hqq. discriminate Hqq. }
  assert (Hp : Z.abs p <= q * 2 ^ k).
  { rewrite Zle_Qle, inject_Z_mult, <- Qabs_inject, <- Hx, Qabs_Qmult.
    rewrite (Qabs_pos (inject_Z q)) by (apply Qlt_le_weak; exact Hqq).
    rewrite (Qmult_comm (inject_Z q)).
    apply Qmult_le_compat_r; [exact Hb | apply Qlt_le_weak; exact Hqq]. }
  destruct (double_q_error p q k Hq Hk Hp) as [m [e [Hd He]]].
  exists m, e. split; [exact Hd |]. rewrite Hxq. exact He.
Qed.

(** The literal [m * 10^e] read as a double. *)
Lemma double_error (m e k : Z) :
  0 <= k <= 1000 ->
  (Qabs (value m e) <= inject_Z (2 ^ k))%Q ->
  exists m' e',
    double m e = Finite m' e' /\
    (Qabs (value m' e' - value m e) <= inject_Z (2 ^ k) / inject_Z (2 ^ 53))%Q.
Proof.
  intros Hk Hb. pose proof (value_fraction m e) as Hf. unfold double.
  destruct (Z.leb_spec 0 e) as [He | He].
  - rewrite (Z.max_l 0 (- e)), (Z.max_r 0 e) in Hf by lia.
    apply (double_q_value _ 1 k); [lia | exact Hk | exact Hf | exact Hb].
  - rewrite (Z.max_r 0 (- e)), (Z.max_l 0 e), Z.pow_0_r, Z.mul_1_r in Hf by lia.
    apply (double_q_value _ _ k); [apply Z.pow_pos_nonneg; lia | exact Hk | exact Hf | exact Hb].
Qed.

Lemma value_pos (m e : Z) : 0 < m -> (0 < value m e)%Q.
Proof.
  intros Hm. unfold value. apply Qmult_lt_0_compat; [apply inject_pos; exact Hm |].
  apply Qpower_0_lt. reflexivity.
Qed.

(** The quotient of two finite Numbers as a fraction. *)
Lemma quotient_fraction (m1 e1 m2 e2 : Z) :
  0 < m2 ->
  let p := fst (quotient m1 e1 m2 e2) in
  let q := snd (quotient m1 e1 m2 e2) in
  0 < q /\ (value m1 e1 / value m2 e2 * inject_Z q == inject_Z p)%Q.
Proof.
  intros Hm2. unfold quotient.
  set (a := Z.max 0 (e1 - e2)). set (b := Z.max 0 (e2 - e1)).
  assert (Hq : 0 < m2 * 10 ^ b).
  { apply Z.mul_pos_pos; [exact Hm2 | apply Z.pow_pos_nonneg; lia]. }
  destruct (Z.ltb_spec (m2 * 10 ^ b) 0) as [Hneg | _]; [lia |].
  cbn [fst snd]. split; [exact Hq |].
  pose proof (value_pos m2 e2 Hm2) as Hv2.
  unfold value in *. rewrite !inject_Z_mult, !pow10_Q by (unfold a, b; lia).
  assert (Ha : a = e1 + (- e2 + b)) by (unfold a, b; lia).
  rewrite Ha, !Qpower_plus by exact ten_nonzero.
  rewrite Qpower_opp.
  assert (H10 : ~ (inject_Z 10 ^ e2 == 0)%Q).
  { intros H. pose proof (Qpower_0_lt (inject_Z 10) e2 eq_refl) as Hlt.
    rewrite H in Hlt. discriminate Hlt. }
  field. split; [exact H10 |].
  intros H. unfold Qeq in H. cbn [Qnum Qden inject_Z] in H. lia.
Qed.

(** Rounding a fraction to the nearest integer, ties upwards. *)
Lemma round_half_up (p q : Z) (x : Q) :
  0 < q ->
  (x * inject_Z q == inject_Z p)%Q ->
  (Qabs (inject_Z ((2 * p + q) / (2 * q)) - x) <= 1 # 2)%Q.
Proof.
  intros Hq Hx.
  set (z := (2 * p + q) / (2 * q)).
  pose proof (Z.div_mod (2 * p + q) (2 * q) ltac:(lia)) as Hdm.
  pose proof (Z.mod_pos_bound (2 * p + q) (2 * q) ltac:(lia)) as Hr.
  fold z in Hdm. set (r := (2 * p + q) mod (2 * q)) in *.
  assert (HQ : (inject_Z 0 < inject_Z q)%Q) by (rewrite <- Zlt_Qlt; exact Hq).
  change (inject_Z 0) with 0%Q in HQ.
  assert (Hlo : (inject_Z 2 * inject_Z q * inject_Z z <= inject_Z 2 * inject_Z p + inject_Z q)%Q).
  { rewrite <- !inject_Z_mult, <- inject_Z_plus, <- Zle_Qle. lia. }
  assert (Hhi : (inject_Z 2 * inject_Z p + inject_Z q <= inject_Z 2 * inject_Z q * inject_Z z + inject_Z 2 * inject_Z q)%Q).
  { rewrite <- !inject_Z_mult, <- !inject_Z_plus, <- Zle_Qle. lia. }
  apply Qabs_Qle_condition. rewrite <- Hx in Hlo, Hhi.
  change (inject_Z 2) with (2 # 1) in *.
  split; nra.
Qed.

(** [Math.round] of a finite Number is an integer within one half of it. *)
Lemma math_round_near (m e : Z) :
  exists z,
    denotes (math_round (Finite m e)) (inject_Z z) /\
    (Qabs (inject_Z z - value m e) <= 1 # 2)%Q.
Proof.
  cbn [math_round]. pose proof (value_fraction m e) as Hf.
  destruct (Z.leb_spec 0 e) as [He | He].
  - rewrite (Z.max_l 0 (- e)), (Z.max_r 0 e) in Hf by lia.
    change (inject_Z (10 ^ 0)) with 1%Q in Hf. rewrite Qmult_1_r in Hf.
    exists (m * 10 ^ e). split.
    + pose proof (decimal_denotes m e) as H.
      destruct (decimal m e); try exact H. cbn [denotes] in *. rewrite H. exact Hf.
    + rewrite Hf. setoid_replace (inject_Z (m * 10 ^ e) - inject_Z (m * 10 ^ e))%Q with 0%Q by ring.
      discriminate.
  - rewrite (Z.max_r 0 (- e)), (Z.max_l 0 e), Z.pow_0_r, Z.mul_1_r in Hf by lia.
    eexists. split; [apply integer_denotes |].
    apply round_half_up; [apply Z.pow_pos_nonneg; lia | exact Hf].
Qed.

(** *** [cmToIn] *)

(** The double the literal [2.54] denotes, a little above 2.54. *)
Lemma literal_254 :
  double 254 (-2) = Finite 254000000000000003552713678800500929355621337890625 (-50).
Proof. vm_compute. reflexivity. Qed.

Lemma literal_254_value :
  (254 # 100 <= value 254000000000000003552713678800500929355621337890625 (-50))%Q /\
  (value 254000000000000003552713678800500929355621337890625 (-50)
   <= (254 # 100) + (4 # 100000000000000000))%Q.
Proof. split; vm_compute; discriminate. Qed.

Lemma quotient_bound (c d x : Q) :
  (254 # 100 <= d -> x * d == c ->
   - (10000000000 # 1) <= c -> c <= 10000000000 # 1 ->
   - (3940000000 # 1) <= x /\ x <= 3940000000 # 1)%Q.
Proof.
  intros Hd Hx Hlo Hhi.
  destruct (Qlt_le_dec x 0) as [Hneg | Hpos]; split; nra.
Qed.

(** Dividing by the double of [2.54] instead of 2.54 itself. *)
Lemma literal_error (c d x1 x2 : Q) :
  (254 # 100 <= d -> d <= (254 # 100) + (4 # 100000000000000000) ->
   x1 * d == c -> x2 * (254 # 100) == c ->
   - (10000000000 # 1) <= c -> c <= 10000000000 # 1 ->
   - (1 # 10000000) <= x1 - x2 /\ x1 - x2 <= 1 # 10000000)%Q.
Proof.
  intros Hd1 Hd2 Hx1 Hx2 Hlo Hhi.
  destruct (quotient_bound c d x1 Hd1 Hx1 Hlo Hhi) as [Hb1 Hb2].
  rewrite <- Hx1 in Hx2.
  destruct (Qlt_le_dec x1 0) as [Hneg | Hpos]; split; nra.
Qed.

(** On a centimetre value of magnitude at most [10^10], [cmToIn] answers
    an integer within [1/2 + 6/10^7] of the exact quotient by 2.54: one
    half for [Math.round], the rest for the division of doubles. *)
Lemma cmToIn_within (m e : Z) :
  (Qabs (value m e) <= inject_Z (10 ^ 10))%Q ->
  exists z n,
    PerResort.cmToIn (JNum (Finite m e)) = Return (JNum n) /\
    denotes n (inject_Z z) /\
    (Qabs (inject_Z z - value m e / (254 # 100)) <= (1 # 2) + (6 # 10000000))%Q.
Proof.
  intros Hc. apply Qabs_Qle_condition in Hc. destruct Hc as [Hlo Hhi].
  change (inject_Z (10 ^ 10)) with (10000000000 # 1) in *.
  unfold PerResort.cmToIn. cbn [nullish toNumber bind]. rewrite literal_254.
  set (D := 254000000000000003552713678800500929355621337890625).
  destruct literal_254_value as [Hd1 Hd2]. fold D in Hd1, Hd2.
  assert (HD : 0 < D) by reflexivity.
  cbn [num_div]. change (D =? 0) with false. cbv iota.
  destruct (quotient_fraction m e D (-50) HD) as [Hq Hfrac].
  destruct (quotient m e D (-50)) as [p q]. cbn [fst snd] in Hq, Hfrac.
  set (c := value m e) in *. set (d := value D (-50)) in *.
  assert (Hd0 : ~ (d == 0)%Q) by (intros H; lra).
  assert (Hx1 : (c / d * d == c)%Q) by (field; exact Hd0).
  assert (Hx2 : (c / (254 # 100) * (254 # 100) == c)%Q) by (field; discriminate).
  destruct (quotient_bound c d (c / d) Hd1 Hx1 Hlo Hhi) as [Hb1 Hb2].
  assert (Hb : (Qabs (c / d) <= inject_Z (2 ^ 32))%Q).
  { apply Qabs_Qle_condition. change (inject_Z (2 ^ 32)) with (4294967296 # 1).
    split; lra. }
  destruct (double_q_value p q 32 (c / d) Hq ltac:(lia) Hfrac Hb) as [m' [e' [-> Hv]]].
  destruct (math_round_near m' e') as [z [Hz Hr]].
  destruct (math_round (Finite m' e')) as [| b | m'' e''];
    [destruct Hz | destruct Hz |].
  exists z, (Finite m'' e''). split; [reflexivity |]. split; [exact Hz |].
  destruct (literal_error c d (c / d) (c / (254 # 100)) Hd1 Hd2 Hx1 Hx2 Hlo Hhi)
    as [Hl1 Hl2].
  change (inject_Z (2 ^ 32) / inject_Z (2 ^ 53))%Q with (4294967296 # 9007199254740992) in Hv.
  apply Qabs_Qle_condition in Hv, Hr. destruct Hv as [Hv1 Hv2], Hr as [Hr1 Hr2].
  apply Qabs_Qle_condition.
  set (v := value m' e') in *. set (x1 := (c / d)%Q) in *.
  set (x2 := (c / (254 # 100))%Q) in *. set (zq := inject_Z z) in *.
  split; lra.
Qed.

(** Two integers less than one apart are the same. *)
Lemma integers_apart (z k : Z) (x : Q) :
  (Qabs (inject_Z z - x) <= (1 # 2) + (6 # 10000000))%Q ->
  (Qabs (inject_Z k - x) <= (1 # 2) - (7 # 10000000))%Q ->
  z = k.
Proof.
  intros Hz Hk. apply Qabs_Qle_condition in Hz, Hk.
  destruct Hz as [Hz1 Hz2], Hk as [Hk1 Hk2].
  assert (H1 : (inject_Z z < inject_Z (k + 1))%Q)
    by (rewrite inject_Z_plus; change (inject_Z 1) with 1%Q; lra).
  assert (H2 : (inject_Z k < inject_Z (z + 1))%Q)
    by (rewrite inject_Z_plus; change (inject_Z 1) with 1%Q; lra).
  rewrite <- Zlt_Qlt in H1, H2. lia.
Qed.

(** C8, as stated, fails: the quotient is a quotient of doubles, and a
    double has 53 significant bits. For a depth of [10^21], which is a
    double, [cmToIn] answers 393700787401574776832, while [10^21 / 2.54] is
    393700787401574803149.6...: the answer is more than 26317 below the
    quotient. *)
Lemma cmToIn_far_from_nearest :
  double 1 21 = Finite 1 21 /\
  PerResort.cmToIn (JNum (Finite 1 21)) = Return (JNum (Finite 393700787401574776832 0)) /\
  (inject_Z 393700787401574776832 + inject_Z 26317 < value 1 21 / (254 # 100))%Q /\
  ~ (forall m e, exists z n,
       PerResort.cmToIn (JNum (Finite m e)) = Return (JNum n) /\
       denotes n (inject_Z z) /\
       (Qabs (inject_Z z - value m e / (254 # 100)) <= 1 # 2)%Q).
Proof.
  assert (Hcm : PerResort.cmToIn (JNum (Finite 1 21))
                = Return (JNum (Finite 393700787401574776832 0)))
    by (vm_compute; reflexivity).
  split; [vm_compute; reflexivity |]. split; [exact Hcm |].
  split; [vm_compute; reflexivity |].
  intros H. destruct (H 1 21) as [z [n [Hn [Hz Hb]]]].
  rewrite Hcm in Hn. injection Hn as <-. cbn [denotes] in Hz.
  assert (Hzz : z = 393700787401574776832).
  { unfold value in Hz. change (inject_Z 10 ^ 0)%Q with 1%Q in Hz.
    rewrite Qmult_1_r in Hz. unfold Qeq in Hz. cbn [Qnum Qden inject_Z] in Hz. lia. }
  subst z. revert Hb. vm_compute. intros Hb. apply Hb. reflexivity.
Qed.

(** C8 (amended). For every centimetre value [cm] of magnitude at most
    [10^10], [cmToIn cm] is an integer within [1/2 + 6/10^7] of
    [cm / 2.54]: it is [Math.round] of the quotient of two doubles, the
    second being the double of [2.54]. So it is the whole number nearest to
    [cm / 2.54] whenever that quotient is at least [7/10^7] away from the
    midpoint between two whole numbers. [null] and [undefined] convert to
    [null]; 142 cm converts to 56, and the Tremblant scraper reports a base
    of 56 for an upstream [baseDepthCm] of 142. *)
Theorem cmToIn_rounds_to_nearest :
  (forall m e,
     (Qabs (value m e) <= inject_Z (10 ^ 10))%Q ->
     exists z n,
       PerResort.cmToIn (JNum (Finite m e)) = Return (JNum n) /\
       denotes n (inject_Z z) /\
       (Qabs (inject_Z z - value m e / (254 # 100)) <= (1 # 2) + (6 # 10000000))%Q /\
       (forall k : Z,
          (Qabs (inject_Z k - value m e / (254 # 100)) <= (1 # 2) - (7 # 10000000))%Q ->
          z = k)) /\
  PerResort.cmToIn JNull = Return JNull /\
  PerResort.cmToIn JUndefined = Return JNull /\
  PerResort.cmToIn (JNum (Finite 142 0)) = Return (JNum (Finite 56 0)) /\
  exists r,
    PerResort.tremblant Scenario.tremblant_cm = Fulfilled r /\
    base r = JNum (Finite 56 0) /\
    source r = JStr "https://www.tremblant.ca/api/mountain-conditions".
Proof.
  split.
  - intros m e Hc. destruct (cmToIn_within m e Hc) as [z [n [Hcm [Hz Hb]]]].
    exists z, n. split; [exact Hcm |]. split; [exact Hz |]. split; [exact Hb |].
    intros k Hk. exact (integers_apart z k _ Hb Hk).
  - repeat split; try (vm_compute; reflexivity).
    eexists. split; [vm_compute; reflexivity |]. split; reflexivity.
Qed.

(** 142 cm: the quotient is 55.9..., and 56 is the whole number nearest
    to it. *)
Lemma cmToIn_rounds_to_nearest_witness :
  exists z n,
    PerResort.cmToIn (JNum (Finite 142 0)) = Return (JNum n) /\
    denotes n (inject_Z z) /\ z = 56.
Proof.
  destruct (proj1 cmToIn_rounds_to_nearest 142 0) as [z [n [Hcm [Hz [_ Hk]]]]].
  - vm_compute. discriminate.
  - exists z, n. split; [exact Hcm |]. split; [exact Hz |].
    apply Hk. vm_compute. discriminate.
Defined.

(** ** Zero and absence in the SnoCountry parser *)

(** [n || null] is [null] for a zero, and otherwise [null] or a Number
    that is neither zero nor NaN. *)
Lemma or_null_cases (n : number) :
  (is_zero n = true -> or_null n = JNull) /\
  (or_null n = JNull \/
   exists n', or_null n = JNum n' /\ is_zero n' = false /\ is_NaN n' = false).
Proof.
  unfold or_null, oror. cbn [truthy].
  destruct (is_zero n) eqn:Hz; cbn [orb negb].
  - split; [reflexivity | left; reflexivity].
  - split; [discriminate |].
    destruct (is_NaN n) eqn:Hn; cbn [negb]; [left; reflexivity |].
    right. exists n. auto.
Qed.

(** The same for a whole [parse(r.k || ...) || null] expression. *)
Lemma parsed_field (parse : jsval -> completion number)
    (r : jsval) (k : string) (ks : list string) (v : jsval) :
  (x <- alt r k ks ;; n <- parse x ;; Return (or_null n)) = Return v ->
  (forall x n,
     alt r k ks = Return x -> parse x = Return n -> is_zero n = true ->
     v = JNull) /\
  (v = JNull \/ exists n, v = JNum n /\ is_zero n = false /\ is_NaN n = false).
Proof.
  intros H.
  destruct (alt r k ks) as [x |]; cbn [bind] in H; [| discriminate H].
  destruct (parse x) as [n |] eqn:Hp; cbn [bind] in H; [| discriminate H].
  injection H as <-.
  destruct (or_null_cases n) as [Hzero Hshape].
  split; [| exact Hshape].
  intros x' n' [= <-] Hp' Hz. rewrite Hp in Hp'. injection Hp' as <-. auto.
Qed.

(** C10. Every numeric field of an accepted SnoCountry entry is emitted as
    [null] when its parsed value is 0, and is never emitted as 0: an entry
    reporting a base depth of [0] yields the very record of an entry
    reporting none; [parseInches] answers [null] for the number 0 and 0 for
    the string [0]. *)
Theorem parseRecord_zero_is_null :
  (forall w r p,
     SnoCountry.parseRecord w r = Return (Some p) ->
     Forall (zero_is_null r p) numeric_fields) /\
  (forall w,
     SnoCountry.parseRecord w
       (Scenario.entry [("resort_name", JStr "Killington"); ("base_depth", JStr "0")])
     = SnoCountry.parseRecord w
       (Scenario.entry [("resort_name", JStr "Killington")])) /\
  PerResort.parseInches (JNum (Finite 0 0)) = Return JNull /\
  PerResort.parseInches (JStr "0") = Return (JNum (Finite 0 0)).
Proof.
  split; [| repeat split; reflexivity].
  intros w r p H.
  destruct (parseRecord_accepted w r p H)
    as (_ & _ & H1 & H2 & H3 & H4 & H5 & H6 & H7 & H8 & H9 & H10).
  unfold numeric_fields.
  repeat (apply Forall_cons;
          [cbn [zero_is_null];
           first [ apply (parsed_field parseFloat); assumption
                 | apply (parsed_field (fun x => parseInt x None)); assumption ] |]).
  apply Forall_nil.
Qed.

(** C10 at an entry that reports a base depth of [0]. *)
Lemma parseRecord_zero_is_null_witness :
  exists p,
    SnoCountry.parseRecord Scenario.offline
      (Scenario.entry [("resort_name", JStr "Killington"); ("base_depth", JStr "0")])
    = Return (Some p) /\
    base p = JNull.
Proof.
  destruct parseRecord_zero_is_null as [Hfields _].
  eexists. split; [reflexivity |].
  match goal with
  | |- base ?p = _ =>
      pose proof (Hfields Scenario.offline
                    (Scenario.entry [("resort_name", JStr "Killington");
                                     ("base_depth", JStr "0")])
                    p eq_refl) as H
  end.
  apply Forall_inv in H. destruct H as [Hzero _].
  apply (Hzero (JStr "0") (Finite 0 0)); reflexivity.
Defined.

(** ** The SnoCountry run: names, outages and malformed feeds *)

Lemma num_same_sym (a b : number) : num_same a b = num_same b a.
Proof.
  destruct a as [| s1 | m1 e1], b as [| s2 | m2 e2]; cbn; try reflexivity.
  - destruct s1, s2; reflexivity.
  - rewrite (Z.min_comm e2 e1). apply Z.eqb_sym.
Qed.

Lemma sameValueZero_sym (a b : jsval) : sameValueZero a b = sameValueZero b a.
Proof.
  destruct a, b; cbn; try reflexivity.
  - destruct b, b0; reflexivity.
  - apply num_same_sym.
  - apply String.eqb_sym.
Qed.

Lemma sameValueZero_string (v : jsval) (s : string) :
  sameValueZero v (JStr s) = true -> v = JStr s.
Proof.
  destruct v; cbn; try discriminate.
  intros H. apply String.eqb_eq in H. congruence.
Qed.

Lemma StronglySorted_snoc {A} (R : A -> A -> Prop) (l : list A) (x : A) :
  StronglySorted R l -> Forall (fun a => R a x) l -> StronglySorted R (l ++ [x]).
Proof.
  induction 1 as [| a l Hl IH Ha]; intros Hx; cbn.
  - constructor; constructor.
  - apply Forall_cons_iff in Hx. destruct Hx as [Hax Hx].
    constructor; [apply IH; exact Hx |].
    apply Forall_app. split; [exact Ha | constructor; [exact Hax | constructor]].
Qed.

(** The loop keeps [matchedNames] the names of [matched], pairwise distinct. *)
Lemma dedup_distinct (w : world) (rs : list jsval) :
  forall matched ms,
    StronglySorted distinct_names matched ->
    SnoCountry.dedup w rs matched (map name matched) = Return ms ->
    StronglySorted distinct_names ms.
Proof.
  induction rs as [| r rest IH]; intros matched ms Hsorted H; cbn [SnoCountry.dedup] in H.
  - injection H as <-. exact Hsorted.
  - destruct (SnoCountry.parseRecord w r) as [[p |] | e]; cbn [bind] in H;
      [| eauto | discriminate H].
    destruct (existsb (sameValueZero (name p)) (map name matched)) eqn:Hseen;
      cbn [negb] in H; [eauto |].
    apply (IH (matched ++ [p])%list ms).
    + apply StronglySorted_snoc; [exact Hsorted |].
      apply Forall_forall. intros a Ha. unfold distinct_names.
      rewrite sameValueZero_sym.
      destruct (sameValueZero (name p) (name a)) eqn:Hpa; [| reflexivity].
      assert (existsb (sameValueZero (name p)) (map name matched) = true) as Hex.
      { apply existsb_exists. exists (name a). split; [apply in_map; exact Ha | exact Hpa]. }
      congruence.
    + rewrite map_app. exact H.
Qed.

Lemma find_app {A} (f : A -> bool) (l1 l2 : list A) :
  find f (l1 ++ l2) = match find f l1 with Some x => Some x | None => find f l2 end.
Proof.
  induction l1 as [| a l1 IH]; cbn; [reflexivity |].
  destruct (f a); [reflexivity | exact IH].
Qed.

(** The loop returns, for each name string, the first accepted record that
    bears it. *)
Lemma dedup_first_seen (w : world) (rs : list jsval) :
  forall matched ms,
    SnoCountry.dedup w rs matched (map name matched) = Return ms ->
    exists parsed,
      mapM (SnoCountry.parseRecord w) rs = Return parsed /\
      forall s, find (named s) ms = find (named s) (matched ++ accepted parsed).
Proof.
  induction rs as [| r rest IH]; intros matched ms H; cbn [SnoCountry.dedup] in H.
  - injection H as <-. exists []. split; [reflexivity |].
    intros s. cbn. rewrite app_nil_r. reflexivity.
  - cbn [mapM].
    destruct (SnoCountry.parseRecord w r) as [[p |] | e]; cbn [bind] in H |- *;
      [| | discriminate H].
    + destruct (existsb (sameValueZero (name p)) (map name matched)) eqn:Hseen;
        cbn [negb] in H.
      * destruct (IH matched ms H) as [parsed [Hp Hfind]].
        exists (Some p :: parsed). rewrite Hp. split; [reflexivity |].
        intros s. rewrite Hfind, !find_app. cbn [accepted find].
        destruct (find (named s) matched) eqn:Hm; [reflexivity |].
        destruct (named s p) eqn:Hn; [| reflexivity].
        exfalso. apply sameValueZero_string in Hn.
        apply existsb_exists in Hseen. destruct Hseen as [x [Hin Hx]].
        apply in_map_iff in Hin. destruct Hin as [q [<- Hq]].
        rewrite Hn in Hx. rewrite sameValueZero_sym in Hx.
        apply (find_none _ _ Hm) in Hq. unfold named in Hq. congruence.
      * assert (H' : SnoCountry.dedup w rest (matched ++ [p])
                       (map name (matched ++ [p])) = Return ms)
          by (rewrite map_app; exact H).
        destruct (IH (matched ++ [p])%list ms H') as [parsed [Hp Hfind]].
        exists (Some p :: parsed). rewrite Hp. split; [reflexivity |].
        intros s. rewrite Hfind, <- app_assoc. reflexivity.
    + destruct (IH matched ms H) as [parsed [Hp Hfind]].
      exists (None :: parsed). rewrite Hp. split; [reflexivity | exact Hfind].
Qed.

(** The loop pushes at most one record per entry. *)
Lemma dedup_length (w : world) (rs : list jsval) :
  forall matched names ms,
    SnoCountry.dedup w rs matched names = Return ms ->
    (List.length ms <= List.length matched + List.length rs)%nat.
Proof.
  induction rs as [| r rest IH]; intros matched names ms H; cbn [SnoCountry.dedup] in H.
  - injection H as <-. cbn. lia.
  - destruct (SnoCountry.parseRecord w r) as [[p |] | e]; cbn [bind] in H;
      [| | discriminate H].
    + destruct (negb _); apply IH in H; rewrite ?length_app in H; cbn in *; lia.
    + apply IH in H. cbn. lia.
Qed.

(** What a completed run is made of. *)
Lemma SnoCountry_run_inv (w : world) (s : AggregateSnapshot) :
  SnoCountry.runAllScrapers w = Fulfilled s ->
  exists allResorts,
    SnoCountry.collect (map (SnoCountry.fetchState w) SnoCountry.states) []
    = Return allResorts /\
    SnoCountry.dedup w allResorts [] [] = Return (mountains s) /\
    totalCount s = Z.of_nat (List.length (mountains s)) /\
    scrapedAt s = toISOString w.
Proof.
  unfold SnoCountry.runAllScrapers.
  destruct (SnoCountry.collect _ _) as [allResorts | e]; cbn [bind async]; [| discriminate].
  destruct (mapM _ allResorts) as [allNames | e]; cbn [bind async]; [| discriminate].
  destruct (SnoCountry.dedup w allResorts [] []) as [matched | e] eqn:Hd;
    cbn [bind async]; [| discriminate].
  intros H. injection H as <-. exists allResorts.
  split; [reflexivity |]. split; [exact Hd |]. split; reflexivity.
Qed.

(** X1. In a completed SnoCountry run no two records of [mountains] carry
    names that [Set.prototype.has] would identify; in particular no name
    string occurs at two positions. *)
Theorem SnoCountry_names_unique (w : world) (s : AggregateSnapshot) :
  SnoCountry.runAllScrapers w = Fulfilled s ->
  StronglySorted distinct_names (mountains s) /\
  forall i j p q t,
    nth_error (mountains s) i = Some p ->
    nth_error (mountains s) j = Some q ->
    name p = JStr t -> name q = JStr t -> i = j.
Proof.
  intros H. destruct (SnoCountry_run_inv w s H) as [allResorts [_ [Hd _]]].
  assert (Hs : StronglySorted distinct_names (mountains s)).
  { apply (dedup_distinct w allResorts [] (mountains s)); [constructor | exact Hd]. }
  split; [exact Hs |].
  clear H Hd. induction Hs as [| a l Hl IH Ha]; intros i j p q t Hi Hj Hp Hq.
  - destruct i; discriminate Hi.
  - destruct i as [| i], j as [| j]; cbn in Hi, Hj.
    + reflexivity.
    + injection Hi as ->. apply nth_error_In in Hj.
      rewrite Forall_forall in Ha. specialize (Ha q Hj).
      unfold distinct_names in Ha. rewrite Hp, Hq in Ha. cbn in Ha.
      rewrite String.eqb_refl in Ha. discriminate Ha.
    + injection Hj as ->. apply nth_error_In in Hi.
      rewrite Forall_forall in Ha. specialize (Ha p Hi).
      unfold distinct_names in Ha. rewrite Hp, Hq in Ha. cbn in Ha.
      rewrite String.eqb_refl in Ha. discriminate Ha.
    + f_equal. eapply IH; eassumption.
Qed.

(** The feed that lists Killington Resort twice yields one record. *)
Lemma SnoCountry_names_unique_witness :
  exists s,
    SnoCountry.runAllScrapers Cases.listed_twice = Fulfilled s /\
    List.length (mountains s) = 1%nat /\
    StronglySorted distinct_names (mountains s) /\
    forall i j p q t,
      nth_error (mountains s) i = Some p ->
      nth_error (mountains s) j = Some q ->
      name p = JStr t -> name q = JStr t -> i = j.
Proof.
  eexists. split; [vm_compute; reflexivity |]. split; [reflexivity |].
  apply (SnoCountry_names_unique Cases.listed_twice).
  vm_compute. reflexivity.
Defined.

(** X2. In a completed SnoCountry run, the record kept for a name string
    is the first accepted entry of the merged feeds that bears it (later
    entries with the same raw name are dropped, whatever they report), and
    [totalCount] never exceeds the number of entries received. *)
Theorem SnoCountry_first_seen_wins (w : world) (s : AggregateSnapshot) :
  SnoCountry.runAllScrapers w = Fulfilled s ->
  exists allResorts parsed,
    SnoCountry.collect (map (SnoCountry.fetchState w) SnoCountry.states) []
    = Return allResorts /\
    mapM (SnoCountry.parseRecord w) allResorts = Return parsed /\
    (forall t, find (named t) (mountains s) = find (named t) (accepted parsed)) /\
    totalCount s <= Z.of_nat (List.length allResorts).
Proof.
  intros H. destruct (SnoCountry_run_inv w s H) as [allResorts [Hc [Hd [Ht _]]]].
  destruct (dedup_first_seen w allResorts [] (mountains s) Hd) as [parsed [Hp Hfind]].
  exists allResorts, parsed. repeat split; try assumption.
  rewrite Ht. apply inj_le.
  pose proof (dedup_length w allResorts [] [] (mountains s) Hd) as Hlen.
  cbn in Hlen. lia.
Qed.

(** Of the two Killington Resort entries, the first (58) is kept. *)
Lemma SnoCountry_first_seen_wins_witness :
  exists s,
    SnoCountry.runAllScrapers Cases.listed_twice = Fulfilled s /\
    option_map base (find (named "Killington Resort") (mountains s))
    = Some (JNum (Finite 58 0)) /\
    exists allResorts parsed,
      SnoCountry.collect
        (map (SnoCountry.fetchState Cases.listed_twice) SnoCountry.states) []
      = Return allResorts /\
      mapM (SnoCountry.parseRecord Cases.listed_twice) allResorts = Return parsed /\
      (forall t, find (named t) (mountains s) = find (named t) (accepted parsed)) /\
      totalCount s <= Z.of_nat (List.length allResorts).
Proof.
  eexists. split; [vm_compute; reflexivity |]. split; [vm_compute; reflexivity |].
  apply (SnoCountry_first_seen_wins Cases.listed_twice).
  vm_compute. reflexivity.
Defined.

(** *** Feeds that are down *)

Lemma fetchState_no_json (w : world) (stateCode : string) :
  (forall url, no_json (fetch w url)) ->
  SnoCountry.fetchState w stateCode = Fulfilled (JArr []).
Proof.
  intros Hdown. unfold SnoCountry.fetchState.
  match goal with |- context [fetch w ?u] => specialize (Hdown u); destruct (fetch w u) as [res | e] end;
    cbn [await bind tryCatch async]; [| reflexivity].
  cbn in Hdown. destruct Hdown as [Hok | [e He]].
  - rewrite Hok. reflexivity.
  - destruct (ok res); cbn [negb]; [| reflexivity]. rewrite He. reflexivity.
Qed.

(** X3. When no state feed yields JSON (the fetch is refused, answers a
    non-success status, or its body does not parse), the SnoCountry run
    still completes, with no mountains and both counters at zero. *)
Theorem SnoCountry_outage (w : world) :
  (forall url, no_json (fetch w url)) ->
  SnoCountry.runAllScrapers w =
  Fulfilled {| mountains := []; scrapedAt := toISOString w;
               successCount := 0; totalCount := 0 |}.
Proof.
  intros Hdown. unfold SnoCountry.runAllScrapers, SnoCountry.states. cbn [map].
  rewrite !(fetchState_no_json w _ Hdown). reflexivity.
Qed.

Lemma SnoCountry_outage_witness :
  SnoCountry.runAllScrapers Scenario.offline =
  Fulfilled {| mountains := []; scrapedAt := Scenario.instant;
               successCount := 0; totalCount := 0 |}.
Proof.
  apply (SnoCountry_outage Scenario.offline).
  intros url. exact I.
Defined.

(** *** Feeds that are malformed, and feeds that are not *)

Lemma collect_throws (results : list (settled jsval)) :
  Exists not_iterable results ->
  forall acc, exists e, SnoCountry.collect results acc = Throw e.
Proof.
  induction 1 as [p rest [v [e [-> Hv]]] | p rest _ IH]; intros acc; cbn [SnoCountry.collect].
  - rewrite Hv. cbn. eauto.
  - destruct p as [v | r]; [| apply IH].
    destruct (spread v) as [items | e]; cbn [bind]; [apply IH | eauto].
Qed.

Lemma dedup_throws (w : world) (rs : list jsval) :
  Exists (fun r => exists e, SnoCountry.parseRecord w r = Throw e) rs ->
  forall matched names, exists e, SnoCountry.dedup w rs matched names = Throw e.
Proof.
  induction 1 as [r rest [e He] | r rest _ IH]; intros matched names;
    cbn [SnoCountry.dedup].
  - rewrite He. cbn. eauto.
  - destruct (SnoCountry.parseRecord w r) as [[p |] | e]; cbn [bind]; [| apply IH | eauto].
    destruct (negb (existsb (sameValueZero (name p)) names)); apply IH.
Qed.

(** X4. The per-state guard does not cover what follows the fetches: a
    state feed whose value cannot be spread, a [null] entry, or an entry
    whose parse throws (a name that is neither a string nor found in the
    table has no [trim]) rejects the whole run, and the trigger handler,
    when it lets the request through, answers 500 with the error's
    message. *)
Theorem SnoCountry_malformed_feed_aborts (w : world) :
  (Exists not_iterable (map (SnoCountry.fetchState w) SnoCountry.states) \/
   exists allResorts,
     SnoCountry.collect (map (SnoCountry.fetchState w) SnoCountry.states) []
     = Return allResorts /\
     Exists (fun r => nullish r = true \/
                      exists e, SnoCountry.parseRecord w r = Throw e) allResorts) ->
  exists e,
    SnoCountry.runAllScrapers w = Rejected e /\
    forall req,
      Scrape.status_code (Scrape.handler SnoCountry.runAllScrapers w req) <> 401 ->
      Scrape.handler SnoCountry.runAllScrapers w req =
      {| Scrape.status_code := 500; Scrape.json := Scrape.Failed false (message e) |}.
Proof.
  intros H.
  assert (Hrej : exists e, SnoCountry.runAllScrapers w = Rejected e).
  { unfold SnoCountry.runAllScrapers. destruct H as [H | [allResorts [Hc H]]].
    - destruct (collect_throws _ H []) as [e ->]. cbn. eauto.
    - rewrite Hc. cbn [bind].
      destruct (mapM _ allResorts) as [allNames | e]; cbn [bind]; [| cbn; eauto].
      destruct (dedup_throws w allResorts) with (matched := @nil CanonicalConditionRecord)
                                                (names := @nil jsval) as [e ->];
        [| cbn; eauto].
      eapply Exists_impl; [| exact H].
      intros r [Hr | Hr]; [| exact Hr].
      destruct r; try discriminate Hr; cbn; eauto. }
  destruct Hrej as [e He]. exists e. split; [exact He |].
  intros req. unfold Scrape.handler.
  match goal with |- context [if ?g then _ else _] => destruct g end.
  - cbn. intros Hne. contradiction Hne. reflexivity.
  - intros _. rewrite He. reflexivity.
Qed.

(** One entry named [true] in the Vermont feed: the run rejects and the
    trigger answers 500. *)
Lemma SnoCountry_malformed_feed_aborts_witness :
  exists e,
    SnoCountry.runAllScrapers Cases.named_true = Rejected e /\
    message e = "name?.trim is not a function" /\
    forall req,
      Scrape.status_code (Scrape.handler SnoCountry.runAllScrapers Cases.named_true req)
      <> 401 ->
      Scrape.handler SnoCountry.runAllScrapers Cases.named_true req =
      {| Scrape.status_code := 500; Scrape.json := Scrape.Failed false (message e) |}.
Proof.
  destruct (SnoCountry_malformed_feed_aborts Cases.named_true) as [e [He H]].
  - right. exists [Scenario.killington_resort;
                   Scenario.entry [("resort_name", JBool true)]].
    split; [vm_compute; reflexivity |].
    apply Exists_cons_tl, Exists_cons_hd. right. eexists. vm_compute. reflexivity.
  - exists e. split; [exact He |]. split; [| exact H].
    vm_compute in He. injection He as <-. reflexivity.
Defined.

Lemma own_scalar (props : list (string * jsval)) (k : string) (v : jsval) :
  forallb (fun kv => scalar (snd kv)) props = true ->
  own props k = Some v -> scalar v = true.
Proof.
  induction props as [| [k' v'] rest IH]; cbn; [discriminate |].
  intros H. apply andb_prop in H. destruct H as [Hv Hrest].
  destruct (k' =? k)%string; [intros [= <-]; exact Hv | apply IH; exact Hrest].
Qed.

Lemma alt_scalar (r : jsval) (k : string) (ks : list string) :
  well_formed r = true ->
  exists x, alt r k ks = Return x /\ scalar x = true.
Proof.
  destruct r as [| | | | | | props]; try discriminate. cbn [well_formed].
  intros H. apply andb_prop in H. destruct H as [H _].
  apply andb_prop in H. destruct H as [H _].
  revert k. induction ks as [| k' ks IH]; intros k; cbn [alt get bind].
  - destruct (own props k) eqn:Hk; eauto using own_scalar.
  - destruct (own props k) as [a |] eqn:Hk.
    + destruct (truthy a); [eauto using own_scalar | apply IH].
    + cbn [truthy]. apply IH.
Qed.

Lemma toString_scalar (x : jsval) :
  scalar x = true -> exists s, toString x = Return s.
Proof.
  destruct x as [| | [|] | | | |]; cbn; try discriminate; eauto.
Qed.

Lemma float_field_total (r : jsval) (k : string) (ks : list string) :
  well_formed r = true -> exists v, SnoCountry.float_field r k ks = Return v.
Proof.
  intros H. unfold SnoCountry.float_field, parseFloat.
  destruct (alt_scalar r k ks H) as [x [-> Hx]]. cbn [bind].
  destruct (toString_scalar x Hx) as [s ->]. cbn. eauto.
Qed.

Lemma int_field_total (r : jsval) (k : string) (ks : list string) :
  well_formed r = true -> exists v, SnoCountry.int_field r k ks = Return v.
Proof.
  intros H. unfold SnoCountry.int_field, parseInt.
  destruct (alt_scalar r k ks H) as [x [-> Hx]]. cbn [bind].
  destruct (toString_scalar x Hx) as [s ->]. cbn. eauto.
Qed.

Lemma name_resolves (r : jsval) :
  well_formed r = true ->
  exists n m,
    alt r "resort_name" ["resortName"] = Return n /\
    SnoCountry.resolve n = Return m.
Proof.
  destruct r as [| | | | | | props]; try discriminate. cbn [well_formed].
  intros H. apply andb_prop in H. destruct H as [H H2].
  apply andb_prop in H. destruct H as [_ H1].
  cbn [alt get bind].
  assert (Hres : forall o, name_like o = true ->
            exists m, SnoCountry.resolve
                        match o with Some x => x | None => JUndefined end = Return m).
  { intros [[| | | | s | |] |]; cbn [name_like]; try discriminate; intros _;
      try (eexists; reflexivity).
    rewrite resolve_string. eauto. }
  destruct (own props "resort_name") as [[| | | | s | |] |];
    try discriminate H1; cbn [truthy].
  1, 2, 4: destruct (Hres _ H2) as [m Hm]; eauto.
  destruct (negb (s =? "")%string).
  - destruct (Hres (Some (JStr s)) eq_refl) as [m Hm]. eauto.
  - destruct (Hres _ H2) as [m Hm]; eauto.
Qed.

Lemma parseRecord_total (w : world) (r : jsval) :
  well_formed r = true -> exists m, SnoCountry.parseRecord w r = Return m.
Proof.
  intros H. unfold SnoCountry.parseRecord.
  destruct (name_resolves r H) as [n [m [Hn Hm]]].
  rewrite Hn. cbn [bind]. rewrite Hm. cbn [bind].
  destruct (negb (member_truthy m)); [eauto |].
  repeat match goal with
         | |- context [bind (SnoCountry.float_field r ?k ?ks) _] =>
             destruct (float_field_total r k ks H) as [? ->]; cbn [bind]
         | |- context [bind (SnoCountry.int_field r ?k ?ks) _] =>
             destruct (int_field_total r k ks H) as [? ->]; cbn [bind]
         end.
  destruct (alt_scalar r "resort_status" ["resortStatus"] H) as [sc [-> Hsc]].
  unfold parseInt. cbn [bind].
  destruct (toString_scalar sc Hsc) as [s ->]. cbn [bind].
  destruct (alt_scalar r "primary_surface_condition" ["primarySurfaceCondition"] H)
    as [? [-> _]]. cbn [bind].
  destruct (alt_scalar r "report_date_time" ["reportDateTime"] H) as [? [-> _]].
  cbn [bind]. eauto.
Qed.

Lemma fetchState_feed_ok (w : world) (stateCode : string) :
  (forall url, feed_ok (fetch w url)) ->
  exists entries,
    SnoCountry.fetchState w stateCode = Fulfilled (JArr entries) /\
    forallb well_formed entries = true.
Proof.
  intros Hfeeds. unfold SnoCountry.fetchState.
  match goal with |- context [fetch w ?u] => specialize (Hfeeds u); destruct (fetch w u) as [res | e] eqn:Hf end.
  - destruct Hfeeds as [Hdown | [res' [entries [[= <-] [Hok [Hbody Hwf]]]]]].
    + cbn in Hdown. cbn [await bind tryCatch async].
      destruct Hdown as [Hok | [e He]].
      * rewrite Hok. exists []. split; reflexivity.
      * destruct (ok res); cbn [negb]; [| exists []; split; reflexivity].
        rewrite He. exists []. split; reflexivity.
    + cbn [await bind]. rewrite Hok, Hbody. cbn. eauto.
  - exists []. split; reflexivity.
Qed.

Lemma collect_well_formed (results : list (settled jsval)) :
  Forall (fun p => exists entries,
            p = Fulfilled (JArr entries) /\ forallb well_formed entries = true)
         results ->
  forall acc,
    forallb well_formed acc = true ->
    exists all, SnoCountry.collect results acc = Return all /\
                forallb well_formed all = true.
Proof.
  induction 1 as [| p rest [entries [-> Hwf]] _ IH]; intros acc Hacc;
    cbn [SnoCountry.collect spread bind].
  - eauto.
  - apply IH. rewrite forallb_app, Hacc, Hwf. reflexivity.
Qed.

Lemma mapM_total {A B} (f : A -> completion B) (l : list A) :
  Forall (fun x => exists y, f x = Return y) l -> exists ys, mapM f l = Return ys.
Proof.
  induction 1 as [| x rest [y Hy] _ [ys IH]]; cbn [mapM].
  - eauto.
  - rewrite Hy. cbn [bind]. rewrite IH. cbn. eauto.
Qed.

Lemma dedup_total (w : world) (rs : list jsval) :
  forallb well_formed rs = true ->
  forall matched names, exists ms, SnoCountry.dedup w rs matched names = Return ms.
Proof.
  induction rs as [| r rest IH]; cbn [forallb SnoCountry.dedup]; intros H matched names.
  - eauto.
  - apply andb_prop in H. destruct H as [Hr Hrest].
    destruct (parseRecord_total w r Hr) as [[p |] ->]; cbn [bind].
    + destruct (negb _); apply IH; exact Hrest.
    + apply IH; exact Hrest.
Qed.

(** X5. When every state feed is either down or an array of well-formed
    entries (objects with scalar properties whose name fields, if any, are
    strings), the SnoCountry run completes. *)
Theorem SnoCountry_well_formed_feeds_complete (w : world) :
  (forall url, feed_ok (fetch w url)) ->
  exists s, SnoCountry.runAllScrapers w = Fulfilled s.
Proof.
  intros Hfeeds. unfold SnoCountry.runAllScrapers.
  destruct (collect_well_formed (map (SnoCountry.fetchState w) SnoCountry.states))
    with (acc := @nil jsval) as [allResorts [-> Hwf]].
  { apply Forall_map. apply Forall_forall. intros st _.
    apply fetchState_feed_ok. exact Hfeeds. }
  { reflexivity. }
  cbn [bind].
  destruct (mapM_total (fun r => alt r "resort_name" ["resortName"]) allResorts)
    as [allNames ->].
  { apply Forall_forall. intros r Hr.
    rewrite forallb_forall in Hwf.
    destruct (alt_scalar r "resort_name" ["resortName"] (Hwf r Hr)) as [x [Hx _]]. eauto. }
  cbn [bind].
  destruct (dedup_total w allResorts Hwf [] []) as [ms ->].
  cbn. eauto.
Qed.

Lemma SnoCountry_well_formed_feeds_complete_witness :
  exists s, SnoCountry.runAllScrapers Cases.listed_twice = Fulfilled s.
Proof.
  apply (SnoCountry_well_formed_feeds_complete Cases.listed_twice).
  intros url. unfold Cases.listed_twice, Scenario.vermont. cbn [fetch].
  destruct (url =? Scenario.vt_url)%string.
  - right. eexists. eexists. split; [reflexivity |]. split; [reflexivity |].
    split; reflexivity.
  - left. exact I.
Defined.

(** *** Names inherited from [Object.prototype], and the status code *)

(** An entry whose name resolves to something truthy is accepted under its
    raw name. *)
Lemma parseRecord_accepts (w : world) (r : jsval) (n : jsval) (m : member)
    (res : option CanonicalConditionRecord) :
  alt r "resort_name" ["resortName"] = Return n ->
  SnoCountry.resolve n = Return m ->
  member_truthy m = true ->
  SnoCountry.parseRecord w r = Return res ->
  exists p, res = Some p /\ name p = n.
Proof.
  intros Hn Hm Ht. unfold SnoCountry.parseRecord.
  rewrite Hn. cbn [bind]. rewrite Hm. cbn [bind]. rewrite Ht. cbn [negb].
  intros H. repeat bind_inv H.
  injection H as <-. eexists. split; reflexivity.
Qed.

Lemma prototype_not_registered :
  forallb (fun k => match assoc SnoCountry.NAME_MAP k with Some _ => false | None => true end)
          Object_prototype = true.
Proof. vm_compute. reflexivity. Qed.

Lemma identifiers_not_inherited :
  forallb (fun v => negb (existsb (String.eqb (trim v)) Object_prototype))
          (map snd SnoCountry.NAME_MAP) = true.
Proof. vm_compute. reflexivity. Qed.

(** X6. The name table is an object literal, so the members it inherits
    from [Object.prototype] answer lookups too: a well-formed entry whose
    name, trimmed, is one of them ([constructor], [toString], ...) is
    accepted as a mountain, under a name that is no canonical identifier. *)
Theorem prototype_names_are_accepted (w : world) (r : jsval) (k : string) :
  well_formed r = true ->
  alt r "resort_name" ["resortName"] = Return (JStr k) ->
  In (trim k) Object_prototype ->
  exists p,
    SnoCountry.parseRecord w r = Return (Some p) /\
    name p = JStr k /\
    canonical (name p) = false.
Proof.
  intros Hwf Hname Hk.
  assert (Hin : existsb (String.eqb (trim k)) Object_prototype = true).
  { apply existsb_exists. exists (trim k). split; [exact Hk | apply String.eqb_refl]. }
  assert (Hlook : lookup SnoCountry.NAME_MAP (trim k) = Inherited (trim k)).
  { unfold lookup.
    pose proof prototype_not_registered as Hp. rewrite forallb_forall in Hp.
    specialize (Hp _ Hk). destruct (assoc SnoCountry.NAME_MAP (trim k)); [discriminate Hp |].
    rewrite Hin. reflexivity. }
  destruct (parseRecord_total w r Hwf) as [res Hres].
  destruct (parseRecord_accepts w r (JStr k)
              (if member_truthy (lookup SnoCountry.NAME_MAP k)
               then lookup SnoCountry.NAME_MAP k
               else lookup SnoCountry.NAME_MAP (trim k)) res Hname (resolve_string k))
    as [p [-> Hp]]; [| exact Hres |].
  - destruct (member_truthy (lookup SnoCountry.NAME_MAP k)) eqn:Hraw; [exact Hraw |].
    rewrite Hlook. reflexivity.
  - exists p. split; [exact Hres |]. split; [exact Hp |].
    rewrite Hp. cbn [canonical].
    destruct (existsb (String.eqb k) (map snd SnoCountry.NAME_MAP)) eqn:Hc; [| reflexivity].
    apply existsb_exists in Hc. destruct Hc as [v [Hv Hkv]].
    apply String.eqb_eq in Hkv. subst v.
    pose proof identifiers_not_inherited as Hi. rewrite forallb_forall in Hi.
    specialize (Hi _ Hv). rewrite Hin in Hi. discriminate Hi.
Qed.

(** An entry named [constructor], with a depth. *)
Lemma prototype_names_are_accepted_witness :
  exists p,
    SnoCountry.parseRecord Scenario.offline
      (Scenario.entry [("resort_name", JStr " constructor"); ("base_depth", JStr "12")])
    = Return (Some p) /\
    name p = JStr " constructor" /\
    canonical (name p) = false.
Proof.
  apply (prototype_names_are_accepted Scenario.offline
           (Scenario.entry [("resort_name", JStr " constructor"); ("base_depth", JStr "12")])
           " constructor").
  - reflexivity.
  - reflexivity.
  - vm_compute. auto.
Defined.

(** X7. The status of a SnoCountry record is [Closed] only when the
    entry's status code parses to a number greater than 3: an entry whose
    code is missing, does not parse, or is zero or negative, is reported
    [Open]. *)
Theorem status_is_open_unless_above_three
    (w : world) (r : jsval) (p : CanonicalConditionRecord) (x : jsval) (n : number) :
  SnoCountry.parseRecord w r = Return (Some p) ->
  alt r "resort_status" ["resortStatus"] = Return x ->
  parseInt x None = Return n ->
  status p = JStr (status_of n) /\
  (is_NaN n = true -> status p = JStr "Open") /\
  (num_leb n (Finite 3 0) = true -> status p = JStr "Open") /\
  (is_NaN n = false -> num_leb n (Finite 3 0) = false -> status p = JStr "Closed").
Proof.
  intros H Hx Hn.
  assert (Hs : status p = JStr (status_of n)).
  { revert H. unfold SnoCountry.parseRecord. intros H.
    bind_inv H. bind_inv H.
    destruct (negb (member_truthy a0)); [discriminate H |].
    do 10 bind_inv H.
    rewrite Hx in H. cbn [bind] in H. rewrite Hn in H. cbn [bind] in H.
    do 2 bind_inv H. injection H as <-. cbn [status]. f_equal.
    unfold status_of. destruct n as [| [] | m e]; [reflexivity | reflexivity | reflexivity |].
    cbn [truthy is_NaN orb negb andb].
    destruct (is_zero (Finite m e)) eqn:Hz; cbn [negb orb].
    - rewrite (zero_below_three _ Hz). reflexivity.
    - destruct (num_leb (Finite m e) (Finite 3 0)); reflexivity. }
  split; [exact Hs |]. rewrite Hs. unfold status_of. split; [| split].
  - intros ->. reflexivity.
  - intros ->. rewrite andb_false_r. reflexivity.
  - intros -> ->. reflexivity.
Qed.

(** An entry with no status code at all. *)
Lemma status_is_open_unless_above_three_witness :
  exists p,
    SnoCountry.parseRecord Scenario.offline Scenario.killington_resort = Return (Some p) /\
    status p = JStr "Open".
Proof.
  eexists. split; [reflexivity |].
  apply (proj1 (proj2 (status_is_open_unless_above_three
                         Scenario.offline Scenario.killington_resort _ JUndefined NaN
                         eq_refl eq_refl eq_refl))).
  reflexivity.
Defined.

(** ** The per-resort run: roster, outage and fallbacks *)

(** Every scraper fulfils with a record bearing its roster name and a
    source string. *)
Lemma scrapers_named :
  Forall2 (fun f n => forall w, exists r,
             PerResort.call f w = Fulfilled r /\ name r = JStr n /\
             exists u, source r = JStr u)
          PerResort.ALL_SCRAPERS roster.
Proof.
  unfold PerResort.ALL_SCRAPERS, roster.
  repeat (apply Forall2_cons; [scraper_named |]).
  apply Forall2_nil.
Qed.

(** With every result fulfilled, the loop pushes the fulfilled values. *)
Lemma tally_fulfilled (w : world) (entries : list (settled CanonicalConditionRecord * PerResort.scraper)) :
  forall rs results n,
    Forall2 (fun e r => fst e = Fulfilled r) entries rs ->
    fst (fold_left (PerResort.tally w) entries (results, n)) = (results ++ rs)%list.
Proof.
  induction entries as [| [p f] rest IH]; intros rs results n H; inversion H; subst;
    cbn [fold_left].
  - rewrite app_nil_r. reflexivity.
  - cbn [fst] in *. subst p. cbn [PerResort.tally].
    erewrite IH by eassumption. rewrite <- app_assoc. reflexivity.
Qed.

Lemma settled_entries (w : world) (fs : list PerResort.scraper)
    (rs : list CanonicalConditionRecord) :
  Forall2 (fun f r => PerResort.call f w = Fulfilled r) fs rs ->
  Forall2 (fun e r => fst e = Fulfilled r)
          (combine (map (fun f => PerResort.call f w) fs) fs) rs.
Proof.
  induction 1 as [| f r fs rs Hf _ IH]; cbn; constructor; [exact Hf | exact IH].
Qed.

Lemma aggregate_fulfilled (w : world) (rs : list CanonicalConditionRecord) :
  Forall2 (fun f r => PerResort.call f w = Fulfilled r) PerResort.ALL_SCRAPERS rs ->
  mountains (PerResort.aggregate w
               (map (fun f => PerResort.call f w) PerResort.ALL_SCRAPERS)) = rs.
Proof.
  intros H. unfold PerResort.aggregate.
  pose proof (tally_fulfilled w _ rs [] 0 (settled_entries w _ rs H)) as Ht.
  destruct (fold_left _ _ _) as [results n]. exact Ht.
Qed.

(** From a record per scraper to the list of records. *)
Lemma records_of {P : CanonicalConditionRecord -> Prop} (w : world)
    (fs : list PerResort.scraper) :
  Forall (fun f => exists r, PerResort.call f w = Fulfilled r /\ P r) fs ->
  exists rs,
    Forall2 (fun f r => PerResort.call f w = Fulfilled r) fs rs /\ Forall P rs.
Proof.
  induction 1 as [| f fs [r [Hr HP]] _ [rs [H2 HPs]]].
  - exists []. split; constructor.
  - exists (r :: rs). split; constructor; assumption.
Qed.

(** X8. Whatever the sites answer, the per-resort run completes and
    [mountains] carries the same 33 names in the order of [ALL_SCRAPERS];
    the names are pairwise distinct. *)
Theorem PerResort_fixed_roster (w : world) :
  NoDup roster /\
  exists s,
    PerResort.runAllScrapers w = Fulfilled s /\
    map name (mountains s) = map JStr roster.
Proof.
  split.
  - unfold roster. repeat (constructor; [cbn; intuition discriminate |]). constructor.
  - unfold PerResort.runAllScrapers. cbn [async]. eexists. split; [reflexivity |].
    assert (H : exists rs,
               Forall2 (fun f r => PerResort.call f w = Fulfilled r)
                       PerResort.ALL_SCRAPERS rs /\
               map name rs = map JStr roster).
    { pose proof scrapers_named as Hn.
      induction Hn as [| f n fs ns Hf _ [rs [H2 Hm]]].
      - exists []. split; constructor.
      - destruct (Hf w) as [r [Hr [Hname _]]].
        exists (r :: rs). split; [constructor; assumption |].
        cbn. rewrite Hname, Hm. reflexivity. }
    destruct H as [rs [H2 Hm]].
    rewrite (aggregate_fulfilled w rs H2). exact Hm.
Qed.

Lemma live_bare (rs : list CanonicalConditionRecord) :
  Forall bare rs -> live rs = 0.
Proof.
  induction 1 as [| r rs Hr _ IH]; [reflexivity |].
  change (r :: rs) with ([r] ++ rs)%list. rewrite live_app, live_single, IH.
  apply Forall_inv in Hr. rewrite <- Hr. reflexivity.
Qed.

(** X9. When no site yields a page and no endpoint yields JSON, the
    per-resort run completes with [successCount] 0 and [totalCount] 33, and
    each of its 33 records has only its identity fields. *)
Theorem PerResort_outage (w : world) :
  (forall url, no_json (fetch w url) /\ no_html (fetch w url)) ->
  exists s,
    PerResort.runAllScrapers w = Fulfilled s /\
    successCount s = 0 /\ totalCount s = 33 /\
    List.length (mountains s) = 33%nat /\
    Forall bare (mountains s).
Proof.
  intros Hdown.
  destruct (records_of w _ (scrapers_collapse w Hdown)) as [rs [H2 Hbare]].
  unfold PerResort.runAllScrapers. cbn [async]. eexists. split; [reflexivity |].
  destruct (aggregate_counts w (map (fun f => PerResort.call f w) PerResort.ALL_SCRAPERS))
    as [[Hsc _] _].
  rewrite Hsc, aggregate_totalCount, (aggregate_fulfilled w rs H2).
  split; [apply live_bare; exact Hbare |]. split; [reflexivity |].
  split; [| exact Hbare].
  apply Forall2_length in H2. rewrite <- H2. reflexivity.
Qed.

Lemma PerResort_outage_witness :
  exists s,
    PerResort.runAllScrapers Scenario.offline = Fulfilled s /\
    successCount s = 0 /\ totalCount s = 33 /\
    List.length (mountains s) = 33%nat /\
    Forall bare (mountains s).
Proof.
  apply (PerResort_outage Scenario.offline).
  intros url. split; exact I.
Defined.

Lemma parseInches_string (s : string) :
  exists v, PerResort.parseInches (JStr s) = Return v.
Proof.
  unfold PerResort.parseInches. destruct (negb (truthy (JStr s))); cbn; eauto.
Qed.

Lemma parseInt2_string (s : string) :
  exists v, PerResort.parseInt2 (JStr s) = Return v.
Proof.
  unfold PerResort.parseInt2. destruct (negb (truthy (JStr s))); cbn; eauto.
Qed.

Lemma fetchHTML_up (w : world) (url : string) (res : response) (dollar : page) :
  fetch w url = Fulfilled res -> ok res = true -> body_html res = Return dollar ->
  PerResort.fetchHTML w url = Fulfilled dollar.
Proof.
  intros Hf Hok Hbody. unfold PerResort.fetchHTML.
  rewrite (fetchPage_up w url res Hf). cbn [await bind].
  rewrite Hok, Hbody. reflexivity.
Qed.

(** X10. The two scrapers with a fallback: when the JSON endpoint is down
    and the fallback page is served, the record names the fallback page as
    its source, says [Open], and takes its base depth from the page; in
    every case the source is one of the scraper's two URLs. *)
Theorem fallback_is_the_source :
  (forall w dollar,
     falls_back w "https://www.killington.com/api/resort-stats"
                  "https://www.killington.com/the-mountain/snow-report" dollar ->
     exists r,
       PerResort.killington w = Fulfilled r /\
       source r = JStr "https://www.killington.com/the-mountain/snow-report" /\
       status r = JStr "Open" /\
       PerResort.parseInches
         (JStr (text dollar [raw ".snow-report__base"; attr "data-value" "base"]))
       = Return (base r)) /\
  (forall w dollar,
     falls_back w "https://www.tremblant.ca/api/mountain-conditions"
                  "https://www.tremblant.ca/en/ski/conditions" dollar ->
     exists r,
       PerResort.tremblant w = Fulfilled r /\
       source r = JStr "https://www.tremblant.ca/en/ski/conditions" /\
       status r = JStr "Open" /\
       PerResort.parseInches
         (JStr (text dollar [class_has "base"; class_has "neige"]))
       = Return (base r)) /\
  (forall w r,
     PerResort.killington w = Fulfilled r ->
     source r = JStr "https://www.killington.com/api/resort-stats" \/
     source r = JStr "https://www.killington.com/the-mountain/snow-report") /\
  (forall w r,
     PerResort.tremblant w = Fulfilled r ->
     source r = JStr "https://www.tremblant.ca/api/mountain-conditions" \/
     source r = JStr "https://www.tremblant.ca/en/ski/conditions").
Proof.
  split; [| split; [| split]].
  - intros w dollar [Hdown [res [Hf [Hok Hbody]]]].
    unfold PerResort.killington. cbv zeta.
    destruct (fetchJSON_down w _ Hdown) as [e ->].
    rewrite (fetchHTML_up w _ res dollar Hf Hok Hbody).
    cbn [await bind tryCatch]. parse_texts parseInches_string parseInt2_string.
    cbn [tryCatch async].
    eexists. repeat split; reflexivity.
  - intros w dollar [Hdown [res [Hf [Hok Hbody]]]].
    unfold PerResort.tremblant. cbv zeta.
    destruct (fetchJSON_down w _ Hdown) as [e ->].
    rewrite (fetchHTML_up w _ res dollar Hf Hok Hbody).
    cbn [await bind tryCatch]. parse_texts parseInches_string parseInt2_string.
    cbn [tryCatch async].
    eexists. repeat split; reflexivity.
  - intros w r. unfold PerResort.killington. cbv zeta. run_scraper.
    all: intros [= <-]; first [left; reflexivity | right; reflexivity].
  - intros w r. unfold PerResort.tremblant. cbv zeta. run_scraper.
    all: intros [= <-]; first [left; reflexivity | right; reflexivity].
Qed.

(** Killington's endpoint serves no JSON and the snow report page reads
    [58 in]: the record has base 58 and names the page as its source. *)
Lemma fallback_is_the_source_witness :
  exists r,
    PerResort.killington Cases.pages_only = Fulfilled r /\
    source r = JStr "https://www.killington.com/the-mountain/snow-report" /\
    status r = JStr "Open" /\
    base r = JNum (Finite 58 0).
Proof.
  destruct fallback_is_the_source as [Hk _].
  destruct (Hk Cases.pages_only (Cases.leaflet "58 in")) as [r [Hr [Hs [Hst Hb]]]].
  - split.
    + right. eexists. reflexivity.
    + eexists. split; [reflexivity |]. split; reflexivity.
  - exists r. split; [exact Hr |]. split; [exact Hs |]. split; [exact Hst |].
    assert (Hp : PerResort.parseInches (JStr "58 in") = Return (JNum (Finite 58 0)))
      by (vm_compute; reflexivity).
    unfold text, Cases.leaflet in Hb. cbn [first_text] in Hb.
    rewrite Hp in Hb. injection Hb as <-. reflexivity.
Defined.

(** X11. Apart from [killington] and [tremblant], which relay the status
    of their JSON endpoints, no scraper ever reports a closed resort: the
    status of each record is left out or is [Open]. *)
Theorem html_scrapers_report_open :
  Forall (fun f =>
            (PerResort.fn_name f = "killington" \/ PerResort.fn_name f = "tremblant") \/
            forall w r,
              PerResort.call f w = Fulfilled r ->
              status r = JUndefined \/ status r = JStr "Open")
         PerResort.ALL_SCRAPERS.
Proof.
  unfold PerResort.ALL_SCRAPERS.
  repeat (apply Forall_cons; [status_open |]).
  apply Forall_nil.
Qed.

(** Stowe, third of the list, with its page served. *)
Lemma html_scrapers_report_open_witness :
  exists r,
    PerResort.stowe Cases.pages_only = Fulfilled r /\
    (status r = JUndefined \/ status r = JStr "Open").
Proof.
  eexists. split; [vm_compute; reflexivity |].
  pose proof html_scrapers_report_open as H.
  apply Forall_inv_tail, Forall_inv_tail, Forall_inv in H. cbn [PerResort.fn_name PerResort.call] in H.
  destruct H as [[H | H] | H]; [discriminate H | discriminate H |].
  apply (H Cases.pages_only). vm_compute. reflexivity.
Defined.

(** *** The table of [jayPeak] *)

(** X12. The report table of [jayPeak]: after a row, each key of [tableData]
    holds the row's value if the row's label passes the key's test, and
    what it held before otherwise; so for each key the last row that passes
    wins, and a row whose label passes several tests sets several keys. *)
Theorem jayPeak_last_row_wins (rows : list element) (el : element) :
  Forall (fun kt : string * (string -> bool) =>
            member_of (fold_left PerResort.jayPeak_row (rows ++ [el]) []) (fst kt)
            = if snd kt (row_label el) then row_value el
              else member_of (fold_left PerResort.jayPeak_row rows []) (fst kt))
         table_keys /\
  Forall (fun kt : string * (string -> bool) =>
            member_of (fold_left PerResort.jayPeak_row [] []) (fst kt) = JUndefined)
         table_keys.
Proof.
  split; [| repeat constructor].
  rewrite fold_left_app. cbn [fold_left].
  generalize (fold_left PerResort.jayPeak_row rows []). intros t.
  unfold PerResort.jayPeak_row, table_keys. fold (row_label el). fold (row_value el).
  cbv zeta.
  repeat constructor; cbn [fst snd];
    destruct (includes (row_label el) "base"), (includes (row_label el) "24"),
             (includes (row_label el) "48"), (includes (row_label el) "season"),
             (includes (row_label el) "open"), (includes (row_label el) "trail");
    reflexivity.
Qed.

(** ** The headers of the requests *)

Lemma own_put (k : string) (v : jsval) (o : list (string * jsval)) (k' : string) :
  own (Request.put k v o) k' = if (k =? k')%string then Some v else own o k'.
Proof.
  induction o as [| [k0 v0] rest IH]; cbn [Request.put own].
  - destruct (k =? k')%string; reflexivity.
  - destruct (String.eqb_spec k0 k) as [-> | Hne]; cbn [own].
    + destruct (k =? k')%string; reflexivity.
    + destruct (String.eqb_spec k0 k') as [-> | Hne'].
      * destruct (String.eqb_spec k k'); [congruence | reflexivity].
      * exact IH.
Qed.

(** What a key holds after a spread: what the spread object holds under it
    if it has the key, what was there before otherwise. *)
Lemma own_spread (props o : list (string * jsval)) (k : string) :
  NoDup (map fst props) ->
  own (fold_left (fun acc kv => Request.put (fst kv) (snd kv) acc) props o) k
  = match own props k with Some v => Some v | None => own o k end.
Proof.
  revert o. induction props as [| [k0 v0] rest IH]; intros o Hnd; cbn [fold_left own].
  - reflexivity.
  - cbn [map fst] in Hnd. apply NoDup_cons_iff in Hnd. destruct Hnd as [Hk0 Hnd].
    rewrite (IH _ Hnd). cbn [fst snd]. rewrite own_put.
    destruct (String.eqb_spec k0 k) as [-> | Hne]; [| reflexivity].
    destruct (own rest k) eqn:Hr; [| reflexivity].
    exfalso. apply Hk0. clear -Hr.
    induction rest as [| [k1 v1] rest IH]; [discriminate Hr |].
    cbn [own] in Hr. cbn [map fst].
    destruct (String.eqb_spec k1 k) as [-> | _]; [left; reflexivity | right; auto].
Qed.

Lemma put_keys (k : string) (v : jsval) (o : list (string * jsval)) :
  NoDup (map fst o) -> NoDup (map fst (Request.put k v o)) /\
  forall k', In k' (map fst (Request.put k v o)) -> k' = k \/ In k' (map fst o).
Proof.
  induction o as [| [k0 v0] rest IH]; cbn [Request.put map fst]; intros Hnd.
  - split; [constructor; [intros [] | constructor] |].
    intros k' [<- | []]. left. reflexivity.
  - apply NoDup_cons_iff in Hnd. destruct Hnd as [Hk0 Hnd].
    destruct (String.eqb_spec k0 k) as [-> | Hne]; cbn [map fst].
    + split; [constructor; assumption |]. intros k' [<- | H]; auto. right. right. exact H.
    + destruct (IH Hnd) as [IH1 IH2]. split.
      * constructor; [| exact IH1]. intros H. destruct (IH2 _ H); [congruence | contradiction].
      * intros k' [<- | H]; [right; left; reflexivity |].
        destruct (IH2 _ H); [left; assumption | right; right; assumption].
Qed.

Lemma spread_keys (props o : list (string * jsval)) :
  NoDup (map fst o) ->
  NoDup (map fst (fold_left (fun acc kv => Request.put (fst kv) (snd kv) acc) props o)).
Proof.
  revert o. induction props as [| [k v] rest IH]; intros o Hnd; cbn [fold_left].
  - exact Hnd.
  - apply IH. apply put_keys. exact Hnd.
Qed.

Lemma fetchPage_headers (signal : jsval) (options : list (string * jsval)) :
  NoDup (map fst options) ->
  member_of (Request.fetchPage_init signal options) "headers"
  = match own options "headers" with
    | Some h => h
    | None => JObj Request.browser_headers
    end.
Proof.
  intros Hnd. unfold Request.fetchPage_init, Request.spread_into, member_of.
  cbn [Request.entries]. rewrite (own_spread _ _ _ Hnd).
  destruct (own options "headers") as [h |]; reflexivity.
Qed.

(** X13. The merge of the default headers in [fetchPage] is undone by the
    spread that follows it: whenever the caller's options carry headers,
    the request carries exactly those, and none of the browser headers.
    So [fetchHTML] sends the four browser headers, while [fetchJSON] sends
    [Accept: application/json] alone (or, given headers by its caller,
    just those). *)
Theorem caller_headers_replace_the_defaults (signal : jsval) :
  (forall options,
     NoDup (map fst options) ->
     member_of (Request.fetchPage_init signal options) "headers"
     = match own options "headers" with
       | Some h => h
       | None => JObj Request.browser_headers
       end) /\
  (forall options,
     NoDup (map fst options) ->
     member_of (Request.fetchJSON_init signal options) "headers"
     = match own options "headers" with
       | Some h => h
       | None => JObj [("Accept", JStr "application/json")]
       end) /\
  member_of (Request.fetchJSON_init signal []) "headers"
  = JObj [("Accept", JStr "application/json")] /\
  member_of (Request.fetchHTML_init signal) "headers" = JObj Request.browser_headers.
Proof.
  split; [exact (fetchPage_headers signal) |]. split; [| split; reflexivity].
  intros options Hnd. unfold Request.fetchJSON_init.
  rewrite fetchPage_headers.
  - unfold Request.fetchJSON_options, Request.spread_into. cbn [Request.entries].
    rewrite (own_spread _ _ _ Hnd).
    destruct (own options "headers") as [h |] eqn:Hh; [reflexivity |].
    cbn [own String.eqb Ascii.eqb Bool.eqb]. unfold member_of. rewrite Hh. reflexivity.
  - unfold Request.fetchJSON_options, Request.spread_into.
    apply spread_keys. cbn. constructor; [intros [] | constructor].
Qed.

(** A caller that asks for a language only: that is all the request says. *)
Lemma caller_headers_replace_the_defaults_witness :
  member_of (Request.fetchPage_init JNull
               [("headers", JObj [("Accept-Language", JStr "fr-CA")])]) "headers"
  = JObj [("Accept-Language", JStr "fr-CA")].
Proof.
  apply (proj1 (caller_headers_replace_the_defaults JNull)
           [("headers", JObj [("Accept-Language", JStr "fr-CA")])]).
  constructor; [intros [] | constructor].
Defined.

(** ** The parsing helpers *)

(** *** The sign of a double *)

Lemma strip_zeros_nonneg (fuel : nat) :
  forall m e, 0 <= m -> 0 <= fst (strip_zeros fuel m e).
Proof.
  induction fuel as [| fuel IH]; intros m e Hm; cbn [strip_zeros]; [exact Hm |].
  destruct (Z.rem m 10 =? 0); [| exact Hm].
  apply IH. apply Z.quot_pos; lia.
Qed.

Lemma decimal_nonneg (m e : Z) : 0 <= m -> non_negative (decimal m e).
Proof.
  intros Hm. unfold decimal. destruct (m =? 0); [cbn; lia |].
  pose proof (strip_zeros_nonneg (Z.to_nat (Z.log2 (Z.abs m))) m e Hm) as H.
  destruct (strip_zeros _ m e). exact H.
Qed.

(** Rounding keeps the sign: no double of a value that is not negative is
    negative, and none is NaN. *)
Lemma double_q_nonneg (p q : Z) : 0 <= p -> 0 < q -> non_negative (double_q p q).
Proof.
  intros Hp Hq. unfold double_q. destruct (Z.eqb_spec p 0) as [-> | Hp0]; [cbn; lia |].
  unfold nearest.
  set (E := Z.max (ilog2 (Z.abs p) q - 52) (-1074)).
  set (M := rne _ _).
  assert (HM : 0 <= M).
  { apply rne_nonneg.
    - apply Z.mul_nonneg_nonneg; [lia | apply Z.pow_nonneg; lia].
    - apply Z.mul_pos_pos; [exact Hq | apply Z.pow_pos_nonneg; lia]. }
  destruct (1024 <=? Z.log2 M + E).
  - cbn. apply Z.ltb_ge. exact Hp.
  - unfold dyadic. rewrite Z.sgn_pos by lia. rewrite Z.mul_1_l.
    destruct (0 <=? E); apply decimal_nonneg;
      (apply Z.mul_nonneg_nonneg; [exact HM | apply Z.pow_nonneg; lia]).
Qed.

Lemma double_nonneg (m e : Z) : 0 <= m -> non_negative (double m e).
Proof.
  intros Hm. unfold double. destruct (Z.leb_spec 0 e).
  - apply double_q_nonneg; [| lia].
    apply Z.mul_nonneg_nonneg; [exact Hm | apply Z.pow_nonneg; lia].
  - apply double_q_nonneg; [exact Hm | apply Z.pow_pos_nonneg; lia].
Qed.

Lemma non_negative_number (n : number) : non_negative n -> is_NaN n = false.
Proof. destruct n; cbn; [intros [] | reflexivity | reflexivity]. Qed.

(** *** Integers a double holds exactly *)

(** With enough fuel, stripping the trailing zeros does not depend on the
    fuel. *)
Lemma strip_zeros_fuel (f1 : nat) :
  forall f2 m e,
    m <> 0 ->
    Z.log2 (Z.abs m) <= Z.of_nat f1 -> Z.log2 (Z.abs m) <= Z.of_nat f2 ->
    strip_zeros f1 m e = strip_zeros f2 m e.
Proof.
  induction f1 as [| f1 IH]; intros f2 m e Hm H1 H2.
  - assert (Hone : Z.abs m = 1).
    { destruct (Z.le_gt_cases 2 (Z.abs m)) as [Hge | Hlt]; [| lia].
      pose proof (Z.log2_le_mono 2 (Z.abs m) Hge) as Hl. cbn in Hl, H1. lia. }
    destruct f2 as [| f2]; cbn [strip_zeros]; [reflexivity |].
    assert (Hrem : Z.rem m 10 <> 0).
    { destruct (Z.abs_eq_or_opp m) as [Ha | Ha]; rewrite Ha in Hone.
      - rewrite Hone. discriminate.
      - assert (m = -1) by lia. subst m. discriminate. }
    apply Z.eqb_neq in Hrem. rewrite Hrem. reflexivity.
  - cbn [strip_zeros]. destruct (Z.eqb_spec (Z.rem m 10) 0) as [Hrem | Hrem].
    + pose proof (Z.quot_rem' m 10) as Hqr. rewrite Hrem, Z.add_0_r in Hqr.
      assert (Hq0 : Z.quot m 10 <> 0) by lia.
      assert (Hlog : Z.log2 (Z.abs (Z.quot m 10)) + 3 <= Z.log2 (Z.abs m)).
      { assert (Ha : Z.abs m = 10 * Z.abs (Z.quot m 10)) by lia.
        rewrite Ha.
        assert (Hpos : 0 < Z.abs (Z.quot m 10)) by lia.
        assert (Hl : Z.log2 (Z.abs (Z.quot m 10) * 2 ^ 3) <= Z.log2 (10 * Z.abs (Z.quot m 10)))
          by (apply Z.log2_le_mono; change (2 ^ 3) with 8; lia).
        rewrite Z.log2_mul_pow2 in Hl by lia. lia. }
      pose proof (Z.log2_nonneg (Z.abs (Z.quot m 10))) as Hnn.
      destruct f2 as [| f2]; [cbn in H2; lia |]. cbn [strip_zeros].
      apply Z.eqb_eq in Hrem. rewrite Hrem. apply IH; [exact Hq0 | lia | lia].
    + destruct f2 as [| f2]; cbn [strip_zeros]; [reflexivity |].
      apply Z.eqb_neq in Hrem. rewrite Hrem. reflexivity.
Qed.

Lemma decimal_shift1 (m e : Z) : decimal (10 * m) (e - 1) = decimal m e.
Proof.
  unfold decimal. destruct (Z.eqb_spec m 0) as [-> | Hm]; [reflexivity |].
  destruct (Z.eqb_spec (10 * m) 0) as [H | _]; [lia |].
  assert (Hlog : Z.log2 (Z.abs m) + 3 <= Z.log2 (Z.abs (10 * m))).
  { replace (Z.abs (10 * m)) with (10 * Z.abs m) by lia.
    assert (Hl : Z.log2 (Z.abs m * 2 ^ 3) <= Z.log2 (10 * Z.abs m))
      by (apply Z.log2_le_mono; change (2 ^ 3) with 8; lia).
    rewrite Z.log2_mul_pow2 in Hl by lia. lia. }
  pose proof (Z.log2_nonneg (Z.abs m)) as Hnn.
  destruct (Z.to_nat (Z.log2 (Z.abs (10 * m)))) as [| f] eqn:Hf; [lia |].
  cbn [strip_zeros].
  replace (Z.rem (10 * m) 10) with 0 by (rewrite Z.mul_comm, Z.rem_mul; lia).
  cbn [Z.eqb]. rewrite (Z.mul_comm 10 m), Z.quot_mul by lia.
  replace (e - 1 + 1) with e by lia.
  rewrite (strip_zeros_fuel f (Z.to_nat (Z.log2 (Z.abs m))) m e Hm); [reflexivity | lia | lia].
Qed.

Lemma decimal_shift (n : nat) :
  forall m e, decimal (m * 10 ^ Z.of_nat n) (e - Z.of_nat n) = decimal m e.
Proof.
  induction n as [| n IH]; intros m e.
  - cbn [Z.of_nat]. rewrite Z.pow_0_r, Z.mul_1_r, Z.sub_0_r. reflexivity.
  - rewrite Nat2Z.inj_succ, Z.pow_succ_r by lia.
    replace (m * (10 * 10 ^ Z.of_nat n)) with (10 * (m * 10 ^ Z.of_nat n)) by ring.
    replace (e - Z.succ (Z.of_nat n)) with (e - Z.of_nat n - 1) by lia.
    rewrite decimal_shift1. apply IH.
Qed.

Lemma ilog2_integer (z : Z) : 0 < z -> ilog2 z 1 = Z.log2 z.
Proof.
  intros Hz. unfold ilog2. change (Z.log2 1) with 0. rewrite Z.sub_0_r.
  pose proof (Z.log2_nonneg z). pose proof (Z.log2_spec z Hz) as [Hl _].
  rewrite (Z.max_r 0 (Z.log2 z)), (Z.max_l 0 (- Z.log2 z)) by lia.
  rewrite Z.pow_0_r, Z.mul_1_l, Z.mul_1_r.
  destruct (Z.leb_spec (2 ^ Z.log2 z) z); [reflexivity | lia].
Qed.

(** The integers up to [2^53] are doubles. *)
Lemma double_integer (z : Z) : 0 <= z <= 2 ^ 53 -> double z 0 = integer z.
Proof.
  intros Hz. unfold double, integer. change (0 <=? 0) with true. cbv iota.
  rewrite Z.pow_0_r, Z.mul_1_r.
  unfold double_q. destruct (Z.eqb_spec z 0) as [-> | Hz0]; [reflexivity |].
  rewrite Z.abs_eq, Z.sgn_pos by lia. unfold nearest. rewrite ilog2_integer by lia.
  pose proof (Z.log2_nonneg z) as Hnn.
  assert (Hlog : Z.log2 z <= 53).
  { pose proof (Z.log2_le_mono z (2 ^ 53) ltac:(lia)) as Hl.
    rewrite Z.log2_pow2 in Hl by lia. exact Hl. }
  rewrite (Z.max_l (Z.log2 z - 52) (-1074)) by lia.
  remember (Z.log2 z - 52) as E eqn:HeqE.
  destruct (Z.le_gt_cases 1 E) as [HE | HE].
  - assert (HE1 : E = 1) by lia. assert (Hz53 : z = 2 ^ 53).
    { pose proof (Z.log2_spec z ltac:(lia)) as [Hl _].
      replace (Z.log2 z) with 53 in Hl by lia. lia. }
    subst z E. rewrite HE1. vm_compute. reflexivity.
  - rewrite (Z.max_r 0 (- E)), (Z.max_l 0 E) by lia.
    rewrite Z.pow_0_r, Z.mul_1_r.
    assert (Hr : rne (z * 2 ^ (- E)) 1 = z * 2 ^ (- E)).
    { rewrite <- (Z.mul_1_r (z * 2 ^ (- E))) at 1. apply rne_exact. lia. }
    rewrite !Hr.
    assert (HM : Z.log2 (z * 2 ^ (- E)) + E < 1024).
    { rewrite Z.log2_mul_pow2 by lia. lia. }
    destruct (Z.leb_spec 1024 (Z.log2 (z * 2 ^ (- E)) + E)); [lia |].
    rewrite Z.mul_1_l. unfold dyadic.
    destruct (Z.leb_spec 0 E) as [H0 | H0].
    + assert (HE0 : E = 0) by lia. rewrite HE0. cbn [Z.opp].
      rewrite !Z.pow_0_r, !Z.mul_1_r. reflexivity.
    + replace (z * 2 ^ (- E) * 5 ^ (- E)) with (z * 10 ^ (- E))
        by (change 10 with (2 * 5); rewrite Z.pow_mul_l; ring).
      pose proof (decimal_shift (Z.to_nat (- E)) z 0) as Hs.
      rewrite Z2Nat.id in Hs by lia. replace (0 - - E) with E in Hs by lia. exact Hs.
Qed.

(** *** [parseInches] and [parseInt2] *)

Lemma filter_all (p : ascii -> bool) (s : string) :
  all_chars p (filter_chars p s) = true.
Proof.
  induction s as [| c s IH]; cbn; [reflexivity |].
  destruct (p c) eqn:Hc; cbn; [rewrite Hc |]; exact IH.
Qed.

Lemma filter_fixed (p : ascii -> bool) (s : string) :
  all_chars p s = true -> filter_chars p s = s.
Proof.
  induction s as [| c s IH]; cbn; [reflexivity |].
  intros H. apply andb_prop in H. destruct H as [-> H]. rewrite IH by exact H. reflexivity.
Qed.

Lemma unsigned_head (c : ascii) (s : string) :
  numeric_char c = true ->
  match String c s with
  | String "-" r => (true, r)
  | String "+" r => (false, r)
  | _ => (false, String c s)
  end = (false, String c s)
  /\ strip_prefix "Infinity" (String c s) = None
  /\ trimStart (String c s) = String c s.
Proof.
  intros H. each_char c; vm_compute in H; try discriminate H; repeat split; reflexivity.
Qed.

Lemma digit_value_nonneg (c : ascii) (d : Z) : digit_value c = Some d -> 0 <= d.
Proof.
  unfold digit_value.
  repeat match goal with
         | |- context [if ?b then _ else _] => destruct b eqn:?
         end; intros [= <-]; lia.
Qed.

Lemma digits_value_from_nonneg (r : Z) (s : string) :
  0 <= r -> forall acc, 0 <= acc -> 0 <= digits_value_from r acc s.
Proof.
  intros Hr. induction s as [| c s IH]; intros acc Hacc; cbn; [exact Hacc |].
  apply IH. destruct (digit_value c) as [d |] eqn:Hd.
  - apply digit_value_nonneg in Hd. nia.
  - nia.
Qed.

Lemma digits_value_nonneg (s : string) : 0 <= digits_value 10 s.
Proof. apply digits_value_from_nonneg; lia. Qed.

(** A text of digits and dots parses to nothing or to a Number that is not
    negative. *)
Lemma parseFloat_numeric (s : string) :
  all_chars numeric_char s = true ->
  parseFloat_string s = NaN \/ non_negative (parseFloat_string s).
Proof.
  destruct s as [| c s]; [left; reflexivity |].
  cbn [all_chars]. intros H. apply andb_prop in H. destruct H as [Hc _].
  destruct (unsigned_head c s Hc) as [Hsign [Hinf Htrim]].
  unfold parseFloat_string. rewrite Htrim. unfold parseDecimalPrefix.
  rewrite Hsign, Hinf.
  repeat match goal with
         | |- context [match ?X with pair _ _ => _ end] => destruct X
         | |- context [if ?b then _ else _] => destruct b
         end;
    first [left; reflexivity | right; apply double_nonneg, digits_value_nonneg].
Qed.

(** X14. [parseInches] answers [null] or a Number that is neither NaN nor
    negative: a minus sign is one of the characters it removes. On a string
    it reads only the digits and dots. The Number is [Infinity] when the
    digits spell more than a double holds. *)
Theorem parseInches_never_negative :
  (forall str r,
     PerResort.parseInches str = Return r ->
     r = JNull \/ exists n, r = JNum n /\ non_negative n) /\
  (forall s,
     PerResort.parseInches (JStr s)
     = PerResort.parseInches (JStr (filter_chars numeric_char s))) /\
  PerResort.parseInches (JStr (repeat_char "9" 310)) = Return (JNum (Infinity false)).
Proof.
  split; [| split].
  - intros str r. unfold PerResort.parseInches.
    destruct (negb (truthy str)); [intros [= <-]; left; reflexivity |].
    destruct (toString str) as [s |]; cbn [bind]; [| discriminate].
    fold numeric_char.
    destruct (parseFloat_numeric _ (filter_all numeric_char s)) as [-> | H].
    + intros [= <-]. left. reflexivity.
    + rewrite (non_negative_number _ H).
      intros [= <-]. right. eexists. split; [reflexivity | exact H].
  - intros s. unfold PerResort.parseInches. cbn [truthy toString bind].
    fold numeric_char.
    rewrite (filter_fixed numeric_char (filter_chars numeric_char s))
      by apply filter_all.
    destruct s as [| c s]; [reflexivity |]. cbn [String.eqb negb].
    destruct (filter_chars numeric_char (String c s)) as [| c' s'] eqn:Hf;
      reflexivity.
  - vm_compute. reflexivity.
Qed.

(** A signed text: the sign is dropped. *)
Lemma parseInches_never_negative_witness :
  PerResort.parseInches (JStr "-12.5 in") = Return (JNum (Finite 125 (-1))) /\
  (JNum (Finite 125 (-1)) = JNull \/
   exists n, JNum (Finite 125 (-1)) = JNum n /\ non_negative n).
Proof.
  split; [vm_compute; reflexivity |].
  apply (proj1 parseInches_never_negative (JStr "-12.5 in")).
  vm_compute. reflexivity.
Defined.

Lemma digit_is_numeric (c : ascii) : is_digit c = true -> numeric_char c = true.
Proof. intros H. unfold numeric_char. rewrite H. reflexivity. Qed.

Lemma digit_is_radix10 (c : ascii) : is_digit c = true -> is_radix_digit 10 c = true.
Proof.
  unfold is_digit, is_radix_digit, digit_value. intros H. rewrite H.
  apply andb_prop in H. destruct H as [H1 H2].
  apply Z.leb_le in H1, H2. apply Z.ltb_lt. lia.
Qed.

Lemma span_all (p q : ascii -> bool) (s : string) :
  (forall c, p c = true -> q c = true) ->
  all_chars p s = true -> span q s = (s, EmptyString).
Proof.
  intros Hpq. induction s as [| c s IH]; cbn; [reflexivity |].
  intros H. apply andb_prop in H. destruct H as [Hc H].
  rewrite (Hpq c Hc), (IH H). reflexivity.
Qed.

(** A text of digits reads as the double nearest to the decimal number it
    spells. *)
Lemma parseInt_digits (s : string) :
  all_chars is_digit s = true ->
  parseInt_string s (Some 10) =
  if (s =? "")%string then NaN else double (digits_value 10 s) 0.
Proof.
  intros H. destruct s as [| c s]; [reflexivity |].
  assert (Hc : numeric_char c = true).
  { cbn in H. apply andb_prop in H. apply digit_is_numeric, H. }
  destruct (unsigned_head c s Hc) as [Hsign [_ Htrim]].
  unfold parseInt_string. rewrite Htrim, Hsign.
  change (negb (10 =? 0) && ((10 <? 2) || (36 <? 10))) with false.
  change ((10 =? 0) || (10 =? 16)) with false.
  cbv beta iota zeta.
  rewrite (span_all is_digit (is_radix_digit 10) _ digit_is_radix10 H).
  reflexivity.
Qed.

(** X15. [parseInt2] on a string answers the double nearest to the decimal
    number spelled by all the digits of the string taken together, or
    [null] when there is none; up to [2^53] that double is the number
    itself, above it need not be. Whatever [parseInt2] is given, its answer
    is [null] or a Number that is neither NaN nor negative. *)
Theorem parseInt2_reads_the_digits :
  (forall s,
     PerResort.parseInt2 (JStr s) =
     Return (if (filter_chars is_digit s =? "")%string then JNull
             else JNum (double (digits_value 10 (filter_chars is_digit s)) 0))) /\
  (forall z, 0 <= z <= 2 ^ 53 -> double z 0 = integer z) /\
  (forall s, 0 <= digits_value 10 s) /\
  (forall str r,
     PerResort.parseInt2 str = Return r ->
     r = JNull \/ exists n, r = JNum n /\ non_negative n) /\
  PerResort.parseInt2 (JStr "9007199254740993")
  = Return (JNum (Finite 9007199254740992 0)) /\
  PerResort.parseInt2 (JStr (repeat_char "9" 310)) = Return (JNum (Infinity false)).
Proof.
  assert (Hparse : forall s,
            (let n := parseInt_string (filter_chars is_digit s) (Some 10) in
             if is_NaN n then JNull else JNum n)
            = if (filter_chars is_digit s =? "")%string then JNull
              else JNum (double (digits_value 10 (filter_chars is_digit s)) 0)).
  { intros s. cbv zeta. rewrite (parseInt_digits _ (filter_all is_digit s)).
    destruct (filter_chars is_digit s =? "")%string; [reflexivity |].
    rewrite (non_negative_number _ (double_nonneg _ 0 (digits_value_nonneg _))).
    reflexivity. }
  split; [| split; [exact double_integer | split; [exact digits_value_nonneg | split; [| split]]]].
  - intros s. unfold PerResort.parseInt2. cbn [truthy toString bind].
    destruct s as [| c s]; [reflexivity |]. cbn [String.eqb negb].
    f_equal. apply Hparse.
  - intros str r. unfold PerResort.parseInt2.
    destruct (negb (truthy str)); [intros [= <-]; left; reflexivity |].
    destruct (toString str) as [s |]; cbn [bind]; [| discriminate].
    intros [= <-]. rewrite Hparse.
    destruct (filter_chars is_digit s =? "")%string; [left; reflexivity |].
    right. eexists. split; [reflexivity | apply double_nonneg, digits_value_nonneg].
  - vm_compute. reflexivity.
  - vm_compute. reflexivity.
Qed.

(** [116 of 142] reads as 116142. *)
Lemma parseInt2_reads_the_digits_witness :
  PerResort.parseInt2 (JStr "116 of 142") = Return (JNum (Finite 116142 0)) /\
  double 116142 0 = integer 116142 /\
  (JNum (Finite 116142 0) = JNull \/
   exists n, JNum (Finite 116142 0) = JNum n /\ non_negative n).
Proof.
  split; [vm_compute; reflexivity |]. split.
  - apply (proj1 (proj2 parseInt2_reads_the_digits) 116142). split; vm_compute; discriminate.
  - apply (proj1 (proj2 (proj2 (proj2 parseInt2_reads_the_digits))) (JStr "116 of 142")).
    vm_compute. reflexivity.
Defined.

(** *** The base depth of [leMassif] *)

Lemma value_product (m1 e1 m2 e2 : Z) :
  (value (m1 * m2) (e1 + e2) == value m1 e1 * value m2 e2)%Q.
Proof.
  unfold value. rewrite inject_Z_mult, Qpower_plus by exact ten_nonzero. ring.
Qed.

(** Multiplying by the double of [2.54] and rounding, then dividing by
    2.54: what is left of the value itself. *)
Lemma product_error (x d P y : Q) :
  (254 # 100 <= d -> d <= (254 # 100) + (4 # 100000000000000000) ->
   - (1000000000 # 1) <= x -> x <= 1000000000 # 1 ->
   - (4294967296 # 9007199254740992) <= P - x * d ->
   P - x * d <= 4294967296 # 9007199254740992 ->
   y * (254 # 100) == P ->
   (- (10000000000 # 1) <= P /\ P <= 10000000000 # 1) /\
   - (3 # 10000000) <= y - x /\ y - x <= 3 # 10000000)%Q.
Proof.
  intros Hd1 Hd2 Hx1 Hx2 HP1 HP2 Hy.
  assert (Hlo : (- (4 # 100000000) <= x * (d - (254 # 100)))%Q)
    by (destruct (Qlt_le_dec x 0); nra).
  assert (Hhi : (x * (d - (254 # 100)) <= 4 # 100000000)%Q)
    by (destruct (Qlt_le_dec x 0); nra).
  repeat split; lra.
Qed.

(** X16. The expression [cmToIn(x * 2.54)] of [leMassif], for [x] of
    magnitude at most [10^9], answers an integer within [1/2 + 1/10^6] of
    [x] itself: the multiplication undoes the conversion, and the two
    roundings of doubles cost less than a millionth. At [15.5] the answer
    is 15, and a value near the largest double overflows to [Infinity]. *)
Theorem times_then_cmToIn_rounds :
  (forall m e,
     (Qabs (value m e) <= inject_Z (10 ^ 9))%Q ->
     exists z n,
       (cm <- times (JNum (Finite m e)) (JNum (double 254 (-2))) ;; PerResort.cmToIn cm)
       = Return (JNum n) /\
       denotes n (inject_Z z) /\
       (Qabs (inject_Z z - value m e) <= (1 # 2) + (1 # 1000000))%Q) /\
  (cm <- times (JNum (Finite 155 (-1))) (JNum (double 254 (-2))) ;; PerResort.cmToIn cm)
  = Return (JNum (Finite 15 0)) /\
  (cm <- times (JNum (Finite 1 308)) (JNum (double 254 (-2))) ;; PerResort.cmToIn cm)
  = Return (JNum (Infinity false)).
Proof.
  split; [| split; vm_compute; reflexivity].
  intros m e Hx. apply Qabs_Qle_condition in Hx. destruct Hx as [Hx1 Hx2].
  change (inject_Z (10 ^ 9)) with (1000000000 # 1) in *.
  unfold times. cbn [toNumber bind]. rewrite literal_254. cbn [num_mul].
  set (D := 254000000000000003552713678800500929355621337890625).
  destruct literal_254_value as [Hd1 Hd2]. fold D in Hd1, Hd2.
  pose proof (value_product m e D (-50)) as Hprod.
  set (x := value m e) in *. set (d := value D (-50)) in *.
  assert (Hb : (Qabs (value (m * D) (e + -50)) <= inject_Z (2 ^ 32))%Q).
  { rewrite Hprod. apply Qabs_Qle_condition.
    change (inject_Z (2 ^ 32)) with (4294967296 # 1).
    destruct (Qlt_le_dec x 0); split; nra. }
  destruct (double_error (m * D) (e + -50) 32 ltac:(lia) Hb) as [m' [e' [-> Hv]]].
  rewrite Hprod in Hv.
  change (inject_Z (2 ^ 32) / inject_Z (2 ^ 53))%Q
    with (4294967296 # 9007199254740992) in Hv.
  apply Qabs_Qle_condition in Hv. destruct Hv as [Hv1 Hv2].
  assert (Hy : (value m' e' / (254 # 100) * (254 # 100) == value m' e')%Q)
    by (field; discriminate).
  destruct (product_error x d (value m' e') (value m' e' / (254 # 100))
              Hd1 Hd2 Hx1 Hx2 Hv1 Hv2 Hy) as [[HP1 HP2] [Hy1 Hy2]].
  assert (HP : (Qabs (value m' e') <= inject_Z (10 ^ 10))%Q).
  { apply Qabs_Qle_condition. change (inject_Z (10 ^ 10)) with (10000000000 # 1).
    split; assumption. }
  destruct (cmToIn_within m' e' HP) as [z [n [Hcm [Hz Hr]]]].
  exists z, n. split; [exact Hcm |]. split; [exact Hz |].
  apply Qabs_Qle_condition in Hr. destruct Hr as [Hr1 Hr2].
  apply Qabs_Qle_condition.
  set (y := (value m' e' / (254 # 100))%Q) in *. set (zq := inject_Z z) in *.
  split; lra.
Qed.

(** A depth of 20.3 read off the page. *)
Lemma times_then_cmToIn_rounds_witness :
  exists z n,
    (cm <- times (JNum (Finite 203 (-1))) (JNum (double 254 (-2))) ;; PerResort.cmToIn cm)
    = Return (JNum n) /\
    denotes n (inject_Z z) /\
    (Qabs (inject_Z z - value 203 (-1)) <= (1 # 2) + (1 # 1000000))%Q.
Proof.
  apply (proj1 times_then_cmToIn_rounds 203 (-1)).
  vm_compute. discriminate.
Defined.

(** ** Storage and the query handler *)

Lemma getData_selected (b : Gateway.backend) :
  Gateway.getData b =
  Fulfilled match selected b with Gateway.Holds v => v | _ => JNull end.
Proof.
  unfold Gateway.getData, Gateway.kvGet, Gateway.localGet, selected.
  destruct (Gateway.isProduction b).
  - destruct (Gateway.kv b Gateway.KV_KEY); reflexivity.
  - destruct (Gateway.file b); reflexivity.
Qed.

Lemma get_truthy (data : jsval) (k : string) :
  truthy data = true -> exists v, get data k = Return v.
Proof.
  destruct data; cbn; try discriminate; eauto.
Qed.

Lemma get_field (data : jsval) (k : string) :
  truthy data = true -> get data k = Return (field data k).
Proof.
  intros Ht. unfold field. destruct (get_truthy data k Ht) as [v ->]. reflexivity.
Qed.

(** What a GET is answered. *)
Lemma conditions_get (b : Gateway.backend) :
  Conditions.handler b "GET" =
  match selected b with
  | Gateway.Holds data =>
      if truthy data then
        {| Conditions.status_code := 200;
           Conditions.headers := Conditions.cache_headers;
           Conditions.json :=
             Conditions.Latest true (field data "scrapedAt") (field data "storedAt")
               (field data "successCount") (field data "totalCount")
               (oror (field data "mountains") (JArr [])) |}
      else unavailable
  | _ => unavailable
  end.
Proof.
  unfold Conditions.handler.
  change ("GET" =? "OPTIONS")%string with false.
  change ("GET" =? "GET")%string with true. cbn [negb].
  rewrite getData_selected. cbn [await].
  destruct (selected b) as [| data |]; try reflexivity.
  destruct (truthy data) eqn:Ht; cbn [negb]; [| reflexivity].
  rewrite !(get_field data _ Ht). reflexivity.
Qed.

(** X17. The query handler never answers 500: both backends swallow
    their read failures, so the handler's own catch is unreachable. A
    method other than GET and OPTIONS is answered 405; a GET is answered
    200 when the selected backend holds a truthy value and 503 otherwise
    (nothing stored, or the store unreadable). *)
Theorem conditions_never_fails (b : Gateway.backend) (method : string) :
  Conditions.status_code (Conditions.handler b method) <> 500 /\
  (method <> "OPTIONS" -> method <> "GET" ->
   Conditions.status_code (Conditions.handler b method) = 405) /\
  (method = "GET" ->
   Conditions.status_code (Conditions.handler b method)
   = match selected b with
     | Gateway.Holds data => if truthy data then 200 else 503
     | _ => 503
     end).
Proof.
  destruct (String.eqb_spec method "GET") as [-> | Hget].
  - rewrite conditions_get.
    split; [| split; [intros _ H; contradiction H; reflexivity | intros _]];
      destruct (selected b) as [| data |]; try discriminate; try reflexivity;
      destruct (truthy data); try discriminate; reflexivity.
  - unfold Conditions.handler.
    destruct (String.eqb_spec method "OPTIONS") as [-> | Hopt].
    + cbn. split; [discriminate | split; [intros H; contradiction H; reflexivity |]].
      intros H; discriminate H.
    + destruct (String.eqb_spec method "GET") as [-> | _]; [contradiction Hget; reflexivity |].
      cbn. split; [discriminate | split; [reflexivity | intros H; contradiction]].
Qed.

Lemma conditions_never_fails_witness :
  Conditions.status_code (Conditions.handler Cases.fresh "POST") = 405 /\
  Conditions.status_code (Conditions.handler Cases.fresh "GET") = 503.
Proof.
  split.
  - apply (proj1 (proj2 (conditions_never_fails Cases.fresh "POST"))); discriminate.
  - apply (proj2 (proj2 (conditions_never_fails Cases.fresh "GET"))). reflexivity.
Defined.

Lemma integer_finite (z : Z) : exists m e, integer z = Finite m e.
Proof.
  unfold integer, decimal. destruct (z =? 0); [eauto |].
  destruct (strip_zeros _ z 0). eauto.
Qed.

Lemma jsonify_integer (z : Z) :
  Gateway.jsonify (JNum (integer z)) = JNum (integer z).
Proof. destruct (integer_finite z) as [m [e ->]]. reflexivity. Qed.

(** After a write that went through, the selected slot holds the payload
    as JSON. *)
Lemma setData_selected (w : world) (b b' : Gateway.backend) (value : AggregateSnapshot) :
  Gateway.setData w b value = (Fulfilled true, b') ->
  selected b' = Gateway.Holds (Gateway.jsonify (Gateway.payload w value)).
Proof.
  unfold Gateway.setData, Gateway.kvSet, Gateway.localSet, selected. cbv zeta.
  destruct (Gateway.isProduction b) eqn:Hb; intros [= Hsaved <-];
    cbn [Gateway.isProduction Gateway.kv Gateway.file];
    rewrite ?String.eqb_refl, Hsaved; reflexivity.
Qed.

(** What a GET is answered from a slot holding a stored payload. *)
Lemma payload_served (w : world) (b' : Gateway.backend) (value : AggregateSnapshot) :
  selected b' = Gateway.Holds (Gateway.jsonify (Gateway.payload w value)) ->
  Conditions.handler b' "GET" =
  {| Conditions.status_code := 200;
     Conditions.headers := Conditions.cache_headers;
     Conditions.json :=
       Conditions.Latest true
         (JStr (scrapedAt value)) (JStr (toISOString w))
         (JNum (integer (successCount value)))
         (JNum (integer (totalCount value)))
         (JArr (map (fun r => Gateway.jsonify (Gateway.record_object r))
                    (mountains value))) |}.
Proof.
  intros H. rewrite conditions_get, H.
  unfold Gateway.payload.
  destruct (integer_finite (successCount value)) as [m1 [e1 ->]].
  destruct (integer_finite (totalCount value)) as [m2 [e2 ->]].
  cbn [Gateway.jsonify truthy].
  unfold field. cbn [get own String.eqb Ascii.eqb Bool.eqb oror truthy].
  rewrite map_map. reflexivity.
Qed.

Lemma kept_cons (k : string) (x : jsval) (rest : list (string * jsval)) :
  kept ((k, x) :: rest) =
  match x with
  | JUndefined => kept rest
  | _ => (k, Gateway.jsonify x) :: kept rest
  end.
Proof. destruct x; reflexivity. Qed.

Lemma own_kept_absent (props : list (string * jsval)) (k : string) :
  ~ In k (map fst props) -> own (kept props) k = None.
Proof.
  induction props as [| [k' x] rest IH]; intros Hk; [reflexivity |].
  cbn in Hk. rewrite kept_cons.
  assert (Hne : (k' =? k)%string = false) by (apply String.eqb_neq; tauto).
  destruct x; cbn [own]; rewrite ?Hne; apply IH; tauto.
Qed.

(** Reading a key of a stored object whose keys are distinct. *)
Lemma get_stored (props : list (string * jsval)) (k : string) :
  NoDup (map fst props) ->
  get (Gateway.jsonify (JObj props)) k = Return (stored_field (member_of props k)).
Proof.
  intros Hnd.
  change (Gateway.jsonify (JObj props)) with (JObj (kept props)).
  cbn [get]. f_equal. unfold member_of.
  induction props as [| [k' x] rest IH]; [reflexivity |].
  cbn [map fst] in Hnd. apply NoDup_cons_iff in Hnd. destruct Hnd as [Hk' Hnd].
  rewrite kept_cons. cbn [own].
  destruct (String.eqb_spec k' k) as [-> | Hne].
  - destruct x; cbn [own]; rewrite ?String.eqb_refl; try reflexivity.
    rewrite (own_kept_absent rest k Hk'). reflexivity.
  - apply String.eqb_neq in Hne.
    destruct x; cbn [own]; rewrite ?Hne; apply IH; exact Hnd.
Qed.

Lemma record_keys_distinct : NoDup (map fst record_fields).
Proof.
  unfold record_fields. cbn [map fst].
  repeat (constructor; [cbn; intuition discriminate |]). constructor.
Qed.

Lemma stored_fields (r : CanonicalConditionRecord) :
  Forall (fun kf =>
            get (Gateway.jsonify (Gateway.record_object r)) (fst kf)
            = Return (stored_field (snd kf r)))
         record_fields.
Proof.
  unfold Gateway.record_object, record_fields.
  repeat (constructor;
          [cbn [fst snd]; rewrite get_stored by exact record_keys_distinct;
           reflexivity |]).
  constructor.
Qed.

(** X18. Each of the fifteen fields of a record reads, once the record is
    stored, as the original value passed through JSON: strings, finite
    Numbers and [null] are unchanged, a field left out stays absent, and
    [NaN] and the infinities come back as [null]. *)
Theorem stored_record_fields (r : CanonicalConditionRecord) :
  Forall (fun kf =>
            get (Gateway.jsonify (Gateway.record_object r)) (fst kf)
            = Return (stored_field (snd kf r)))
         record_fields /\
  (forall s, stored_field (JStr s) = JStr s) /\
  (forall m e, stored_field (JNum (Finite m e)) = JNum (Finite m e)) /\
  stored_field JNull = JNull /\
  stored_field JUndefined = JUndefined /\
  stored_field (JNum NaN) = JNull /\
  (forall neg, stored_field (JNum (Infinity neg)) = JNull).
Proof.
  split; [exact (stored_fields r) | repeat split; reflexivity].
Qed.

Lemma present_stored (v : jsval) :
  present (stored_field v) = present v && storable v.
Proof. destruct v as [| | | [| |] | | |]; reflexivity. Qed.

Lemma served_base (r : CanonicalConditionRecord) :
  get (Gateway.jsonify (Gateway.record_object r)) "base"
  = Return (stored_field (base r)).
Proof.
  pose proof (stored_fields r) as H.
  apply Forall_inv_tail in H. apply Forall_inv in H. exact H.
Qed.

Lemma served_live_le (ms : list CanonicalConditionRecord) :
  served_live (map (fun r => Gateway.jsonify (Gateway.record_object r)) ms) <= live ms /\
  (Forall (fun r => storable (base r) = true) ms ->
   served_live (map (fun r => Gateway.jsonify (Gateway.record_object r)) ms) = live ms).
Proof.
  unfold served_live, live.
  induction ms as [| r ms [IHle IHeq]]; [split; reflexivity |].
  cbn [map filter]. rewrite served_base, present_stored.
  split.
  - destruct (present (base r)); cbn [andb]; [| exact IHle].
    destruct (storable (base r)); cbn [List.length]; lia.
  - intros H. apply Forall_cons_iff in H. destruct H as [Hr H].
    rewrite Hr, andb_true_r. specialize (IHeq H).
    destruct (present (base r)); cbn [List.length]; lia.
Qed.

Lemma PerResort_run_inv (w : world) (s : AggregateSnapshot) :
  PerResort.runAllScrapers w = Fulfilled s ->
  s = PerResort.aggregate w (map (fun f => PerResort.call f w) PerResort.ALL_SCRAPERS).
Proof. intros H. injection H as H'. symmetry. exact H'. Qed.

(** The counters of a completed run of either pipeline. *)
Lemma completed_run_counts (w : world) (s : AggregateSnapshot) :
  SnoCountry.runAllScrapers w = Fulfilled s \/
  PerResort.runAllScrapers w = Fulfilled s ->
  successCount s = live (mountains s) /\
  totalCount s = Z.of_nat (List.length (mountains s)) /\
  scrapedAt s = toISOString w.
Proof.
  intros [H | H].
  - destruct (SnoCountry_counts w s H) as [Hsc _].
    destruct (SnoCountry_run_inv w s H) as [_ [_ [_ [Ht Hat]]]]. auto.
  - apply PerResort_run_inv in H. subst s.
    destruct (aggregate_counts w (map (fun f => PerResort.call f w) PerResort.ALL_SCRAPERS))
      as [[Hsc _] Hlen].
    split; [exact Hsc |]. split.
    + rewrite aggregate_totalCount, Hlen, length_combine, length_map, Nat.min_id.
      reflexivity.
    + unfold PerResort.aggregate. destruct (fold_left _ _ _). reflexivity.
Qed.

(** X19. End to end: after a completed run of either pipeline whose
    snapshot was written, the query handler serves the run's counters, as
    many records as [totalCount], and at most [successCount] records with a
    base depth, exactly [successCount] when no base depth is [NaN] or
    infinite. *)
Theorem served_counts_agree (w : world) (b b' : Gateway.backend)
    (s : AggregateSnapshot) :
  SnoCountry.runAllScrapers w = Fulfilled s \/
  PerResort.runAllScrapers w = Fulfilled s ->
  Gateway.setData w b s = (Fulfilled true, b') ->
  exists scrapedAt storedAt objects,
    Conditions.json (Conditions.handler b' "GET")
    = Conditions.Latest true scrapedAt storedAt
        (JNum (integer (successCount s))) (JNum (integer (totalCount s)))
        (JArr objects) /\
    Z.of_nat (List.length objects) = totalCount s /\
    served_live objects <= successCount s /\
    (Forall (fun r => storable (base r) = true) (mountains s) ->
     served_live objects = successCount s).
Proof.
  intros Hrun Hset.
  destruct (completed_run_counts w s Hrun) as [Hsc [Htc _]].
  pose proof (payload_served w b' s (setData_selected w b b' s Hset)) as Hget.
  rewrite Hget. cbn [Conditions.json].
  eexists. eexists. eexists. split; [reflexivity |].
  destruct (served_live_le (mountains s)) as [Hle Heq].
  rewrite length_map, Hsc, Htc. auto.
Qed.

(** The deduplicated Vermont feed, stored and served: one mountain, one
    counted. *)
Lemma served_counts_agree_witness :
  exists s b',
    SnoCountry.runAllScrapers Cases.listed_twice = Fulfilled s /\
    Gateway.setData Cases.listed_twice Cases.fresh s = (Fulfilled true, b') /\
    successCount s = 1 /\ totalCount s = 1 /\
    exists scrapedAt storedAt objects,
      Conditions.json (Conditions.handler b' "GET")
      = Conditions.Latest true scrapedAt storedAt
          (JNum (integer (successCount s))) (JNum (integer (totalCount s)))
          (JArr objects) /\
      Z.of_nat (List.length objects) = totalCount s /\
      served_live objects <= successCount s /\
      (Forall (fun r => storable (base r) = true) (mountains s) ->
       served_live objects = successCount s).
Proof.
  eexists. eexists. split; [vm_compute; reflexivity |]. split; [reflexivity |].
  split; [reflexivity |]. split; [reflexivity |].
  apply (served_counts_agree Cases.listed_twice Cases.fresh).
  - left. vm_compute. reflexivity.
  - reflexivity.
Defined.

(** X20. Round trip: once [setData] has answered [true], a GET of the
    query handler answers 200 with the cache headers, the snapshot's
    [scrapedAt] and counters, the instant of the write as [storedAt], and
    the mountains as JSON. *)
Theorem stored_snapshot_is_served (w : world) (b b' : Gateway.backend)
    (value : AggregateSnapshot) :
  Gateway.setData w b value = (Fulfilled true, b') ->
  Conditions.handler b' "GET" =
  {| Conditions.status_code := 200;
     Conditions.headers := Conditions.cache_headers;
     Conditions.json :=
       Conditions.Latest true
         (JStr (scrapedAt value)) (JStr (toISOString w))
         (JNum (integer (successCount value)))
         (JNum (integer (totalCount value)))
         (JArr (map (fun r => Gateway.jsonify (Gateway.record_object r))
                    (mountains value))) |}.
Proof.
  intros H. apply (payload_served w), (setData_selected w b b' value H).
Qed.

(** The snapshot of the outage, written to the fresh store and read back. *)
Lemma stored_snapshot_is_served_witness :
  exists s b',
    SnoCountry.runAllScrapers Scenario.offline = Fulfilled s /\
    Gateway.setData Scenario.offline Cases.fresh s = (Fulfilled true, b') /\
    Conditions.handler b' "GET" =
    {| Conditions.status_code := 200;
       Conditions.headers := Conditions.cache_headers;
       Conditions.json :=
         Conditions.Latest true
           (JStr Scenario.instant) (JStr Scenario.instant)
           (JNum (Finite 0 0)) (JNum (Finite 0 0)) (JArr []) |}.
Proof.
  eexists. eexists. split; [vm_compute; reflexivity |]. split; [reflexivity |].
  match goal with
  | |- Conditions.handler ?b' "GET" = _ =>
      exact (stored_snapshot_is_served Scenario.offline Cases.fresh b'
               {| mountains := []; scrapedAt := Scenario.instant;
                  successCount := 0; totalCount := 0 |} eq_refl)
  end.
Defined.

(** ** The trigger's summary *)

Lemma flagged_summaries (ms : list CanonicalConditionRecord) :
  flagged (map Scrape.summarize ms) = live ms.
Proof.
  unfold flagged, live. induction ms as [| m ms IH]; [reflexivity |].
  cbn [map filter Scrape.summarize Scrape.summary_ok].
  destruct (present (base m)); cbn [List.length]; lia.
Qed.

(** X21. Whichever pipeline the trigger runs, a reply that carries results
    has status 200 and a summary that agrees with its counters: one entry
    per counted mountain, as many entries flagged [ok] as [successCount]
    says, and the run's timestamp. *)
Theorem trigger_summary_agrees
    (run : world -> settled AggregateSnapshot) (w : world) (req : Scrape.request) :
  run = SnoCountry.runAllScrapers \/ run = PerResort.runAllScrapers ->
  forall ok scrapedAt successCount totalCount saved ms,
    Scrape.json (Scrape.handler run w req)
    = Scrape.Results ok scrapedAt successCount totalCount saved ms ->
    Scrape.status_code (Scrape.handler run w req) = 200 /\
    ok = true /\
    scrapedAt = toISOString w /\
    totalCount = Z.of_nat (List.length ms) /\
    successCount = flagged ms /\
    successCount <= totalCount.
Proof.
  intros Hrun ok at_ sc tc saved ms.
  unfold Scrape.handler.
  match goal with |- context [if ?g then _ else _] => destruct g end;
    [cbn; discriminate |].
  destruct (run w) as [s | e] eqn:Hs; cbn [await bind Storage.setData];
    [| cbn; discriminate].
  cbn [Scrape.json Scrape.status_code]. intros [= <- <- <- <- <- <-].
  assert (Hc : SnoCountry.runAllScrapers w = Fulfilled s \/
               PerResort.runAllScrapers w = Fulfilled s)
    by (destruct Hrun as [<- | <-]; [left | right]; exact Hs).
  destruct (completed_run_counts w s Hc) as [Hsc [Htc Hat]].
  rewrite flagged_summaries, length_map.
  repeat split; try assumption.
  rewrite Hsc, Htc. apply live_le_length.
Qed.

(** The manual call with every site down: 33 entries, none flagged. *)
Lemma trigger_summary_agrees_witness :
  exists saved ms,
    Scrape.json (Scrape.handler PerResort.runAllScrapers Scenario.read_only
                   Scenario.manual_call)
    = Scrape.Results true Scenario.instant 0 33 saved ms /\
    Scrape.status_code (Scrape.handler PerResort.runAllScrapers Scenario.read_only
                          Scenario.manual_call) = 200 /\
    true = true /\
    Scenario.instant = toISOString Scenario.read_only /\
    33 = Z.of_nat (List.length ms) /\
    0 = flagged ms /\
    0 <= 33.
Proof.
  eexists. eexists. split; [vm_compute; reflexivity |].
  eapply (trigger_summary_agrees PerResort.runAllScrapers Scenario.read_only
            Scenario.manual_call).
  - right. reflexivity.
  - vm_compute. reflexivity.
Defined.

Lemma PerResort_run (w : world) :
  PerResort.runAllScrapers w =
  Fulfilled (PerResort.aggregate w
               (map (fun f => PerResort.call f w) PerResort.ALL_SCRAPERS)).
Proof. reflexivity. Qed.

(** X22. With the per-resort pipeline the trigger never answers 500: a
    request that is let through gets 200 with [totalCount] 33 and a summary
    of 33 entries, whatever the upstream sites and the store do. *)
Theorem per_resort_trigger_always_answers (w : world) (req : Scrape.request) :
  Scrape.status_code (Scrape.handler PerResort.runAllScrapers w req) = 401 \/
  exists successCount saved ms,
    Scrape.handler PerResort.runAllScrapers w req =
    {| Scrape.status_code := 200;
       Scrape.json := Scrape.Results true (toISOString w) successCount 33 saved ms |} /\
    List.length ms = 33%nat /\
    0 <= successCount <= 33.
Proof.
  unfold Scrape.handler.
  match goal with |- context [if ?g then _ else _] => destruct g end;
    [left; reflexivity | right].
  rewrite PerResort_run. cbn [await bind Storage.setData].
  set (s := PerResort.aggregate w _).
  destruct (completed_run_counts w s (or_intror (PerResort_run w))) as [Hsc [Htc Hat]].
  assert (H33 : totalCount s = 33) by apply aggregate_totalCount.
  exists (successCount s), (storage_write w s), (map Scrape.summarize (mountains s)).
  rewrite Hat, H33. split; [reflexivity |].
  rewrite length_map. split; [lia |].
  rewrite Hsc. pose proof (live_le_length (mountains s)) as Hle.
  unfold live in *. lia.
Qed.

(** ** The debugging runner *)








(** ** The local full run *)

Lemma failed_length (ms : list CanonicalConditionRecord) :
  Z.of_nat (List.length (filter (fun m => nullish (base m)) ms))
  = Z.of_nat (List.length ms) - live ms.
Proof.
  unfold live, present. induction ms as [| m ms IH]; [reflexivity |].
  cbn [filter List.length]. destruct (nullish (base m)); cbn [negb List.length]; lia.
Qed.

Lemma lines_printed (ms : list CanonicalConditionRecord) :
  Forall printable ms ->
  exists lines,
    mapM (fun m => n <- toString (name m) ;;
                   s <- toString (source m) ;;
                   Return (n, s)) ms = Return lines /\
    List.length lines = List.length ms.
Proof.
  induction 1 as [| m ms [[n Hn] [s Hs]] _ [lines [Hl Hlen]]].
  - exists []. split; reflexivity.
  - exists ((n, s) :: lines). cbn [mapM]. rewrite Hn, Hs. cbn [bind].
    rewrite Hl. cbn [bind List.length]. split; [reflexivity | congruence].
Qed.

Lemma Forall_filter {A} (P : A -> Prop) (f : A -> bool) (l : list A) :
  Forall P l -> Forall P (filter f l).
Proof.
  induction 1 as [| a l Ha _ IH]; cbn; [constructor |].
  destruct (f a); [constructor; assumption | assumption].
Qed.

Lemma run_scrape_prints (run : world -> settled AggregateSnapshot) (w : world)
    (s : AggregateSnapshot) :
  run w = Fulfilled s ->
  Forall printable (mountains s) ->
  successCount s = live (mountains s) ->
  totalCount s = Z.of_nat (List.length (mountains s)) ->
  exists lines,
    RunScrape.main run w
    = RunScrape.Printed {| RunScrape.saved := storage_write w s;
                           RunScrape.rate := (successCount s, totalCount s);
                           RunScrape.need_tuning := lines |} /\
    Z.of_nat (List.length lines) = totalCount s - successCount s.
Proof.
  intros Hrun Hp Hs Ht.
  destruct (lines_printed _ (Forall_filter _ (fun m => nullish (base m)) _ Hp))
    as [lines [Hl Hlen]].
  exists lines. split.
  - unfold RunScrape.main, Storage.setData. rewrite Hrun. cbn [await bind].
    rewrite Hl. reflexivity.
  - rewrite Hlen, failed_length, Hs, Ht. reflexivity.
Qed.

Lemma dedup_Forall (P : CanonicalConditionRecord -> Prop) (w : world)
    (rs : list jsval) :
  (forall r p, SnoCountry.parseRecord w r = Return (Some p) -> P p) ->
  forall matched names ms,
    Forall P matched ->
    SnoCountry.dedup w rs matched names = Return ms ->
    Forall P ms.
Proof.
  intros HP. induction rs as [| r rest IH]; intros matched names ms Hm H;
    cbn [SnoCountry.dedup] in H.
  - injection H as <-. exact Hm.
  - destruct (SnoCountry.parseRecord w r) as [[p |] | e] eqn:Hr; cbn [bind] in H;
      [| eauto | discriminate H].
    destruct (negb (existsb (sameValueZero (name p)) names)); [| eauto].
    apply (IH _ _ _ (proj2 (Forall_app _ _ _) (conj Hm (Forall_cons _ (HP _ _ Hr) (Forall_nil _)))) H).
Qed.

Lemma parseRecord_printable (w : world) (r : jsval) (p : CanonicalConditionRecord) :
  SnoCountry.parseRecord w r = Return (Some p) -> printable p.
Proof.
  intros H. split.
  - destruct (parseRecord_accepted w r p H) as [_ [[m [Hm _]] _]].
    unfold SnoCountry.resolve, index in Hm.
    destruct (toString (name p)) as [n | e]; [exists n; reflexivity | discriminate Hm].
  - destruct (parseRecord_identity w r p H) as [_ [_ [_ ->]]].
    eexists. reflexivity.
Qed.

Lemma PerResort_printable (w : world) (s : AggregateSnapshot) :
  PerResort.runAllScrapers w = Fulfilled s -> Forall printable (mountains s).
Proof.
  intros H. apply PerResort_run_inv in H. subst s.
  assert (Hp : Forall (fun f => exists r, PerResort.call f w = Fulfilled r /\ printable r)
                      PerResort.ALL_SCRAPERS).
  { pose proof scrapers_named as Hn.
    induction Hn as [| f n fs ns Hf _ IH]; constructor; [| exact IH].
    destruct (Hf w) as [r [Hr [Hname [u Hu]]]]. exists r. split; [exact Hr |].
    unfold printable. rewrite Hname, Hu. split; eexists; reflexivity. }
  destruct (records_of w _ Hp) as [rs [H2 Hrs]].
  rewrite (aggregate_fulfilled w rs H2). exact Hrs.
Qed.

Lemma SnoCountry_printable (w : world) (s : AggregateSnapshot) :
  SnoCountry.runAllScrapers w = Fulfilled s -> Forall printable (mountains s).
Proof.
  intros H. destruct (SnoCountry_run_inv w s H) as [allResorts [_ [Hd _]]].
  apply (dedup_Forall printable w allResorts (parseRecord_printable w) [] [] _
           (Forall_nil _) Hd).
Qed.

(** X24. The local full run, over either pipeline: a run that rejects is
    fatal; a run that completes is reported, whether or not the write went
    through, with one line per mountain that has no base depth, that is
    [totalCount - successCount] lines, and the all-clear exactly when the
    two counters agree. *)
Theorem run_scrape_report (run : world -> settled AggregateSnapshot) (w : world) :
  run = SnoCountry.runAllScrapers \/ run = PerResort.runAllScrapers ->
  (forall e, run w = Rejected e -> RunScrape.main run w = RunScrape.Fatal e) /\
  (forall s,
     run w = Fulfilled s ->
     exists lines,
       RunScrape.main run w
       = RunScrape.Printed {| RunScrape.saved := storage_write w s;
                              RunScrape.rate := (successCount s, totalCount s);
                              RunScrape.need_tuning := lines |} /\
       Z.of_nat (List.length lines) = totalCount s - successCount s /\
       (lines = [] <-> successCount s = totalCount s)).
Proof.
  intros Hrun. split.
  - intros e He. unfold RunScrape.main. rewrite He. reflexivity.
  - intros s Hs.
    assert (Hc : SnoCountry.runAllScrapers w = Fulfilled s \/
                 PerResort.runAllScrapers w = Fulfilled s)
      by (destruct Hrun as [<- | <-]; [left | right]; exact Hs).
    destruct (completed_run_counts w s Hc) as [Hsc [Htc _]].
    assert (Hp : Forall printable (mountains s)).
    { destruct Hc as [H | H];
        [apply (SnoCountry_printable w) | apply (PerResort_printable w)]; exact H. }
    destruct (run_scrape_prints run w s Hs Hp Hsc Htc) as [lines [Hmain Hlen]].
    exists lines. split; [exact Hmain |]. split; [exact Hlen |].
    split.
    + intros ->. cbn in Hlen. lia.
    + intros Heq. destruct lines; [reflexivity |]. cbn [List.length] in Hlen. lia.
Qed.

(** The Vermont feed with one depth-less entry: one line to tune. *)
Lemma run_scrape_report_witness :
  exists s lines,
    SnoCountry.runAllScrapers
      (Scenario.vermont [Scenario.killington_resort;
                         Scenario.entry [("resort_name", JStr "Stowe")]])
    = Fulfilled s /\
    RunScrape.main SnoCountry.runAllScrapers
      (Scenario.vermont [Scenario.killington_resort;
                         Scenario.entry [("resort_name", JStr "Stowe")]])
    = RunScrape.Printed {| RunScrape.saved := true;
                           RunScrape.rate := (1, 2);
                           RunScrape.need_tuning := lines |} /\
    lines = [("Stowe", "SnoCountry")] /\
    Z.of_nat (List.length lines) = totalCount s - successCount s.
Proof.
  destruct (run_scrape_report SnoCountry.runAllScrapers
              (Scenario.vermont [Scenario.killington_resort;
                                 Scenario.entry [("resort_name", JStr "Stowe")]])
              (or_introl eq_refl)) as [_ H].
  eexists. 
  match goal with |- exists lines, ?run = Fulfilled ?s /\ _ =>
    assert (Hs : run = Fulfilled s) by (vm_compute; reflexivity) end.
  destruct (H _ Hs) as [lines [Hmain [Hlen _]]].
  exists lines. split; [exact Hs |].
  assert (Hl : lines = [("Stowe", "SnoCountry")]).
  { vm_compute in Hmain. injection Hmain as <-. reflexivity. }
  split; [rewrite Hmain; reflexivity |]. split; [exact Hl | exact Hlen].
Defined.
